(** * Automated shopping trolley controller: navigation, cart merge, request boundary

    A shallow embedding of [automatic_shopping_trolley.py] and the properties
    of its line classifier, turn executor, node navigator, cart merge and
    request-handling boundary.

    Conventions of the embedding.
    - Python string constants that play the role of an enumeration
      ([CMD_*], [LINE_*]) are inductive types; [command_char] gives back the
      character that is written to the serial port.
    - The controller runs against a [World]: the navigator's [current_node],
      a logical clock in milliseconds, the hardware inputs still to come
      (indexed by the number of calls made so far), the remote database and
      the trace of every observable call, most recent first.
    - [time.sleep d] advances the clock by exactly [d]; every other statement
      is instantaneous.  Timeouts of 20 s and 60 s are 20000 and 60000.
    - A [while] loop is a [Fixpoint] on a fuel argument which is consulted
      only after the loop condition held; [None] means the fuel ran out.  Each
      entry point passes a fuel that is proved sufficient. *)

From Stdlib Require Import ZArith List Ascii String Lia Bool.
From Stdlib Require QArith_base DecimalString.
From stdpp Require Import base option gmap strings list fin_maps.

Local Open Scope string_scope.
Local Open Scope list_scope.
Local Open Scope Z_scope.

(** ** Constants *)

Inductive command : Type :=
  | CMD_FORWARD | CMD_BACKWARD | CMD_STOP | CMD_LEFT | CMD_RIGHT
  | CMD_SLIGHT_LEFT | CMD_SLIGHT_RIGHT.

Definition command_char (c : command) : string :=
  match c with
  | CMD_FORWARD => "F" | CMD_BACKWARD => "B" | CMD_STOP => "S"
  | CMD_LEFT => "L" | CMD_RIGHT => "R"
  | CMD_SLIGHT_LEFT => "M" | CMD_SLIGHT_RIGHT => "N"
  end.

#[global] Instance command_eq_dec : EqDecision command.
Proof. solve_decision. Defined.

Definition command_eqb (a b : command) : bool := bool_decide (a = b).

Inductive line_state : Type :=
  | LINE_CENTERED | LINE_SLIGHT_LEFT | LINE_SLIGHT_RIGHT | LINE_LOST.

#[global] Instance line_state_eq_dec : EqDecision line_state.
Proof. solve_decision. Defined.

(** [NODE_MAPPING], as the association list the dict literal spells out. *)
Definition NODE_MAPPING : list (string * Z) :=
  [ ("home", 0);
    ("RFJ1", 1); ("RFJ2", 2); ("RFJ3", 3);
    ("RBJ1", 4); ("RBJ2", 5); ("RBJ3", 6);
    ("pdt1", 7); ("pdt2", 8); ("pdt3", 9);
    ("pdt4", 10); ("pdt5", 11); ("pdt6", 12);
    ("pdt7", 13); ("pdt8", 14); ("pdt9", 15) ].

Definition PRODUCT_ROWS : list (string * Z) :=
  [ ("pdt1", 1); ("pdt2", 1); ("pdt3", 1);
    ("pdt4", 2); ("pdt5", 2); ("pdt6", 2);
    ("pdt7", 3); ("pdt8", 3); ("pdt9", 3) ].

(** [d.get(k)] on a dict literal. *)
Fixpoint dict_get {V : Type} (k : string) (d : list (string * V)) : option V :=
  match d with
  | [] => None
  | (k', v) :: d' => if String.eqb k k' then Some v else dict_get k d'
  end.

(** [k in d]. *)
Definition dict_mem {V : Type} (k : string) (d : list (string * V)) : bool :=
  match dict_get k d with Some _ => true | None => false end.

(** ** Python string helpers *)

(** [s[n:]] *)
Fixpoint str_drop (n : nat) (s : string) : string :=
  match n, s with
  | O, _ => s
  | S n', String _ s' => str_drop n' s'
  | S _, EmptyString => EmptyString
  end.

(** [s[-1]]: the last character, [None] where Python raises IndexError. *)
Fixpoint str_last (s : string) : option ascii :=
  match s with
  | EmptyString => None
  | String a EmptyString => Some a
  | String _ s' => str_last s'
  end.

(** [s.startswith(p)] *)
Definition startswith (s p : string) : bool := String.prefix p s.

(** [str.lower] on ASCII text: [A]-[Z] go to [a]-[z], every other
    character is kept.  On text with other cased letters [str.lower] folds
    these too; the statements that depend on the folded value are made for
    ASCII text. *)
Definition ascii_lower (a : ascii) : ascii :=
  let n := nat_of_ascii a in
  if ((65 <=? n) && (n <=? 90))%nat then ascii_of_nat (n + 32) else a.

Fixpoint lower (s : string) : string :=
  match s with
  | EmptyString => EmptyString
  | String a s' => String (ascii_lower a) (lower s')
  end.

(** ** The world the controller runs in *)

Definition sensors : Type := (Z * Z * Z)%type.

Inductive event : Type :=
  | EvSend (c : command)                (* HardwareInterface.send_command *)
  | EvSensors (s : sensors)             (* HardwareInterface.read_ir_sensors *)
  | EvRecv (line : option string)       (* HardwareInterface.receive_line *)
  | EvStatus (request_id msg : string). (* FirebaseComm.update_trolley_status *)

#[global] Instance event_eq_dec : EqDecision event.
Proof. solve_decision. Defined.

Record World : Type := mkWorld {
  (* Navigator *)
  current_node : string;
  (* time.time(), in milliseconds *)
  clock : Z;
  (* lgpio: the reading the k-th call of read_ir_sensors returns *)
  ir_feed : nat -> sensors;
  ir_reads : nat;
  (* serial: the stripped line the k-th call of receive_line finds, if any *)
  serial_feed : nat -> option string;
  serial_reads : nat;
  (* Firebase: /products/<node>/uid and /inventory/<product>/name *)
  fb_products_uid : gmap string string;
  fb_inventory_name : gmap string string;
  (* Firebase: /trolleyStatus/<request> *)
  fb_status : gmap string string;
  (* Firebase: /trolleyProcessing/<request> *)
  fb_processing : gmap string bool;
  (* Firebase: /trolleyCarts/<request> *)
  fb_carts : gmap string (gmap string Z);
  (* Firebase: whether the k-th poll of a confirmation flag, at the given
     path, reads True *)
  flag_feed : string -> nat -> bool;
  flag_polls : nat;
  (* every call on the hardware and every status report, newest first *)
  trace : list event
}.

(** *** Field updates *)

Definition set_current_node (n : string) (w : World) : World :=
  mkWorld n (clock w) (ir_feed w) (ir_reads w) (serial_feed w) (serial_reads w)
          (fb_products_uid w) (fb_inventory_name w) (fb_status w)
          (fb_processing w) (fb_carts w) (flag_feed w) (flag_polls w) (trace w).

Definition set_clock (t : Z) (w : World) : World :=
  mkWorld (current_node w) t (ir_feed w) (ir_reads w) (serial_feed w) (serial_reads w)
          (fb_products_uid w) (fb_inventory_name w) (fb_status w)
          (fb_processing w) (fb_carts w) (flag_feed w) (flag_polls w) (trace w).

Definition set_ir_reads (n : nat) (w : World) : World :=
  mkWorld (current_node w) (clock w) (ir_feed w) n (serial_feed w) (serial_reads w)
          (fb_products_uid w) (fb_inventory_name w) (fb_status w)
          (fb_processing w) (fb_carts w) (flag_feed w) (flag_polls w) (trace w).

Definition set_serial_reads (n : nat) (w : World) : World :=
  mkWorld (current_node w) (clock w) (ir_feed w) (ir_reads w) (serial_feed w) n
          (fb_products_uid w) (fb_inventory_name w) (fb_status w)
          (fb_processing w) (fb_carts w) (flag_feed w) (flag_polls w) (trace w).

Definition set_fb_status (m : gmap string string) (w : World) : World :=
  mkWorld (current_node w) (clock w) (ir_feed w) (ir_reads w) (serial_feed w)
          (serial_reads w) (fb_products_uid w) (fb_inventory_name w) m
          (fb_processing w) (fb_carts w) (flag_feed w) (flag_polls w) (trace w).

Definition set_fb_processing (m : gmap string bool) (w : World) : World :=
  mkWorld (current_node w) (clock w) (ir_feed w) (ir_reads w) (serial_feed w)
          (serial_reads w) (fb_products_uid w) (fb_inventory_name w) (fb_status w)
          m (fb_carts w) (flag_feed w) (flag_polls w) (trace w).

Definition set_fb_carts (m : gmap string (gmap string Z)) (w : World) : World :=
  mkWorld (current_node w) (clock w) (ir_feed w) (ir_reads w) (serial_feed w)
          (serial_reads w) (fb_products_uid w) (fb_inventory_name w) (fb_status w)
          (fb_processing w) m (flag_feed w) (flag_polls w) (trace w).

Definition set_flag_polls (n : nat) (w : World) : World :=
  mkWorld (current_node w) (clock w) (ir_feed w) (ir_reads w) (serial_feed w)
          (serial_reads w) (fb_products_uid w) (fb_inventory_name w) (fb_status w)
          (fb_processing w) (fb_carts w) (flag_feed w) n (trace w).

Definition log (e : event) (w : World) : World :=
  mkWorld (current_node w) (clock w) (ir_feed w) (ir_reads w) (serial_feed w)
          (serial_reads w) (fb_products_uid w) (fb_inventory_name w) (fb_status w)
          (fb_processing w) (fb_carts w) (flag_feed w) (flag_polls w)
          (e :: trace w).

(** *** A state monad with fuel exhaustion *)

Definition M (A : Type) : Type := World -> option (A * World).

Definition ret {A : Type} (a : A) : M A := fun w => Some (a, w).

Definition bind {A B : Type} (m : M A) (k : A -> M B) : M B :=
  fun w => match m w with
           | Some (a, w') => k a w'
           | None => None
           end.

(** A statement that only changes the world. *)
Definition exec (f : World -> World) : M unit := fun w => Some (tt, f w).

Notation "'let*' x ':=' m 'in' k" := (bind m (fun x => k))
  (at level 10, x pattern, m at level 100, k at level 200).
Notation "m ';;' k" := (bind m (fun _ => k))
  (at level 100, k at level 200, right associativity).

(** *** Primitive effects *)

(** [time.sleep(ms / 1000)] *)
Definition sleep (ms : Z) (w : World) : World := set_clock (clock w + ms) w.

(** [HardwareInterface.send_command] on an open port. *)
Definition send_command (c : command) (w : World) : World := log (EvSend c) w.

(** [HardwareInterface.read_ir_sensors]; a failed read is the reading
    (1, 1, 1) in the feed. *)
Definition read_ir_sensors (w : World) : sensors * World :=
  let s := ir_feed w (ir_reads w) in
  (s, log (EvSensors s) (set_ir_reads (S (ir_reads w)) w)).

(** What [receive_line] returns when the port holds [o]: the line if one is
    waiting and is not empty after stripping. *)
Definition line_of (o : option string) : option string :=
  match o with
  | Some EmptyString => None
  | _ => o
  end.

(** [HardwareInterface.receive_line] *)
Definition receive_line (w : World) : option string * World :=
  let r := line_of (serial_feed w (serial_reads w)) in
  (r, log (EvRecv r) (set_serial_reads (S (serial_reads w)) w)).

(** [FirebaseComm.update_trolley_status] *)
Definition update_trolley_status (request_id msg : string) (w : World) : World :=
  log (EvStatus request_id msg)
      (set_fb_status (<[request_id := msg]> (fb_status w)) w).

(** [FirebaseComm.get_expected_uid]: [uid.lower() if uid else None]. *)
Definition get_expected_uid (node_name : string) (w : World) : option string :=
  match fb_products_uid w !! node_name with
  | Some EmptyString => None
  | Some uid => Some (lower uid)
  | None => None
  end.

(** ** LineFollower *)

(** Truth value of an integer. *)
Definition truthy (z : Z) : bool := negb (Z.eqb z 0).

Definition get_state (s : sensors) : line_state :=
  let '(left_sensor, center_sensor, right_sensor) := s in
  if truthy left_sensor && negb (truthy center_sensor) && truthy right_sensor
  then LINE_CENTERED
  else if truthy left_sensor && negb (truthy center_sensor)
          && negb (truthy right_sensor)
  then LINE_SLIGHT_LEFT
  else if negb (truthy left_sensor) && negb (truthy center_sensor)
          && truthy right_sensor
  then LINE_SLIGHT_RIGHT
  else if negb (truthy left_sensor) && negb (truthy center_sensor)
          && negb (truthy right_sensor)
  then LINE_CENTERED
  else if negb (truthy left_sensor) && truthy left_sensor && truthy left_sensor
  then LINE_SLIGHT_RIGHT
  else if truthy left_sensor && truthy left_sensor && negb (truthy right_sensor)
  then LINE_SLIGHT_LEFT
  else LINE_CENTERED.

(** ** Navigator *)

(** [Navigator.__init__]: [self.navigation_timeout = 60], [self.turn_timeout = 20];
    nothing reassigns them. *)
Definition navigation_timeout : Z := 60000.
Definition turn_timeout : Z := 20000.

(** Fuel for a loop bounded by [timeout] whose every iteration sleeps at
    least [period]. *)
Definition loop_fuel (timeout period : Z) : nat := S (Z.to_nat (timeout / period)).

(** [Navigator.__init__]: [self.current_node = "home"]. *)
Definition Navigator_init (w : World) : World := set_current_node "home" w.

Definition get_current_node (w : World) : string := current_node w.

Definition _get_turn_for_transition (start_node end_node : string) : option command :=
  if String.eqb start_node "home" && startswith end_node "RFJ" then None
  else if startswith start_node "RFJ" && startswith end_node "pdt" then Some CMD_RIGHT
  else if startswith start_node "RBJ" && startswith end_node "RFJ" then Some CMD_RIGHT
  else if startswith start_node "RBJ" && startswith end_node "RBJ" then Some CMD_LEFT
  else if startswith start_node "RFJ" && String.eqb end_node "home" then Some CMD_RIGHT
  else None.

(** The test [left == 1 or center == 1 or right == 0] that ends a turn. *)
Definition turn_detect (s : sensors) : bool :=
  let '(left_v, center_v, right_v) := s in
  Z.eqb left_v 1 || Z.eqb center_v 1 || Z.eqb right_v 0.

(** The [while] loop of [execute_simple_turn].  [Some b] is a [return b]
    from inside the loop, [None] the loop condition turning false. *)
Fixpoint turn_loop (fuel : nat) (start_time : Z) (w : World)
    : option (option bool * World) :=
  if clock w - start_time <? turn_timeout then
    match fuel with
    | O => None
    | S fuel' =>
        let (s, w1) := read_ir_sensors w in
        if turn_detect s then
          Some (Some true, sleep 200 (send_command CMD_STOP (sleep 900 w1)))
        else
          turn_loop fuel' start_time (sleep 50 w1)
    end
  else Some (None, w).

(** [execute_simple_turn].  The message printed at the timeout reads
    [left], [center] and [right]; they are bound there because the loop body
    has run: the 1.5 s that precede the loop are less than the timeout. *)
Definition execute_simple_turn (turn_command : command) (request_id : string)
    (w : World) : option (bool * World) :=
  let w1 := send_command turn_command w in
  let start_time := clock w1 in
  match turn_loop (loop_fuel turn_timeout 50) start_time (sleep 1500 w1) with
  | Some (Some b, w2) => Some (b, w2)
  | Some (None, w2) =>
      Some (false,
            update_trolley_status request_id
              ("error:turn_timeout:" +:+ command_char turn_command)
              (send_command CMD_STOP w2))
  | None => None
  end.

(** [serial_line and serial_line.startswith("RFID:")], and then
    [serial_line[5:].lower()]. *)
Definition rfid_uid (serial_line : option string) : option string :=
  match serial_line with
  | Some line => if startswith line "RFID:" then Some (lower (str_drop 5 line)) else None
  | None => None
  end.

(** Step 2 of the correction loop: the command the line state asks for. *)
Definition required_command (st : line_state) (last_command_sent : command) : command :=
  match st with
  | LINE_CENTERED => CMD_FORWARD
  | LINE_SLIGHT_LEFT => CMD_SLIGHT_RIGHT
  | LINE_SLIGHT_RIGHT => CMD_SLIGHT_LEFT
  | LINE_LOST => last_command_sent
  end.

(** Step 3 of the correction loop: send only if changed. *)
Definition send_if_changed (required last_command_sent : command) (w : World)
    : command * World :=
  if command_eqb required last_command_sent then (last_command_sent, w)
  else (required, send_command required w).

(** Steps 2 and 3 for a classifier verdict [st]. *)
Definition line_correction (st : line_state) (last_command_sent : command)
    (w : World) : command * World :=
  send_if_changed (required_command st last_command_sent) last_command_sent w.

(** The [while] loop of [navigate_to_node]. *)
Fixpoint nav_loop (fuel : nat) (expected_uid destination_node_name request_id : string)
    (start_time : Z) (last_command_sent : command) (w : World)
    : option (option bool * World) :=
  if clock w - start_time <? navigation_timeout then
    match fuel with
    | O => None
    | S fuel' =>
        let (serial_line, w1) := receive_line w in
        match rfid_uid serial_line with
        | Some received_uid =>
            if String.eqb received_uid expected_uid then
              Some (Some true,
                    sleep 500
                      (update_trolley_status request_id
                         ("arrived_at:" +:+ destination_node_name)
                         (set_current_node destination_node_name w1)))
            else
              nav_loop fuel' expected_uid destination_node_name request_id
                       start_time CMD_FORWARD
                       (sleep 300 (send_command CMD_FORWARD w1))
        | None =>
            let (s, w2) := read_ir_sensors w1 in
            let (last', w3) := line_correction (get_state s) last_command_sent w2 in
            nav_loop fuel' expected_uid destination_node_name request_id
                     start_time last' (sleep 50 w3)
        end
    end
  else Some (None, w).

(** [navigate_to_node] from [start_time = time.time()] on. *)
Definition navigate_from_start (expected_uid destination_node_name request_id : string)
    (w : World) : option (bool * World) :=
  match nav_loop (loop_fuel navigation_timeout 50) expected_uid
                 destination_node_name request_id (clock w) CMD_FORWARD w with
  | Some (Some b, w') => Some (b, w')
  | Some (None, w') =>
      Some (false,
            update_trolley_status request_id
              ("error:nav_timeout:" +:+ current_node w' +:+ "->"
                 +:+ destination_node_name)
              (send_command CMD_STOP w'))
  | None => None
  end.

Definition navigate_to_node (destination_node_name request_id : string)
    (w : World) : option (bool * World) :=
  if String.eqb (current_node w) destination_node_name then Some (true, w)
  else
    let w := update_trolley_status request_id
               ("moving_to:" +:+ destination_node_name) w in
    match get_expected_uid destination_node_name w with
    | None =>
        Some (false,
              update_trolley_status request_id
                ("error:no_uid:" +:+ destination_node_name) w)
    | Some expected_uid =>
        match _get_turn_for_transition (current_node w) destination_node_name with
        | Some initial_turn =>
            match execute_simple_turn initial_turn request_id w with
            | Some (true, w') =>
                navigate_from_start expected_uid destination_node_name request_id
                                    (send_command CMD_FORWARD w')
            | Some (false, w') => Some (false, w')
            | None => None
            end
        | None =>
            navigate_from_start expected_uid destination_node_name request_id
                                (send_command CMD_FORWARD w)
        end
    end.

(** The [while] loop of [reverse_until_node]. *)
Fixpoint reverse_loop (fuel : nat) (expected_uid destination_node_name request_id : string)
    (start_time : Z) (w : World) : option (option bool * World) :=
  if clock w - start_time <? navigation_timeout then
    match fuel with
    | O => None
    | S fuel' =>
        let (serial_line, w1) := receive_line w in
        match rfid_uid serial_line with
        | Some received_uid =>
            if String.eqb received_uid expected_uid then
              Some (Some true,
                    sleep 500
                      (update_trolley_status request_id
                         ("arrived_at:" +:+ destination_node_name)
                         (set_current_node destination_node_name
                            (send_command CMD_STOP w1))))
            else
              reverse_loop fuel' expected_uid destination_node_name request_id
                           start_time
                           (sleep 50 (sleep 300 (send_command CMD_BACKWARD w1)))
        | None =>
            reverse_loop fuel' expected_uid destination_node_name request_id
                         start_time (sleep 50 w1)
        end
    end
  else Some (None, w).

Definition reverse_until_node (destination_node_name request_id : string)
    (w : World) : option (bool * World) :=
  if String.eqb (current_node w) "home" || String.eqb destination_node_name "home"
  then Some (false, w)
  else
    let w := update_trolley_status request_id
               ("reversing_to:" +:+ destination_node_name) w in
    match get_expected_uid destination_node_name w with
    | None =>
        Some (false,
              update_trolley_status request_id
                ("error:no_uid:" +:+ destination_node_name) w)
    | Some expected_uid =>
        let w := send_command CMD_BACKWARD w in
        match reverse_loop (loop_fuel navigation_timeout 50) expected_uid
                           destination_node_name request_id (clock w) w with
        | Some (Some b, w') => Some (b, w')
        | Some (None, w') =>
            Some (false,
                  update_trolley_status request_id
                    ("error:reverse_timeout:" +:+ current_node w' +:+ "->"
                       +:+ destination_node_name)
                    (send_command CMD_STOP w'))
        | None => None
        end
    end.

Definition set_current_position (node_name : string) (w : World) : World :=
  if dict_mem node_name NODE_MAPPING || String.eqb node_name "home"
  then set_current_node node_name w
  else w.

(** ** FirebaseComm: the remaining operations *)

Definition set_processing_status (request_id : string) (status : bool) (w : World) : World :=
  set_fb_processing (<[request_id := status]> (fb_processing w)) w.

Definition delete_processing_status (request_id : string) (w : World) : World :=
  set_fb_processing (delete request_id (fb_processing w)) w.

(** [.get() is True] *)
Definition is_processing (request_id : string) (w : World) : bool :=
  match fb_processing w !! request_id with
  | Some true => true
  | _ => false
  end.

(** [.get() or {}] *)
Definition get_cart (request_id : string) (w : World) : gmap string Z :=
  default ∅ (fb_carts w !! request_id).

Definition set_cart (request_id : string) (cart_data : gmap string Z) (w : World) : World :=
  set_fb_carts (<[request_id := cart_data]> (fb_carts w)) w.

(** [name if name else "Unknown Product"] *)
Definition get_product_name (product_id : string) (w : World) : string :=
  match fb_inventory_name w !! product_id with
  | Some EmptyString => "Unknown Product"
  | Some name => name
  | None => "Unknown Product"
  end.

(** One [flag_ref.get() is True]. *)
Definition poll_flag (path : string) (w : World) : bool * World :=
  (flag_feed w path (flag_polls w), set_flag_polls (S (flag_polls w)) w).

(** The [while] loop of [_wait_for_flag] with [poll_interval=0.5]. *)
Fixpoint wait_loop (fuel : nat) (path : string) (timeout start_time : Z) (w : World)
    : option (option bool * World) :=
  if clock w - start_time <? timeout then
    match fuel with
    | O => None
    | S fuel' =>
        let (v, w1) := poll_flag path w in
        if v then Some (Some true, w1)
        else wait_loop fuel' path timeout start_time (sleep 500 w1)
    end
  else Some (None, w).

Definition _wait_for_flag (path : string) (timeout : Z) : M bool := fun w =>
  match wait_loop (loop_fuel timeout 500) path timeout (clock w) w with
  | Some (Some b, w') => Some (b, w')
  | Some (None, w') => Some (false, w')
  | None => None
  end.

(** Called with the default [timeout=60] everywhere. *)
Definition wait_for_confirmation (request_id : string) : M bool :=
  _wait_for_flag ("/trolleyConfirmations/" +:+ request_id +:+ "/confirmed") 60000.

Definition wait_for_home_confirmation (request_id : string) : M bool :=
  _wait_for_flag ("/trolleyConfirmations/" +:+ request_id +:+ "/homeConfirmed") 60000.

(** ** TrolleyController *)

(** *** Request payloads *)

(** A value of the request's JSON as far as [int()] tells values apart: a
    float is the rational it denotes, [PyOther] is a list or an object. *)
Inductive pyval : Type :=
  | PyNone
  | PyBool (b : bool)
  | PyInt (z : Z)
  | PyFloat (q : QArith_base.Q)
  | PyStr (s : string)
  | PyOther.

Inductive cart_field : Type :=
  | CartDict (items : gmap string pyval)   (* data['cart'] is a dict *)
  | CartOther.                             (* any other value *)

(** [event.data] when it is not [None]: a dict, seen through its ['action']
    and ['cart'] entries, or a value of another type. *)
Inductive request_data : Type :=
  | ReqDict (action : option pyval) (cart : option cart_field)
  | ReqOther.

Record fb_event : Type := mkEvent {
  event_type : string;
  path : string;
  data : option request_data
}.

(** What a call did: returned, or raised an exception of class [Exception]. *)
Inductive outcome : Type :=
  | Normal
  | Raised (exc : string).

(** *** [int(quantity)] *)

(** The model of [int()] on a string is exact on ASCII text, which is what
    the statements about string quantities are made for: outside ASCII
    [int()] knows further white space and further decimal digits. *)

(** The white space [int()] strips from ASCII text: tab, line feed, vertical
    tab, form feed, carriage return and space.  (The separators 28 to 31,
    which [str.strip] removes, are not among them.) *)
Definition is_space (a : ascii) : bool :=
  let n := nat_of_ascii a in
  ((9 <=? n) && (n <=? 13) || (n =? 32))%nat.

Fixpoint lstrip (s : string) : string :=
  match s with
  | String a s' => if is_space a then lstrip s' else s
  | EmptyString => EmptyString
  end.

Fixpoint rstrip (s : string) : string :=
  match s with
  | String a s' =>
      match rstrip s' with
      | EmptyString => if is_space a then EmptyString else String a EmptyString
      | r => String a r
      end
  | EmptyString => EmptyString
  end.

(** The decimal digits of ASCII text. *)
Definition digit_of (a : ascii) : option Z :=
  let n := nat_of_ascii a in
  if ((48 <=? n) && (n <=? 57))%nat then Some (Z.of_nat n - 48) else None.

(** Decimal digits with single underscores between them. *)
Fixpoint int_digits (s : string) (acc : Z) (after_digit : bool) : option Z :=
  match s with
  | EmptyString => if after_digit then Some acc else None
  | String a s' =>
      match digit_of a with
      | Some d => int_digits s' (10 * acc + d) true
      | None =>
          if Ascii.eqb a "_" && after_digit then int_digits s' acc false else None
      end
  end.

(** The digits of a literal; underscores do not count. *)
Fixpoint count_digits (s : string) : Z :=
  match s with
  | EmptyString => 0
  | String a s' =>
      match digit_of a with
      | Some _ => 1 + count_digits s'
      | None => count_digits s'
      end
  end.

(** The default of [sys.int_max_str_digits]: [int()] raises ValueError on a
    literal of more digits. *)
Definition int_max_str_digits : Z := 4300.

(** An unsigned literal within the digit limit. *)
Definition int_literal (r : string) : option Z :=
  if count_digits r <=? int_max_str_digits then int_digits r 0 false else None.

(** [int(s)] for ASCII text [s]; [None] is ValueError. *)
Definition int_of_str (s : string) : option Z :=
  match rstrip (lstrip s) with
  | String "+" r => int_literal r
  | String "-" r => option_map Z.opp (int_literal r)
  | r => int_literal r
  end.

(** [int(quantity)]; [None] stands for ValueError and TypeError, the two
    exceptions the merge catches. *)
Definition py_int (quantity : pyval) : option Z :=
  match quantity with
  | PyInt z => Some z
  | PyBool b => Some (if b then 1 else 0)
  | PyFloat q => Some (Z.quot (QArith_base.Qnum q) (Z.pos (QArith_base.Qden q)))
  | PyStr s => int_of_str s
  | PyNone => None
  | PyOther => None
  end.

(** *** The cart merge of [process_shopping_list] *)

(** The body of [for product_id, quantity in new_cart_items.items()]. *)
Definition merge_item (product_id : string) (quantity : pyval)
    (existing_cart : gmap string Z) : gmap string Z :=
  if String.eqb product_id "processed" || String.eqb product_id "action"
  then existing_cart
  else
    let current_qty := default 0 (existing_cart !! product_id) in
    match py_int quantity with
    | Some add_qty => <[product_id := current_qty + add_qty]> existing_cart
    | None => existing_cart
    end.

Definition merge_items (new_cart_items : gmap string pyval)
    (existing_cart : gmap string Z) : gmap string Z :=
  map_fold merge_item existing_cart new_cart_items.

(** [{pid: qty for pid, qty in existing_cart.items() if qty > 0}] *)
Definition positive_entries (existing_cart : gmap string Z) : gmap string Z :=
  filter (fun kv => 0 < kv.2) existing_cart.

(** [final_cart] as a function of the delta and the persisted cart. *)
Definition merge_cart (new_cart_items : gmap string pyval)
    (existing_cart : gmap string Z) : gmap string Z :=
  positive_entries (merge_items new_cart_items existing_cart).

(** *** Sorting and row partition *)

(** [str(n)] *)
Definition str_of_int (n : Z) : string :=
  DecimalString.NilZero.string_of_int (Z.to_int n).

(** [sorted(l, key=key)]: a stable sort; [leb a b] is [key(a) <= key(b)]. *)
Fixpoint insert_sorted {A : Type} (leb : A -> A -> bool) (x : A) (l : list A) : list A :=
  match l with
  | [] => [x]
  | y :: l' => if leb y x then y :: insert_sorted leb x l' else x :: l
  end.

Definition sorted_by {A : Type} (leb : A -> A -> bool) (l : list A) : list A :=
  fold_left (fun acc x => insert_sorted leb x acc) l [].

(** [NODE_MAPPING.get(pid, float('inf'))] compared with [<=]. *)
Definition node_key_leb (a b : string) : bool :=
  match dict_get a NODE_MAPPING, dict_get b NODE_MAPPING with
  | Some x, Some y => x <=? y
  | Some _, None => true
  | None, Some _ => false
  | None, None => true
  end.

(** [products_by_row], a dict with the keys 1, 2 and 3. *)
Definition rows : Type := list (Z * list string).

Definition rows_init : rows := [(1, []); (2, []); (3, [])].

(** [row in products_by_row] *)
Definition rows_mem (row : Z) (r : rows) : bool :=
  existsb (fun kv => Z.eqb (fst kv) row) r.

(** [products_by_row[row]] *)
Definition rows_get (row : Z) (r : rows) : list string :=
  match List.find (fun kv => Z.eqb (fst kv) row) r with
  | Some kv => snd kv
  | None => []
  end.

(** [products_by_row[row].append(product_id)] *)
Definition rows_append (row : Z) (product_id : string) (r : rows) : rows :=
  List.map (fun kv : Z * list string =>
              if Z.eqb (fst kv) row then (fst kv, snd kv ++ [product_id]) else kv) r.

(** The three values the partition loop builds. *)
Record partition : Type := mkPartition {
  products_by_row : rows;
  valid_products_in_cart : list string;
  highest_row_with_items : Z
}.

(** The body of [for product_id in sorted(final_cart.keys())]. *)
Definition partition_step (p : partition) (product_id : string) : partition :=
  match dict_get product_id PRODUCT_ROWS with
  | Some row =>
      if rows_mem row (products_by_row p) then
        mkPartition (rows_append row product_id (products_by_row p))
                    (valid_products_in_cart p ++ [product_id])
                    (Z.max (highest_row_with_items p) row)
      else p
  | None => p
  end.

Definition partition_cart (final_cart : gmap string Z) : partition :=
  fold_left partition_step
            (sorted_by String.leb (fst <$> map_to_list final_cart))
            (mkPartition rows_init [] 0).

(** *** The itinerary *)

Definition _move_trolley_to_home (request_id : string) : M unit := fun w =>
  let w := update_trolley_status request_id "moving_to:home" w in
  let current_node := get_current_node w in
  if String.eqb current_node "home" then
    Some (tt, update_trolley_status request_id "arrived_at:home" w)
  else
    (* Step 1, inside try/except Exception *)
    let step1 : M bool :=
      if startswith current_node "pdt" || startswith current_node "RBJ" then
        match str_last current_node with
        | Some row_num_str =>
            let target_rfj := "RFJ" +:+ String row_num_str EmptyString in
            if startswith current_node "RBJ" then
              reverse_until_node target_rfj request_id
            else if startswith current_node "pdt" then
              navigate_to_node target_rfj request_id
            else ret true
        | None => ret false
        end
      else ret true in
    (let* path_ok := step1 in
     (* Step 2 *)
     let* path_ok :=
       (fun w =>
          if path_ok && startswith (get_current_node w) "RFJ"
          then execute_simple_turn CMD_RIGHT request_id w
          else ret path_ok w) in
     (* Step 3 *)
     let* path_ok :=
       (fun w =>
          if path_ok then
            if negb (String.eqb (get_current_node w) "home")
            then navigate_to_node "home" request_id w
            else ret true w
          else ret false w) in
     fun w =>
       if path_ok && String.eqb (get_current_node w) "home"
       then Some (tt, update_trolley_status request_id "arrived_at:home" w)
       else Some (tt, w)) w.

(** The [for product_id in sorted_product_list] loop of [_process_row];
    [false] is a [return False] from inside it. *)
Fixpoint visit_products (request_id : string) (sorted_product_list : list string)
    : M bool :=
  match sorted_product_list with
  | [] => ret true
  | product_id :: rest =>
      fun w =>
        let product_name := get_product_name product_id w in
        (exec (update_trolley_status request_id ("moving_to_product:" +:+ product_id)) ;;
         let* ok := navigate_to_node product_id request_id in
         if negb ok then ret false else
         exec (update_trolley_status request_id
                 ("waiting_for_item:" +:+ product_id +:+ ":" +:+ product_name)) ;;
         let* ok := wait_for_confirmation request_id in
         if negb ok then
           exec (update_trolley_status request_id
                   ("error:item_confirmation_failed:" +:+ product_id)) ;;
           exec (send_command CMD_STOP) ;;
           ret false
         else
           exec (update_trolley_status request_id ("item_added:" +:+ product_id)) ;;
           visit_products request_id rest) w
  end.

Definition _process_row (request_id : string) (product_list : list string)
    (row_number : Z) (is_last_row : bool) : M bool :=
  exec (update_trolley_status request_id
          ("processing_row:" +:+ str_of_int row_number)) ;;
  let row_front_junction := "RFJ" +:+ str_of_int row_number in
  let row_back_junction := "RBJ" +:+ str_of_int row_number in
  let* ok := navigate_to_node row_front_junction request_id in
  if negb ok then ret false else
  exec (send_command CMD_FORWARD) ;;
  exec (sleep 500) ;;
  exec (send_command CMD_STOP) ;;
  exec (sleep 100) ;;
  let* ok := execute_simple_turn CMD_RIGHT request_id in
  if negb ok then ret false else
  let sorted_product_list := sorted_by node_key_leb product_list in
  let* ok := visit_products request_id sorted_product_list in
  if negb ok then ret false else
  let* ok := navigate_to_node row_back_junction request_id in
  if negb ok then ret false else
  if negb is_last_row then
    let* ok := execute_simple_turn CMD_LEFT request_id in
    if negb ok then ret false else ret true
  else ret true.

(** The [for row_num in sorted(products_by_row.keys())] loop, with its
    [break]; the result is [navigation_ok]. *)
Fixpoint process_rows (request_id : string) (p : partition) (row_nums : list Z)
    (navigation_ok : bool) : M bool :=
  match row_nums with
  | [] => ret navigation_ok
  | row_num :: rest =>
      match rows_get row_num (products_by_row p) with
      | [] => process_rows request_id p rest navigation_ok
      | product_list =>
          let is_last_row_to_process := Z.eqb row_num (highest_row_with_items p) in
          let* navigation_ok :=
            _process_row request_id product_list row_num is_last_row_to_process in
          if negb navigation_ok then ret false
          else process_rows request_id p rest navigation_ok
      end
  end.

Definition process_shopping_list (request_id : string)
    (new_cart_items : gmap string pyval) : M unit :=
  exec (update_trolley_status request_id "processing_list") ;;
  fun w =>
    let existing_cart := get_cart request_id w in
    let final_cart := merge_cart new_cart_items existing_cart in
    let p := partition_cart final_cart in
    (exec (set_cart request_id final_cart) ;;
     match valid_products_in_cart p with
     | [] =>
         exec (update_trolley_status request_id "completed_empty_cart") ;;
         _move_trolley_to_home request_id
     | _ =>
         let* navigation_ok :=
           process_rows request_id p
             (sorted_by Z.leb (fst <$> products_by_row p)) true in
         if navigation_ok then
           exec (update_trolley_status request_id "waiting_for_home_confirmation") ;;
           let* confirmed := wait_for_home_confirmation request_id in
           if negb confirmed then
             exec (update_trolley_status request_id "error:home_confirmation_failed") ;;
             exec (send_command CMD_STOP)
           else
             exec (update_trolley_status request_id "returning_home") ;;
             _move_trolley_to_home request_id
         else ret tt
     end) w.

(** [process_request].  [data.get] raises AttributeError on a value that is
    not a dict; the name [success] read after the return home is bound
    nowhere, so that branch ends in NameError. *)
Definition process_request (request_id : string) (data : request_data) : M outcome :=
  match data with
  | ReqOther => ret (Raised "AttributeError")
  | ReqDict action cart =>
      match action with
      | Some (PyStr "home") =>
          _move_trolley_to_home request_id ;;
          ret (Raised "NameError")
      | _ =>
          match cart with
          | Some (CartDict items) =>
              process_shopping_list request_id items ;;
              ret Normal
          | _ =>
              exec (update_trolley_status request_id "error:invalid_request_format") ;;
              ret Normal
          end
      end
  end.

(** [path.split('/')[-1]] *)
Fixpoint last_segment_from (s cur : string) : string :=
  match s with
  | EmptyString => cur
  | String a s' =>
      if Ascii.eqb a "/" then last_segment_from s' EmptyString
      else last_segment_from s' (cur +:+ String a EmptyString)
  end.

Definition last_segment (s : string) : string := last_segment_from s EmptyString.

Definition _handle_new_request_callback (event : fb_event) : M unit := fun w =>
  if String.eqb (event_type event) "put" || String.eqb (event_type event) "patch" then
    let request_id := last_segment (path event) in
    match data event with
    | None => Some (tt, w)
    | Some event_data =>
        if String.eqb request_id "" || String.eqb request_id "trolleyRequests"
        then Some (tt, w)
        else if is_processing request_id w then Some (tt, w)
        else
          let w := set_processing_status request_id true w in
          match process_request request_id event_data w with
          | Some (Normal, w') =>
              (* finally *)
              Some (tt, delete_processing_status request_id w')
          | Some (Raised _, w') =>
              (* except Exception *)
              let w' := update_trolley_status request_id
                          "error:critical_processing_exception" w' in
              let w' := send_command CMD_STOP w' in
              (* finally *)
              Some (tt, delete_processing_status request_id w')
          | None => None
          end
    end
  else Some (tt, w).

(** [TrolleyController.__init__], once the collaborators exist. *)
Definition TrolleyController_init (w : World) : World :=
  set_current_position "home" (Navigator_init w).

(** ** Shutdown *)

(** The hardware interface as [close] and the guard of [send_command] see
    it: the GPIO handle, the serial port ([None] when there is no port
    object, otherwise whether it is open), the commands written to the port,
    newest first, and the time spent sleeping, in milliseconds. *)
Record hardware : Type := mkHardware {
  h_gpio : option Z;
  esp32 : option bool;
  wire : list command;
  uptime : Z
}.

(** [HardwareInterface.send_command], with its guard
    [self.esp32 and self.esp32.is_open]. *)
Definition HardwareInterface_send_command (c : command) (hw : hardware) : hardware :=
  match esp32 hw with
  | Some true => mkHardware (h_gpio hw) (esp32 hw) (c :: wire hw) (uptime hw)
  | _ => hw
  end.

(** [HardwareInterface.close] *)
Definition HardwareInterface_close (hw : hardware) : hardware :=
  let hw1 :=
    match esp32 hw with
    | Some true =>
        let hw' := HardwareInterface_send_command CMD_STOP hw in
        (* time.sleep(0.1); self.esp32.close() *)
        mkHardware (h_gpio hw') (Some false) (wire hw') (uptime hw' + 100)
    | _ => hw
    end in
  (* gpiochip_close when the handle is not None; then both fields are None *)
  mkHardware None None (wire hw1) (uptime hw1).

(** The controller as [stop] and [cleanup] see it. *)
Record controller : Type := mkController {
  hw_interface : option hardware;
  _running : bool
}.

(** [TrolleyController.cleanup] *)
Definition TrolleyController_cleanup (c : controller) : controller :=
  match hw_interface c with
  | Some hw => mkController (Some (HardwareInterface_close hw)) (_running c)
  | None => c
  end.

(** [TrolleyController.stop] *)
Definition TrolleyController_stop (c : controller) : controller :=
  if negb (_running c) then c
  else TrolleyController_cleanup (mkController (hw_interface c) false).

(** * Vocabulary of the statements *)

(** What no operation of the navigator touches, and what only grows. *)
Record evolves (w w' : World) : Prop := mkEvolves {
  ev_ir_feed : ir_feed w' = ir_feed w;
  ev_serial_feed : serial_feed w' = serial_feed w;
  ev_products_uid : fb_products_uid w' = fb_products_uid w;
  ev_inventory_name : fb_inventory_name w' = fb_inventory_name w;
  ev_flag_feed : flag_feed w' = flag_feed w;
  ev_processing : fb_processing w' = fb_processing w;
  ev_carts : fb_carts w' = fb_carts w;
  ev_clock : clock w <= clock w';
  ev_ir_reads : (ir_reads w <= ir_reads w')%nat;
  ev_serial_reads : (serial_reads w <= serial_reads w')%nat;
  ev_trace : exists new, trace w' = new ++ trace w
}.

(** The sensor events of [n] successive polls, the first one reading
    [feed from]; newest first. *)
Definition polled (feed : nat -> sensors) (from n : nat) : list event :=
  rev (List.map (fun k => EvSensors (feed k)) (seq from n)).

(** The commands of a trace, newest first. *)
Definition sent (tr : list event) : list command :=
  omap (fun e => match e with EvSend c => Some c | _ => None end) tr.

(** The port holds an RFID line whose UID is [expected_uid]: the test
    [received_uid == expected_uid] of both navigation loops succeeds on it. *)
Definition uid_match (expected_uid : string) (o : option string) : bool :=
  match rfid_uid (line_of o) with
  | Some received_uid => String.eqb received_uid expected_uid
  | None => false
  end.

(** *** Reading a stretch of trace in chronological order *)

(** The commands sent by the line-correction branch: in the correction loop
    a [send_command] that directly follows a sensor read. *)
Fixpoint correction_sends (chron : list event) : nat :=
  match chron with
  | [] => 0
  | EvSensors _ :: tl =>
      match tl with
      | EvSend _ :: tl' => S (correction_sends tl')
      | _ => correction_sends tl
      end
  | _ :: tl => correction_sends tl
  end.

(** No command sent by the line-correction branch repeats the command that
    was sent last before it; [last] is the command sent last before [chron]
    begins. *)
Fixpoint never_resent (last : command) (chron : list event) : Prop :=
  match chron with
  | [] => True
  | EvSend c :: tl => never_resent c tl
  | EvSensors _ :: tl =>
      match tl with
      | EvSend c :: tl' => c <> last /\ never_resent c tl'
      | _ => never_resent last tl
      end
  | _ :: tl => never_resent last tl
  end.

(** A stretch of trace begins with a [receive_line], if it begins at all. *)
Definition starts_with_recv (chron : list event) : Prop :=
  chron = [] \/ exists l tl, chron = EvRecv l :: tl.

(** The status strings [navigate_to_node] can report for a destination. *)
Definition navigation_status (dest msg : string) : Prop :=
  msg = "moving_to:" +:+ dest
  \/ msg = "arrived_at:" +:+ dest
  \/ msg = "error:no_uid:" +:+ dest
  \/ (exists c, msg = "error:turn_timeout:" +:+ command_char c)
  \/ (exists from, msg = "error:nav_timeout:" +:+ from +:+ "->" +:+ dest).

(** The three of them that end a failed call. *)
Definition failure_status (dest msg : string) : Prop :=
  msg = "error:no_uid:" +:+ dest
  \/ (exists c, msg = "error:turn_timeout:" +:+ command_char c)
  \/ (exists from, msg = "error:nav_timeout:" +:+ from +:+ "->" +:+ dest).

(** An event [navigate_to_node] can add to the trace. *)
Definition navigation_event (rid dest : string) (e : event) : Prop :=
  match e with
  | EvStatus r msg => r = rid /\ navigation_status dest msg
  | _ => True
  end.

(** *** Worlds for examples *)

(** A world at time 0 with nothing read, reported or stored yet. *)
Definition world_at (node : string) (ir : nat -> sensors)
    (serial : nat -> option string) (uids : gmap string string) : World :=
  mkWorld node 0 ir 0 serial 0 uids ∅ ∅ ∅ ∅ (fun _ _ => false) 0 [].

Definition demo_uids : gmap string string :=
  {[ "home" := "0A00"; "RFJ1" := "AB12"; "RBJ1" := "CD34"; "pdt1" := "EF56" ]}.

(** The port is silent. *)
Definition silent : nat -> option string := fun _ => None.

(** The same reading at every poll. *)
Definition steady (s : sensors) : nat -> sensors := fun _ => s.

(** A call that returned [w'] from [w] left the position alone or moved it
    to a node whose UID the registry resolves. *)
Definition advances (w w' : World) : Prop :=
  evolves w w' /\
  (current_node w' = current_node w
   \/ is_Some (get_expected_uid (current_node w') w)).

(** A computation that returns from every world, advancing it. *)
Definition runs {A : Type} (m : M A) : Prop :=
  forall w, exists a w', m w = Some (a, w') /\ advances w w'.

(** *** Carts and positions *)

(** The carts the controller can find under [/trolleyCarts]: nothing, which
    [get_cart] reads as the empty cart, or what an earlier
    [process_shopping_list] stored there. *)
Inductive persisted_cart : gmap string Z -> Prop :=
  | persisted_nothing : persisted_cart ∅
  | persisted_merge delta cart :
      persisted_cart cart -> persisted_cart (merge_cart delta cart).

(** Every quantity is strictly positive. *)
Definition positive_cart (cart : gmap string Z) : Prop :=
  forall pid qty, cart !! pid = Some qty -> 0 < qty.

(** A key the merge skips. *)
Definition reserved_key (product_id : string) : Prop :=
  product_id = "processed" \/ product_id = "action".

(** The position is a name of [NODE_MAPPING]. *)
Definition known_position (w : World) : Prop :=
  dict_mem (current_node w) NODE_MAPPING = true.

(** Every name whose UID the registry resolves is a name of [NODE_MAPPING]. *)
Definition registry_within_mapping (w : World) : Prop :=
  forall name, is_Some (get_expected_uid name w) ->
               dict_mem name NODE_MAPPING = true.

(** *** Text *)

(** Every character of the text is an ASCII character. *)
Fixpoint is_ascii_text (s : string) : bool :=
  match s with
  | EmptyString => true
  | String a s' => (nat_of_ascii a <? 128)%nat && is_ascii_text s'
  end.

(** A quantity that is not a string, or is ASCII text. *)
Definition ascii_quantity (v : pyval) : Prop :=
  match v with
  | PyStr s => is_ascii_text s = true
  | _ => True
  end.

(** An ASCII character that no integer literal holds: neither a digit, a
    sign, an underscore nor white space. *)
Definition foreign_char (a : ascii) : bool :=
  (nat_of_ascii a <? 128)%nat
  && negb (is_space a)
  && match digit_of a with Some _ => false | None => true end
  && negb (Ascii.eqb a "+") && negb (Ascii.eqb a "-") && negb (Ascii.eqb a "_").

Fixpoint has_foreign_char (s : string) : bool :=
  match s with
  | EmptyString => false
  | String a s' => foreign_char a || has_foreign_char s'
  end.

(** A quantity [int()] raises ValueError or TypeError on: [None], a nested
    value, ASCII text that is not an integer literal, and any text that
    holds an ASCII character foreign to integer literals. *)
Definition unconvertible (v : pyval) : Prop :=
  ascii_quantity v /\ py_int v = None
  \/ match v with PyStr s => has_foreign_char s = true | _ => False end.

(** The ASCII white space [str.strip] removes: 9 to 13 and 28 to 32. *)
Definition strip_space (a : ascii) : bool :=
  let n := nat_of_ascii a in
  ((9 <=? n) && (n <=? 13) || (28 <=? n) && (n <=? 32))%nat.

(** A line [receive_line] can return: it is not empty and neither begins nor
    ends with white space. *)
Definition is_stripped (line : string) : bool :=
  match line, str_last line with
  | String a _, Some b => negb (strip_space a) && negb (strip_space b)
  | _, _ => false
  end.

(** *** Readings, paths *)

(** A value [lgpio.gpio_read] returns. *)
Definition is_bit (z : Z) : Prop := z = 0 \/ z = 1.

(** The string holds a ['/']. *)
Fixpoint has_slash (s : string) : bool :=
  match s with
  | EmptyString => false
  | String a s' => Ascii.eqb a "/" || has_slash s'
  end.

(** A command of the correction loop: forward, or one of the two veers. *)
Definition is_steering (c : command) : Prop :=
  c = CMD_FORWARD \/ c = CMD_SLIGHT_LEFT \/ c = CMD_SLIGHT_RIGHT.

(** An event the handling of request [rid] may add to the trace: any
    command, reading or line, and a status report only for [rid] itself and
    with a message other than [completed]. *)
Definition request_event (rid : string) (e : event) : Prop :=
  match e with
  | EvStatus r msg => r = rid /\ msg <> "completed"
  | _ => True
  end.

(** The status table after the reports among [new] (newest first) have been
    written, one after the other, into [st]. *)
Fixpoint replay (new : list event) (st : gmap string string) : gmap string string :=
  match new with
  | [] => st
  | EvStatus r msg :: tl => <[r := msg]> (replay tl st)
  | _ :: tl => replay tl st
  end.

(** From [w] to [w'] only events of request [rid] were added, and the status
    table changed by these reports only. *)
Definition tells (rid : string) (w w' : World) : Prop :=
  exists new, trace w' = new ++ trace w /\
              Forall (request_event rid) new /\
              fb_status w' = replay new (fb_status w).

(** A computation that only tells of [rid], wherever it returns. *)
Definition reports {A : Type} (rid : string) (m : M A) : Prop :=
  forall w0 w a w', tells rid w0 w -> m w = Some (a, w') -> tells rid w0 w'.

(** The status of request [rid] is an error report. *)
Definition reported_error (rid : string) (w : World) : Prop :=
  exists msg, fb_status w !! rid = Some msg /\ startswith msg "error:" = true.

(** The trolley is at home and the status of request [rid] says so. *)
Definition reported_home (rid : string) (w : World) : Prop :=
  current_node w = "home" /\ fb_status w !! rid = Some "arrived_at:home".

(** Partial correctness of a computation: from a world in [P], a result [a]
    in a world [w'] satisfies [Q a w']. *)
Definition hoare {A : Type} (P : World -> Prop) (m : M A) (Q : A -> World -> Prop) : Prop :=
  forall w a w', P w -> m w = Some (a, w') -> Q a w'.

(** Each element of the list is below its successor. *)
Fixpoint ascending {A : Type} (leb : A -> A -> bool) (l : list A) : bool :=
  match l with
  | x :: (y :: _) as tl => leb x y && ascending leb tl
  | _ => true
  end.

(** * Properties *)

(** ** The classifier *)

Lemma get_state_not_lost (s : sensors) : get_state s <> LINE_LOST.
Proof.
  destruct s as [[l c] r]. unfold get_state.
  destruct (truthy l), (truthy c), (truthy r); simpl; discriminate.
Qed.

(** ** Loops: one unfolding step *)

(** A fact about the indices from [i] on: the first one by [Hfirst], the
    later ones by [Hall]. *)
Ltac first_or_later i Hfirst Hall :=
  let k := fresh "k" in
  let Hk := fresh "Hk" in
  intros k Hk; destruct (decide (k = i)) as [->|]; [exact Hfirst | apply Hall; lia].

Lemma turn_loop_unfold fuel start w :
  turn_loop fuel start w =
  if clock w - start <? turn_timeout then
    match fuel with
    | O => None
    | S fuel' =>
        let (s, w1) := read_ir_sensors w in
        if turn_detect s then
          Some (Some true, sleep 200 (send_command CMD_STOP (sleep 900 w1)))
        else turn_loop fuel' start (sleep 50 w1)
    end
  else Some (None, w).
Proof. destruct fuel; reflexivity. Qed.

(** The turn loop returns whenever the fuel covers the time that is left. *)
Lemma turn_loop_total fuel start w :
  turn_timeout - (clock w - start) <= 50 * Z.of_nat fuel ->
  exists r w', turn_loop fuel start w = Some (r, w').
Proof.
  revert w. induction fuel as [|fuel IH]; intros w Hfuel; rewrite turn_loop_unfold.
  - destruct (Z.ltb_spec (clock w - start) turn_timeout); [lia | eauto].
  - destruct (Z.ltb_spec (clock w - start) turn_timeout); [| eauto].
    cbn. destruct (turn_detect _); [eauto |].
    apply IH. cbn. lia.
Qed.

(** ** How a call may change the world *)

Lemma evolves_refl w : evolves w w.
Proof. split; try reflexivity; try lia. exists []. reflexivity. Qed.

Lemma evolves_trans w1 w2 w3 : evolves w1 w2 -> evolves w2 w3 -> evolves w1 w3.
Proof.
  intros [] []. split; try congruence; try lia.
  destruct ev_trace0 as [n1 H1], ev_trace1 as [n2 H2].
  exists (n2 ++ n1). rewrite H2, H1. apply app_assoc.
Qed.

(** Each primitive effect extends a history. *)
Lemma evolves_sleep w0 ms w : 0 <= ms -> evolves w0 w -> evolves w0 (sleep ms w).
Proof.
  intros ? H. apply (evolves_trans _ _ _ H).
  split; cbn; try reflexivity; try lia. exists []. reflexivity.
Qed.

Lemma evolves_log w0 e w : evolves w0 w -> evolves w0 (log e w).
Proof.
  intros H. apply (evolves_trans _ _ _ H).
  split; cbn; try reflexivity; try lia. exists [e]. reflexivity.
Qed.

Lemma evolves_send_command w0 c w : evolves w0 w -> evolves w0 (send_command c w).
Proof. apply evolves_log. Qed.

Lemma evolves_update_trolley_status w0 rid msg w :
  evolves w0 w -> evolves w0 (update_trolley_status rid msg w).
Proof.
  intros H. apply (evolves_trans _ _ _ H).
  split; cbn; try reflexivity; try lia. eexists [_]. reflexivity.
Qed.

Lemma evolves_set_current_node w0 n w :
  evolves w0 w -> evolves w0 (set_current_node n w).
Proof.
  intros H. apply (evolves_trans _ _ _ H).
  split; cbn; try reflexivity; try lia. exists []. reflexivity.
Qed.

Lemma evolves_read_ir_sensors w0 w :
  evolves w0 w -> evolves w0 (read_ir_sensors w).2.
Proof.
  intros H. apply (evolves_trans _ _ _ H).
  split; cbn; try reflexivity; try lia. eexists [_]. reflexivity.
Qed.

Lemma evolves_receive_line w0 w :
  evolves w0 w -> evolves w0 (receive_line w).2.
Proof.
  intros H. apply (evolves_trans _ _ _ H).
  split; cbn; try reflexivity; try lia. eexists [_]. reflexivity.
Qed.

Lemma evolves_poll_flag w0 p w : evolves w0 w -> evolves w0 (poll_flag p w).2.
Proof.
  intros H. apply (evolves_trans _ _ _ H).
  split; cbn; try reflexivity; try lia. exists []. reflexivity.
Qed.

Create HintDb evo.
#[local] Hint Resolve evolves_refl evolves_sleep evolves_log evolves_send_command
  evolves_update_trolley_status evolves_set_current_node : evo.
#[local] Hint Extern 1 (_ <= _) => lia : evo.

Lemma turn_loop_evolves fuel start w0 w r w' :
  evolves w0 w -> turn_loop fuel start w = Some (r, w') -> evolves w0 w'.
Proof.
  revert w. induction fuel as [|fuel IH]; intros w Hw; rewrite turn_loop_unfold;
    destruct (_ <? _); try discriminate; try (intros [= <- <-]; exact Hw).
  pose proof (evolves_read_ir_sensors _ _ Hw) as H1. cbn in *.
  destruct (turn_detect _).
  - intros [= <- <-]. auto with evo.
  - apply IH. auto with evo.
Qed.

Lemma execute_simple_turn_evolves w0 cmd rid w b w' :
  evolves w0 w -> execute_simple_turn cmd rid w = Some (b, w') -> evolves w0 w'.
Proof.
  intros Hw. unfold execute_simple_turn.
  destruct (turn_loop _ _ _) as [[[r|] w1]|] eqn:E; try discriminate;
    intros [= <- <-]; eapply turn_loop_evolves in E; eauto 6 with evo.
Qed.

(** ** The turn executor *)

Lemma polled_S feed from n :
  polled feed from (S n) = polled feed (S from) n ++ [EvSensors (feed from)].
Proof. reflexivity. Qed.

(** The turn loop, step by step: it polls [n] readings, all but possibly
    the last failing [turn_detect]; it returns on the first reading that
    passes and falls through once the timeout is reached. *)
Lemma turn_loop_spec fuel start w r w' :
  turn_loop fuel start w = Some (r, w') ->
  exists n : nat,
    ir_reads w' = (ir_reads w + n)%nat /\
    current_node w' = current_node w /\
    serial_reads w' = serial_reads w /\
    fb_status w' = fb_status w /\
    match r with
    | Some b =>
        b = true /\ (0 < n)%nat /\
        (forall k, (ir_reads w <= k < ir_reads w + n - 1)%nat ->
                   turn_detect (ir_feed w k) = false) /\
        turn_detect (ir_feed w (ir_reads w + n - 1)) = true /\
        clock w + 50 * (Z.of_nat n - 1) - start < turn_timeout /\
        clock w' = clock w + 50 * (Z.of_nat n - 1) + 1100 /\
        trace w' = EvSend CMD_STOP :: polled (ir_feed w) (ir_reads w) n ++ trace w
    | None =>
        (forall k, (ir_reads w <= k < ir_reads w + n)%nat ->
                   turn_detect (ir_feed w k) = false) /\
        turn_timeout <= clock w' - start /\
        clock w' = clock w + 50 * Z.of_nat n /\
        (n = 0%nat \/ clock w' - start < turn_timeout + 50) /\
        trace w' = polled (ir_feed w) (ir_reads w) n ++ trace w
    end.
Proof.
  revert w. induction fuel as [|fuel IH]; intros w; rewrite turn_loop_unfold;
    destruct (Z.ltb_spec (clock w - start) turn_timeout) as [Hlt|Hge];
    try discriminate.
  - intros [= <- <-]. exists 0%nat. rewrite Nat.add_0_r.
    repeat split; auto; try lia.
  - cbn. destruct (turn_detect (ir_feed w (ir_reads w))) eqn:Hd.
    + intros [= <- <-]. exists 1%nat. cbn.
      replace (ir_reads w + 1 - 1)%nat with (ir_reads w) by lia.
      repeat split; auto; try lia.
    + intros H. apply IH in H. cbn in H. destruct H as (n & Hn & Hc & Hs & Hst & H).
      exists (S n). repeat split; try (rewrite ?Hn; lia); auto.
      destruct r as [b|].
      * destruct H as (-> & Hpos & Hall & Hlast & Hcl0 & Hcl & Htr).
        repeat split; try lia.
        -- first_or_later (ir_reads w) Hd Hall.
        -- replace (ir_reads w + S n - 1)%nat with (S (ir_reads w) + n - 1)%nat by lia.
           exact Hlast.
        -- rewrite Htr, polled_S, <- app_assoc. reflexivity.
      * destruct H as (Hall & Hto & Hcl & Hb & Htr).
        repeat split; try lia.
        -- first_or_later (ir_reads w) Hd Hall.
        -- rewrite Htr, polled_S, <- app_assoc. reflexivity.
  - intros [= <- <-]. exists 0%nat. rewrite Nat.add_0_r.
    repeat split; auto; try lia.
Qed.

Lemma loop_fuel_covers timeout period :
  0 < period -> 0 <= timeout ->
  timeout <= period * Z.of_nat (loop_fuel timeout period).
Proof.
  intros Hp Ht. unfold loop_fuel.
  rewrite Nat2Z.inj_succ, Z2Nat.id by (apply Z.div_pos; lia).
  pose proof (Z.mod_pos_bound timeout period Hp).
  pose proof (Z.div_mod timeout period). lia.
Qed.

(** [execute_simple_turn] always returns.  It sends the turn command, waits
    1.5 s, polls [n >= 1] readings and succeeds on the first one that passes
    [turn_detect]; when none of them passes it gives up at the timeout. *)
Lemma execute_simple_turn_spec cmd rid w :
  exists b w' (n : nat),
    execute_simple_turn cmd rid w = Some (b, w') /\
    (0 < n)%nat /\
    ir_reads w' = (ir_reads w + n)%nat /\
    current_node w' = current_node w /\
    serial_reads w' = serial_reads w /\
    (forall k, (ir_reads w <= k < ir_reads w + n - 1)%nat ->
               turn_detect (ir_feed w k) = false) /\
    turn_detect (ir_feed w (ir_reads w + n - 1)) = b /\
    if b then
      clock w' = clock w + 1500 + 50 * (Z.of_nat n - 1) + 1100 /\
      clock w' - clock w < turn_timeout + 1100 /\
      trace w' = EvSend CMD_STOP :: polled (ir_feed w) (ir_reads w) n
                   ++ EvSend cmd :: trace w
    else
      turn_timeout <= clock w' - clock w < turn_timeout + 50 /\
      trace w' = EvStatus rid ("error:turn_timeout:" +:+ command_char cmd)
                   :: EvSend CMD_STOP :: polled (ir_feed w) (ir_reads w) n
                   ++ EvSend cmd :: trace w.
Proof.
  unfold execute_simple_turn.
  destruct (turn_loop_total (loop_fuel turn_timeout 50) (clock (send_command cmd w))
              (sleep 1500 (send_command cmd w))) as (r & w1 & E).
  { pose proof (loop_fuel_covers turn_timeout 50). cbn. unfold turn_timeout in *. lia. }
  rewrite E. apply turn_loop_spec in E. cbn in E.
  destruct E as (n & Hn & Hc & Hs & Hst & H). destruct r as [b|].
  - destruct H as (-> & Hpos & Hall & Hlast & Hlt & Hcl & Htr).
    exists true, w1, n. repeat split; auto; try lia.
  - destruct H as (Hall & Hto & Hcl & Hb & Htr).
    assert (0 < n)%nat by (unfold turn_timeout in *; lia).
    exists false, (update_trolley_status rid
                     ("error:turn_timeout:" +:+ command_char cmd)
                     (send_command CMD_STOP w1)), n.
    cbn. repeat split; auto; try lia.
    + intros k Hk. apply Hall. lia.
    + apply Hall. lia.
    + rewrite Htr. reflexivity.
Qed.

(** ** The node navigator *)

Lemma nav_loop_unfold fuel uid dest rid start last w :
  nav_loop fuel uid dest rid start last w =
  if clock w - start <? navigation_timeout then
    match fuel with
    | O => None
    | S fuel' =>
        let (serial_line, w1) := receive_line w in
        match rfid_uid serial_line with
        | Some received_uid =>
            if String.eqb received_uid uid then
              Some (Some true,
                    sleep 500
                      (update_trolley_status rid ("arrived_at:" +:+ dest)
                         (set_current_node dest w1)))
            else
              nav_loop fuel' uid dest rid start CMD_FORWARD
                       (sleep 300 (send_command CMD_FORWARD w1))
        | None =>
            let (s, w2) := read_ir_sensors w1 in
            let (last', w3) := line_correction (get_state s) last w2 in
            nav_loop fuel' uid dest rid start last' (sleep 50 w3)
        end
    end
  else Some (None, w).
Proof. destruct fuel; reflexivity. Qed.

(** [line_correction] sends at most one command and changes nothing else. *)
Lemma line_correction_cases st last w :
  line_correction st last w = (last, w) /\ required_command st last = last
  \/ line_correction st last w
       = (required_command st last, send_command (required_command st last) w)
     /\ required_command st last <> last.
Proof.
  unfold line_correction, send_if_changed, command_eqb.
  case_bool_decide; [left | right]; auto.
Qed.

Lemma nav_loop_total fuel uid dest rid start last w :
  navigation_timeout - (clock w - start) <= 50 * Z.of_nat fuel ->
  exists r w', nav_loop fuel uid dest rid start last w = Some (r, w').
Proof.
  revert w last. induction fuel as [|fuel IH]; intros w last Hfuel;
    rewrite nav_loop_unfold;
    destruct (Z.ltb_spec (clock w - start) navigation_timeout); eauto; try lia.
  cbn. destruct (rfid_uid _) as [received|].
  - destruct (String.eqb _ _); eauto. apply IH. cbn. lia.
  - destruct (line_correction_cases (get_state (ir_feed w (ir_reads w))) last
       (log (EvSensors (ir_feed w (ir_reads w)))
          (set_ir_reads (S (ir_reads w))
             (log (EvRecv (line_of (serial_feed w (serial_reads w))))
                (set_serial_reads (S (serial_reads w)) w)))))
      as [[-> _]|[-> _]]; apply IH; cbn; lia.
Qed.

Lemma nav_loop_evolves fuel uid dest rid start last w0 w r w' :
  evolves w0 w -> nav_loop fuel uid dest rid start last w = Some (r, w') ->
  evolves w0 w'.
Proof.
  revert w last. induction fuel as [|fuel IH]; intros w last Hw;
    rewrite nav_loop_unfold;
    destruct (_ <? _); try discriminate; try (intros [= <- <-]; exact Hw).
  pose proof (evolves_receive_line _ _ Hw) as H1.
  destruct (receive_line w) as [serial_line w1]. cbn [snd] in H1.
  destruct (rfid_uid serial_line) as [received|].
  - destruct (String.eqb _ _).
    + intros [= <- <-]. auto with evo.
    + apply IH. auto with evo.
  - pose proof (evolves_read_ir_sensors _ _ H1) as H2.
    destruct (read_ir_sensors w1) as [s w2]. cbn [snd] in H2.
    destruct (line_correction_cases (get_state s) last w2) as [[-> _]|[-> _]];
      apply IH; auto with evo.
Qed.

(** The correction loop, as far as the serial port and the position go: it
    receives [n] lines; it returns on the first one that matches and only
    then assigns [current_node]. *)
Lemma nav_loop_spec fuel uid dest rid start last w r w' :
  nav_loop fuel uid dest rid start last w = Some (r, w') ->
  exists n : nat,
    serial_reads w' = (serial_reads w + n)%nat /\
    match r with
    | Some b =>
        b = true /\ (0 < n)%nat /\
        (forall k, (serial_reads w <= k < serial_reads w + n - 1)%nat ->
                   uid_match uid (serial_feed w k) = false) /\
        uid_match uid (serial_feed w (serial_reads w + n - 1)) = true /\
        current_node w' = dest /\
        clock w' - start < navigation_timeout + 500 /\
        exists tr, trace w' = EvStatus rid ("arrived_at:" +:+ dest) :: tr
    | None =>
        (forall k, (serial_reads w <= k < serial_reads w + n)%nat ->
                   uid_match uid (serial_feed w k) = false) /\
        current_node w' = current_node w /\
        navigation_timeout <= clock w' - start /\
        (n = 0%nat -> w' = w) /\
        ((0 < n)%nat -> clock w' - start < navigation_timeout + 300)
    end.
Proof.
  revert w last. induction fuel as [|fuel IH]; intros w last;
    rewrite nav_loop_unfold;
    destruct (Z.ltb_spec (clock w - start) navigation_timeout) as [Hlt|Hge];
    try discriminate;
    try (intros [= <- <-]; exists 0%nat; rewrite Nat.add_0_r;
         repeat split; auto; lia).
  cbn. destruct (rfid_uid (line_of (serial_feed w (serial_reads w)))) as [received|] eqn:Hr.
  - destruct (String.eqb_spec received uid) as [->|Hne].
    + intros [= <- <-]. exists 1%nat. cbn.
      replace (serial_reads w + 1 - 1)%nat with (serial_reads w) by lia.
      assert (uid_match uid (serial_feed w (serial_reads w)) = true).
      { unfold uid_match. rewrite Hr. apply String.eqb_refl. }
      repeat split; auto; try lia. eauto.
    + intros H. apply IH in H. cbn in H. destruct H as (n & Hn & H).
      exists (S n). split; [lia|].
      assert (Hfirst : uid_match uid (serial_feed w (serial_reads w)) = false).
      { unfold uid_match. rewrite Hr. apply String.eqb_neq. exact Hne. }
      destruct r as [b|].
      * destruct H as (-> & Hpos & Hall & Hlast & Hc & Hcl & Htr).
        repeat split; auto; try lia.
        -- first_or_later (serial_reads w) Hfirst Hall.
        -- replace (serial_reads w + S n - 1)%nat with (S (serial_reads w) + n - 1)%nat by lia.
           exact Hlast.
      * destruct H as (Hall & Hc & Hto & Hz & Hb).
        repeat split; auto; try lia.
        -- first_or_later (serial_reads w) Hfirst Hall.
        -- intros _. destruct n; [rewrite Hz by reflexivity; cbn; lia | apply Hb; lia].
  - assert (Hfirst : uid_match uid (serial_feed w (serial_reads w)) = false).
    { unfold uid_match. rewrite Hr. reflexivity. }
    match goal with |- context [line_correction ?st ?l ?w2] =>
      destruct (line_correction_cases st l w2) as [[-> _]|[-> _]] end;
    (intros H; apply IH in H; cbn in H; destruct H as (n & Hn & H);
     exists (S n); split; [lia|];
     destruct r as [b|];
     [ destruct H as (-> & Hpos & Hall & Hlast & Hc & Hcl & Htr);
       repeat split; auto; try lia;
       [ first_or_later (serial_reads w) Hfirst Hall
       | replace (serial_reads w + S n - 1)%nat with (S (serial_reads w) + n - 1)%nat by lia;
         exact Hlast ]
     | destruct H as (Hall & Hc & Hto & Hz & Hb);
       repeat split; auto; try lia;
       [ first_or_later (serial_reads w) Hfirst Hall
       | intros _; destruct n; [rewrite Hz by reflexivity; cbn; lia | apply Hb; lia] ] ]).
Qed.

(** From [start_time = time.time()] on, [navigate_to_node] receives [n >= 1]
    lines.  It succeeds on the first one that matches, and only then assigns
    [current_node]; with no match it gives up at the timeout. *)
Lemma navigate_from_start_spec uid dest rid w :
  exists b w' (n : nat),
    navigate_from_start uid dest rid w = Some (b, w') /\
    (0 < n)%nat /\
    serial_reads w' = (serial_reads w + n)%nat /\
    (forall k, (serial_reads w <= k < serial_reads w + n - 1)%nat ->
               uid_match uid (serial_feed w k) = false) /\
    if b then
      uid_match uid (serial_feed w (serial_reads w + n - 1)) = true /\
      current_node w' = dest /\
      clock w' - clock w < navigation_timeout + 500
    else
      uid_match uid (serial_feed w (serial_reads w + n - 1)) = false /\
      current_node w' = current_node w /\
      navigation_timeout <= clock w' - clock w < navigation_timeout + 300 /\
      exists tr,
        trace w' = EvStatus rid ("error:nav_timeout:" +:+ current_node w +:+ "->" +:+ dest)
                     :: EvSend CMD_STOP :: tr.
Proof.
  unfold navigate_from_start.
  destruct (nav_loop_total (loop_fuel navigation_timeout 50) uid dest rid (clock w)
              CMD_FORWARD w) as (r & w1 & E).
  { pose proof (loop_fuel_covers navigation_timeout 50).
    unfold navigation_timeout in *. lia. }
  rewrite E. apply nav_loop_spec in E.
  destruct E as (n & Hn & H). destruct r as [b|].
  - destruct H as (-> & Hpos & Hall & Hlast & Hc & Hcl & Htr).
    exists true, w1, n. repeat split; auto.
  - destruct H as (Hall & Hc & Hto & Hz & Hb).
    assert (0 < n)%nat.
    { destruct n; [|lia]. rewrite Hz in Hto by reflexivity.
      unfold navigation_timeout in *. lia. }
    exists false, (update_trolley_status rid
                     ("error:nav_timeout:" +:+ current_node w1 +:+ "->" +:+ dest)
                     (send_command CMD_STOP w1)), n.
    cbn. repeat split; auto; try lia.
    + intros k Hk. apply Hall. lia.
    + apply Hall. lia.
    + rewrite Hc. eauto.
Qed.

Lemma navigate_from_start_evolves uid dest rid w0 w b w' :
  evolves w0 w -> navigate_from_start uid dest rid w = Some (b, w') -> evolves w0 w'.
Proof.
  intros Hw. unfold navigate_from_start.
  destruct (nav_loop _ _ _ _ _ _ _) as [[[r|] w1]|] eqn:E; try discriminate;
    intros [= <- <-]; eapply nav_loop_evolves in E; eauto 6 with evo.
Qed.

Lemma navigate_to_node_evolves dest rid w0 w b w' :
  evolves w0 w -> navigate_to_node dest rid w = Some (b, w') -> evolves w0 w'.
Proof.
  intros Hw. unfold navigate_to_node.
  destruct (String.eqb _ _); [intros [= <- <-]; exact Hw|].
  destruct (get_expected_uid _ _) as [uid|]; [|intros [= <- <-]; auto with evo].
  cbn [current_node update_trolley_status log set_fb_status].
  destruct (_get_turn_for_transition _ _) as [turn|].
  - destruct (execute_simple_turn _ _ _) as [[[] w1]|] eqn:E; try discriminate.
    + apply navigate_from_start_evolves.
      eapply execute_simple_turn_evolves in E; eauto with evo.
    + intros [= <- <-]. eapply execute_simple_turn_evolves in E; eauto with evo.
  - apply navigate_from_start_evolves. auto with evo.
Qed.

(** What [navigate_to_node] does to the position, for a destination whose
    UID resolves: it ends either on a matching line, received last, with
    [current_node] assigned, or with no matching line received and
    [current_node] untouched. *)
Lemma navigate_to_node_position dest rid w uid :
  get_expected_uid dest w = Some uid ->
  exists b w' (n : nat),
    navigate_to_node dest rid w = Some (b, w') /\
    serial_reads w' = (serial_reads w + n)%nat /\
    (forall k, (serial_reads w <= k < serial_reads w + n - 1)%nat ->
               uid_match uid (serial_feed w k) = false) /\
    ((0 < n)%nat /\ uid_match uid (serial_feed w (serial_reads w + n - 1)) = true /\
       b = true /\ current_node w' = dest /\ current_node w <> dest
     \/
     (n = 0%nat \/ uid_match uid (serial_feed w (serial_reads w + n - 1)) = false) /\
       current_node w' = current_node w /\
       (b = true -> current_node w = dest)).
Proof.
  intros Huid. unfold navigate_to_node.
  destruct (String.eqb_spec (current_node w) dest) as [Heq|Hne].
  { exists true, w, 0%nat. rewrite Nat.add_0_r. split; [reflexivity|].
    split; [reflexivity|]. split; [intros; lia|]. right. auto. }
  assert (Huid' : get_expected_uid dest
            (update_trolley_status rid ("moving_to:" +:+ dest) w) = Some uid) by exact Huid.
  rewrite Huid'.
  set (w0 := update_trolley_status rid ("moving_to:" +:+ dest) w).
  assert (Hs0 : serial_reads w0 = serial_reads w) by reflexivity.
  assert (Hf0 : serial_feed w0 = serial_feed w) by reflexivity.
  assert (Hc0 : current_node w0 = current_node w) by reflexivity.
  assert (Hfinish : forall w1, serial_reads w1 = serial_reads w ->
            serial_feed w1 = serial_feed w -> current_node w1 = current_node w ->
            exists b w' (n : nat),
              navigate_from_start uid dest rid (send_command CMD_FORWARD w1) = Some (b, w') /\
              serial_reads w' = (serial_reads w + n)%nat /\
              (forall k, (serial_reads w <= k < serial_reads w + n - 1)%nat ->
                         uid_match uid (serial_feed w k) = false) /\
              ((0 < n)%nat /\ uid_match uid (serial_feed w (serial_reads w + n - 1)) = true /\
                 b = true /\ current_node w' = dest /\ current_node w <> dest
               \/
               (n = 0%nat \/ uid_match uid (serial_feed w (serial_reads w + n - 1)) = false) /\
                 current_node w' = current_node w /\
                 (b = true -> current_node w = dest))).
  { intros w1 Hs Hf Hc.
    destruct (navigate_from_start_spec uid dest rid (send_command CMD_FORWARD w1))
      as (b & w' & n & E & Hpos & Hn & Hall & H).
    cbn in Hn, Hall, H. rewrite Hs, Hf in *.
    exists b, w', n. repeat split; auto.
    destruct b.
    - left. destruct H as (Hm & Hd & _). auto.
    - right. destruct H as (Hm & Hd & _). rewrite Hd, Hc. repeat split; auto.
      discriminate. }
  destruct (_get_turn_for_transition _ _) as [turn|]; [|apply Hfinish; auto].
  destruct (execute_simple_turn_spec turn rid w0)
    as (b & w1 & n & E & _ & _ & Hc & Hs & _).
  assert (Hf : serial_feed w1 = serial_feed w).
  { apply (execute_simple_turn_evolves w0) in E; [|apply evolves_refl].
    rewrite (ev_serial_feed _ _ E). exact Hf0. }
  rewrite E. destruct b.
  - apply Hfinish; congruence.
  - exists false, w1, 0%nat. rewrite Nat.add_0_r.
    repeat split; try congruence; try lia.
    right. repeat split; auto; try congruence.
Qed.


(** ** The reverse variant *)

Lemma reverse_loop_unfold fuel uid dest rid start w :
  reverse_loop fuel uid dest rid start w =
  if clock w - start <? navigation_timeout then
    match fuel with
    | O => None
    | S fuel' =>
        let (serial_line, w1) := receive_line w in
        match rfid_uid serial_line with
        | Some received_uid =>
            if String.eqb received_uid uid then
              Some (Some true,
                    sleep 500
                      (update_trolley_status rid ("arrived_at:" +:+ dest)
                         (set_current_node dest (send_command CMD_STOP w1))))
            else
              reverse_loop fuel' uid dest rid start
                           (sleep 50 (sleep 300 (send_command CMD_BACKWARD w1)))
        | None => reverse_loop fuel' uid dest rid start (sleep 50 w1)
        end
    end
  else Some (None, w).
Proof. destruct fuel; reflexivity. Qed.

Lemma reverse_loop_total fuel uid dest rid start w :
  navigation_timeout - (clock w - start) <= 50 * Z.of_nat fuel ->
  exists r w', reverse_loop fuel uid dest rid start w = Some (r, w').
Proof.
  revert w. induction fuel as [|fuel IH]; intros w Hfuel;
    rewrite reverse_loop_unfold;
    destruct (Z.ltb_spec (clock w - start) navigation_timeout); eauto; try lia.
  cbn. destruct (rfid_uid _) as [received|].
  - destruct (String.eqb _ _); eauto. apply IH. cbn. lia.
  - apply IH. cbn. lia.
Qed.

Lemma reverse_loop_evolves fuel uid dest rid start w0 w r w' :
  evolves w0 w -> reverse_loop fuel uid dest rid start w = Some (r, w') ->
  evolves w0 w'.
Proof.
  revert w. induction fuel as [|fuel IH]; intros w Hw;
    rewrite reverse_loop_unfold;
    destruct (_ <? _); try discriminate; try (intros [= <- <-]; exact Hw).
  pose proof (evolves_receive_line _ _ Hw) as H1.
  destruct (receive_line w) as [serial_line w1]. cbn [snd] in H1.
  destruct (rfid_uid serial_line) as [received|].
  - destruct (String.eqb _ _).
    + intros [= <- <-]. auto 6 with evo.
    + apply IH. auto 6 with evo.
  - apply IH. auto with evo.
Qed.

Lemma reverse_loop_spec fuel uid dest rid start w r w' :
  reverse_loop fuel uid dest rid start w = Some (r, w') ->
  exists n : nat,
    serial_reads w' = (serial_reads w + n)%nat /\
    match r with
    | Some b =>
        b = true /\ (0 < n)%nat /\
        (forall k, (serial_reads w <= k < serial_reads w + n - 1)%nat ->
                   uid_match uid (serial_feed w k) = false) /\
        uid_match uid (serial_feed w (serial_reads w + n - 1)) = true /\
        current_node w' = dest /\
        clock w' - start < navigation_timeout + 500 /\
        exists tr, trace w' = EvStatus rid ("arrived_at:" +:+ dest) :: EvSend CMD_STOP :: tr
    | None =>
        (forall k, (serial_reads w <= k < serial_reads w + n)%nat ->
                   uid_match uid (serial_feed w k) = false) /\
        current_node w' = current_node w /\
        navigation_timeout <= clock w' - start /\
        (n = 0%nat -> w' = w) /\
        ((0 < n)%nat -> clock w' - start < navigation_timeout + 350)
    end.
Proof.
  revert w. induction fuel as [|fuel IH]; intros w;
    rewrite reverse_loop_unfold;
    destruct (Z.ltb_spec (clock w - start) navigation_timeout) as [Hlt|Hge];
    try discriminate;
    try (intros [= <- <-]; exists 0%nat; rewrite Nat.add_0_r;
         repeat split; auto; lia).
  cbn. destruct (rfid_uid (line_of (serial_feed w (serial_reads w)))) as [received|] eqn:Hr.
  - destruct (String.eqb_spec received uid) as [->|Hne].
    + intros [= <- <-]. exists 1%nat. cbn.
      replace (serial_reads w + 1 - 1)%nat with (serial_reads w) by lia.
      assert (uid_match uid (serial_feed w (serial_reads w)) = true).
      { unfold uid_match. rewrite Hr. apply String.eqb_refl. }
      repeat split; auto; try lia. eauto.
    + intros H. apply IH in H. cbn in H. destruct H as (n & Hn & H).
      exists (S n). split; [lia|].
      assert (Hfirst : uid_match uid (serial_feed w (serial_reads w)) = false).
      { unfold uid_match. rewrite Hr. apply String.eqb_neq. exact Hne. }
      destruct r as [b|].
      * destruct H as (-> & Hpos & Hall & Hlast & Hc & Hcl & Htr).
        repeat split; auto; try lia.
        -- first_or_later (serial_reads w) Hfirst Hall.
        -- replace (serial_reads w + S n - 1)%nat with (S (serial_reads w) + n - 1)%nat by lia.
           exact Hlast.
      * destruct H as (Hall & Hc & Hto & Hz & Hb).
        repeat split; auto; try lia.
        -- first_or_later (serial_reads w) Hfirst Hall.
        -- intros _. destruct n; [rewrite Hz by reflexivity; cbn; lia | apply Hb; lia].
  - assert (Hfirst : uid_match uid (serial_feed w (serial_reads w)) = false).
    { unfold uid_match. rewrite Hr. reflexivity. }
    intros H. apply IH in H. cbn in H. destruct H as (n & Hn & H).
    exists (S n). split; [lia|].
    destruct r as [b|].
    + destruct H as (-> & Hpos & Hall & Hlast & Hc & Hcl & Htr).
      repeat split; auto; try lia.
      * first_or_later (serial_reads w) Hfirst Hall.
      * replace (serial_reads w + S n - 1)%nat with (S (serial_reads w) + n - 1)%nat by lia.
        exact Hlast.
    + destruct H as (Hall & Hc & Hto & Hz & Hb).
      repeat split; auto; try lia.
      * first_or_later (serial_reads w) Hfirst Hall.
      * intros _. destruct n; [rewrite Hz by reflexivity; cbn; lia | apply Hb; lia].
Qed.

Lemma reverse_until_node_evolves dest rid w0 w b w' :
  evolves w0 w -> reverse_until_node dest rid w = Some (b, w') -> evolves w0 w'.
Proof.
  intros Hw. unfold reverse_until_node.
  destruct (_ || _); [intros [= <- <-]; exact Hw|].
  destruct (get_expected_uid _ _) as [uid|]; [|intros [= <- <-]; auto with evo].
  destruct (reverse_loop _ _ _ _ _ _) as [[[r|] w1]|] eqn:E; try discriminate;
    intros [= <- <-]; eapply reverse_loop_evolves in E; eauto 6 with evo.
Qed.

(** [reverse_until_node] and the position, for a destination whose UID
    resolves. *)
Lemma reverse_until_node_position dest rid w uid :
  get_expected_uid dest w = Some uid ->
  exists b w' (n : nat),
    reverse_until_node dest rid w = Some (b, w') /\
    serial_reads w' = (serial_reads w + n)%nat /\
    (forall k, (serial_reads w <= k < serial_reads w + n - 1)%nat ->
               uid_match uid (serial_feed w k) = false) /\
    ((0 < n)%nat /\ uid_match uid (serial_feed w (serial_reads w + n - 1)) = true /\
       b = true /\ current_node w' = dest
     \/
     (n = 0%nat \/ uid_match uid (serial_feed w (serial_reads w + n - 1)) = false) /\
       current_node w' = current_node w /\ b = false).
Proof.
  intros Huid. unfold reverse_until_node.
  destruct (_ || _).
  { exists false, w, 0%nat. rewrite Nat.add_0_r. split; [reflexivity|].
    split; [reflexivity|]. split; [intros; lia|]. right. auto. }
  assert (Huid' : get_expected_uid dest
            (update_trolley_status rid ("reversing_to:" +:+ dest) w) = Some uid) by exact Huid.
  rewrite Huid'.
  set (w0 := send_command CMD_BACKWARD _).
  destruct (reverse_loop_total (loop_fuel navigation_timeout 50) uid dest rid (clock w0) w0)
    as (r & w1 & E).
  { pose proof (loop_fuel_covers navigation_timeout 50).
    unfold navigation_timeout in *. lia. }
  rewrite E. apply reverse_loop_spec in E. cbn in E.
  destruct E as (n & Hn & H). destruct r as [b|].
  - destruct H as (-> & Hpos & Hall & Hlast & Hc & Hcl & Htr).
    exists true, w1, n. repeat split; auto.
  - destruct H as (Hall & Hc & Hto & Hz & Hb).
    eexists false, _, n. split; [reflexivity|]. cbn.
    repeat split; auto.
    + intros k Hk. apply Hall. lia.
    + right. repeat split; auto.
      destruct n; [left; reflexivity | right; apply Hall; lia].
Qed.

(** ** Command de-duplication in the correction loop *)

Lemma correction_sends_keep l s chron :
  starts_with_recv chron ->
  correction_sends (EvRecv l :: EvSensors s :: chron) = correction_sends chron.
Proof. intros [->|(l' & tl & ->)]; reflexivity. Qed.

Lemma never_resent_keep last l s chron :
  starts_with_recv chron ->
  never_resent last (EvRecv l :: EvSensors s :: chron) = never_resent last chron.
Proof. intros [->|(l' & tl & ->)]; reflexivity. Qed.

Lemma required_command_idem st last :
  required_command st last <> last ->
  required_command st (required_command st last) = required_command st last.
Proof. destruct st; cbn; congruence. Qed.

(** The events of the correction loop, oldest first.  [K] of the [I]
    iterations read the sensors; the correction branch sends at most once
    in each of them, never the command sent last, and not at all in an
    iteration whose verdict repeats the one before. *)
Lemma nav_loop_sends fuel uid dest rid start last w r w' :
  nav_loop fuel uid dest rid start last w = Some (r, w') ->
  exists chron,
    trace w' = rev chron ++ trace w /\
    starts_with_recv chron /\
    never_resent last chron /\
    (ir_reads w' - ir_reads w <= serial_reads w' - serial_reads w)%nat /\
    (ir_reads w <= ir_reads w')%nat /\
    (serial_reads w <= serial_reads w')%nat /\
    (correction_sends chron <= ir_reads w' - ir_reads w)%nat /\
    ((ir_reads w' - ir_reads w = serial_reads w' - serial_reads w)%nat ->
     ((ir_reads w < ir_reads w')%nat /\
        required_command (get_state (ir_feed w (ir_reads w))) last = last
      \/ exists i, (ir_reads w <= i)%nat /\ (S i < ir_reads w')%nat /\
                   get_state (ir_feed w i) = get_state (ir_feed w (S i))) ->
     (correction_sends chron < ir_reads w' - ir_reads w)%nat).
Proof.
  revert w last. induction fuel as [|fuel IH]; intros w last;
    rewrite nav_loop_unfold;
    destruct (clock w - start <? navigation_timeout);
    try discriminate;
    try (intros [= <- <-]; exists []; cbn;
         repeat split; auto; try lia; try (left; reflexivity);
         intros _ [[? _]|(i & ? & ? & _)]; lia).
  cbn. destruct (rfid_uid (line_of (serial_feed w (serial_reads w)))) as [received|] eqn:Hr.
  - destruct (String.eqb received uid).
    + intros [= <- <-].
      exists [EvRecv (line_of (serial_feed w (serial_reads w)));
              EvStatus rid ("arrived_at:" +:+ dest)].
      cbn. repeat split; auto; try lia.
      right. eauto.
    + intros H. apply IH in H. cbn in H.
      destruct H as (chron & Htr & Hst & Hnr & HKI & Hi & Hs & HC & Hstrict).
      exists (EvRecv (line_of (serial_feed w (serial_reads w))) :: EvSend CMD_FORWARD :: chron).
      cbn. repeat split; auto; try lia.
      * rewrite Htr, <- !app_assoc. reflexivity.
      * right. eauto.
  - match goal with |- context [line_correction ?st ?l ?w2] =>
      destruct (line_correction_cases st l w2) as [[-> Hreq]|[-> Hreq]] end.
    + intros H. apply IH in H. cbn in H.
      destruct H as (chron & Htr & Hst & Hnr & HKI & Hi & Hs & HC & Hstrict).
      exists (EvRecv (line_of (serial_feed w (serial_reads w)))
                :: EvSensors (ir_feed w (ir_reads w)) :: chron).
      rewrite correction_sends_keep, never_resent_keep by exact Hst.
      repeat split; auto; try lia.
      * rewrite Htr. cbn. rewrite <- !app_assoc. reflexivity.
      * right. eauto.
    + intros H. apply IH in H. cbn in H.
      destruct H as (chron & Htr & Hst & Hnr & HKI & Hi & Hs & HC & Hstrict).
      exists (EvRecv (line_of (serial_feed w (serial_reads w)))
                :: EvSensors (ir_feed w (ir_reads w))
                :: EvSend (required_command (get_state (ir_feed w (ir_reads w))) last)
                :: chron).
      cbn [never_resent correction_sends].
      repeat split; auto; try lia.
      * rewrite Htr. cbn. rewrite <- !app_assoc. reflexivity.
      * right. eauto.
      * intros HKeq Hrep.
        assert (correction_sends chron < ir_reads w' - S (ir_reads w))%nat; [|lia].
        apply Hstrict; [lia|].
        destruct Hrep as [[_ Hsame]|(i & Hle & Hlt & Hsame)]; [congruence|].
        destruct (decide (i = ir_reads w)) as [->|Hne].
        -- left. split; [lia|]. rewrite <- Hsame.
           apply required_command_idem. exact Hreq.
        -- right. exists i. repeat split; auto; lia.
Qed.

(** ** Status reports of a navigation call *)

Lemma navigation_status_not_line_lost dest msg :
  navigation_status dest msg -> startswith msg "error:line_lost" = false.
Proof.
  intros [->|[->|[->|[[c ->]|[from ->]]]]]; reflexivity.
Qed.

Lemma Forall_polled (P : event -> Prop) feed from n :
  (forall s, P (EvSensors s)) -> Forall P (polled feed from n).
Proof.
  intros HP. unfold polled. apply Forall_rev, Forall_map, Forall_forall.
  intros; apply HP.
Qed.

Lemma nav_loop_events fuel uid dest rid start last w r w' :
  nav_loop fuel uid dest rid start last w = Some (r, w') ->
  exists new, trace w' = new ++ trace w /\ Forall (navigation_event rid dest) new.
Proof.
  revert w last. induction fuel as [|fuel IH]; intros w last;
    rewrite nav_loop_unfold;
    destruct (clock w - start <? navigation_timeout);
    try discriminate;
    try (intros [= <- <-]; exists []; split; [reflexivity | constructor]).
  cbn. destruct (rfid_uid _) as [received|].
  - destruct (String.eqb received uid).
    + intros [= <- <-]. eexists [_; _]. split; [reflexivity|].
      constructor; [|constructor; [exact I | constructor]].
      split; [reflexivity|]. unfold navigation_status. auto.
    + intros H. apply IH in H. cbn in H. destruct H as (new & -> & HF).
      exists (new ++ [EvSend CMD_FORWARD; EvRecv (line_of (serial_feed w (serial_reads w)))]).
      split; [rewrite <- app_assoc; reflexivity|].
      apply Forall_app. split; [exact HF | repeat constructor].
  - match goal with |- context [line_correction ?st ?l ?w2] =>
      destruct (line_correction_cases st l w2) as [[-> _]|[-> _]] end;
      intros H; apply IH in H; cbn in H; destruct H as (new & -> & HF).
    + eexists (new ++ [_; _]). split; [rewrite <- app_assoc; reflexivity|].
      apply Forall_app. split; [exact HF | repeat constructor].
    + eexists (new ++ [_; _; _]). split; [rewrite <- app_assoc; reflexivity|].
      apply Forall_app. split; [exact HF | repeat constructor].
Qed.

(** Every status [navigate_to_node] reports is one of the five above, and a
    failed call ends on one of the three failure reports. *)
Lemma navigate_to_node_reports dest rid w :
  exists b w' new,
    navigate_to_node dest rid w = Some (b, w') /\
    trace w' = new ++ trace w /\
    Forall (navigation_event rid dest) new /\
    (b = false -> exists msg tr, new = EvStatus rid msg :: tr /\ failure_status dest msg).
Proof.
  unfold navigate_to_node.
  destruct (String.eqb _ _).
  { exists true, w, []. repeat split; auto; discriminate. }
  set (w0 := update_trolley_status rid ("moving_to:" +:+ dest) w).
  assert (H0 : navigation_event rid dest (EvStatus rid ("moving_to:" +:+ dest))).
  { split; [reflexivity|]. unfold navigation_status. auto. }
  destruct (get_expected_uid dest w0) as [uid|].
  2:{ eexists false, _, [_; _]. split; [reflexivity|]. cbn.
      split; [reflexivity|]. split.
      - constructor; [|constructor; [exact H0 | constructor]].
        split; [reflexivity|]. unfold navigation_status. auto.
      - intros _. eexists _, _. split; [reflexivity|]. left. reflexivity. }
  assert (Hfinish : forall w1 pre,
            trace w1 = pre ++ trace w -> Forall (navigation_event rid dest) pre ->
            exists b w' new,
              navigate_from_start uid dest rid (send_command CMD_FORWARD w1) = Some (b, w') /\
              trace w' = new ++ trace w /\
              Forall (navigation_event rid dest) new /\
              (b = false -> exists msg tr, new = EvStatus rid msg :: tr /\ failure_status dest msg)).
  { intros w1 pre Hpre HF. unfold navigate_from_start.
    destruct (nav_loop_total (loop_fuel navigation_timeout 50) uid dest rid
                (clock (send_command CMD_FORWARD w1)) CMD_FORWARD
                (send_command CMD_FORWARD w1)) as (r & w2 & E).
    { pose proof (loop_fuel_covers navigation_timeout 50).
      unfold navigation_timeout in *. lia. }
    rewrite E. pose proof E as Hsp. apply nav_loop_spec in Hsp.
    apply nav_loop_events in E. destruct E as (new & Hnew & HFnew).
    cbn in Hnew. rewrite Hpre in Hnew.
    assert (HFall : Forall (navigation_event rid dest) (new ++ EvSend CMD_FORWARD :: pre)).
    { apply Forall_app. split; [exact HFnew|]. constructor; [exact I | exact HF]. }
    destruct r as [b|].
    - destruct Hsp as (n & _ & -> & _).
      exists true, w2, (new ++ EvSend CMD_FORWARD :: pre).
      split; [reflexivity|]. split; [rewrite Hnew, <- app_assoc; reflexivity|].
      split; [exact HFall | discriminate].
    - eexists false, _, (_ :: _ :: new ++ EvSend CMD_FORWARD :: pre).
      split; [reflexivity|]. split; [cbn; rewrite Hnew, <- app_assoc; reflexivity|].
      split.
      + constructor; [|constructor; [exact I | exact HFall]].
        split; [reflexivity|]. unfold navigation_status. eauto 7.
      + intros _. eexists _, _. split; [reflexivity|]. right. right. eauto. }
  destruct (_get_turn_for_transition _ _) as [turn|].
  2:{ apply (Hfinish w0 [EvStatus rid ("moving_to:" +:+ dest)]); [reflexivity|].
      constructor; [exact H0 | constructor]. }
  destruct (execute_simple_turn_spec turn rid w0)
    as (b & w1 & n & E & _ & _ & _ & _ & _ & _ & H).
  rewrite E. destruct b.
  - destruct H as (_ & _ & Htr).
    apply (Hfinish w1 (EvSend CMD_STOP :: polled (ir_feed w0) (ir_reads w0) n
                         ++ [EvSend turn; EvStatus rid ("moving_to:" +:+ dest)])).
    + rewrite Htr. cbn. rewrite <- app_assoc. reflexivity.
    + constructor; [exact I|]. apply Forall_app. split.
      * apply Forall_polled. intros; exact I.
      * constructor; [exact I|]. constructor; [exact H0 | constructor].
  - destruct H as (_ & Htr).
    eexists false, w1, (_ :: _ :: polled (ir_feed w0) (ir_reads w0) n
                          ++ [EvSend turn; EvStatus rid ("moving_to:" +:+ dest)]).
    split; [reflexivity|]. split; [rewrite Htr; cbn; rewrite <- app_assoc; reflexivity|].
    split.
    + constructor; [split; [reflexivity|]; unfold navigation_status; eauto 7|].
      constructor; [exact I|]. apply Forall_app. split.
      * apply Forall_polled. intros; exact I.
      * constructor; [exact I|]. constructor; [exact H0 | constructor].
    + intros _. eexists _, _. split; [reflexivity|]. right. left. eauto.
Qed.

(** ** Calls that return and advance the world *)

Lemma get_expected_uid_evolves name w w' :
  evolves w w' -> get_expected_uid name w' = get_expected_uid name w.
Proof. intros H. unfold get_expected_uid. rewrite (ev_products_uid _ _ H). reflexivity. Qed.

Lemma advances_refl w : advances w w.
Proof. split; [apply evolves_refl | left; reflexivity]. Qed.

Lemma advances_trans w1 w2 w3 : advances w1 w2 -> advances w2 w3 -> advances w1 w3.
Proof.
  intros [He1 Hp1] [He2 Hp2]. split; [eapply evolves_trans; eauto|].
  destruct Hp2 as [->|Hp2]; [exact Hp1|].
  right. rewrite <- (get_expected_uid_evolves _ _ _ He1). exact Hp2.
Qed.

(** A step that leaves the position alone. *)
Lemma advances_same_node w w' :
  evolves w w' -> current_node w' = current_node w -> advances w w'.
Proof. intros He Hc. split; [exact He | left; exact Hc]. Qed.

Lemma runs_ret {A : Type} (a : A) : runs (ret a).
Proof. intros w. exists a, w. split; [reflexivity | apply advances_refl]. Qed.

Lemma runs_bind {A B : Type} (m : M A) (k : A -> M B) :
  runs m -> (forall a, runs (k a)) -> runs (bind m k).
Proof.
  intros Hm Hk w. destruct (Hm w) as (a & w1 & E1 & H1).
  destruct (Hk a w1) as (b & w2 & E2 & H2).
  exists b, w2. split; [unfold bind; rewrite E1; exact E2|].
  eapply advances_trans; eauto.
Qed.

(** [exec f] runs when [f] only logs, sleeps or reports. *)
Lemma runs_exec (f : World -> World) :
  (forall w, evolves w (f w) /\ current_node (f w) = current_node w) ->
  runs (exec f).
Proof.
  intros Hf w. exists tt, (f w). split; [reflexivity|].
  destruct (Hf w). apply advances_same_node; assumption.
Qed.

Lemma runs_exec_status rid msg : runs (exec (update_trolley_status rid msg)).
Proof. apply runs_exec. intros w. split; [auto with evo | reflexivity]. Qed.

Lemma runs_exec_send c : runs (exec (send_command c)).
Proof. apply runs_exec. intros w. split; [auto with evo | reflexivity]. Qed.

Lemma runs_exec_sleep ms : 0 <= ms -> runs (exec (sleep ms)).
Proof. intros H. apply runs_exec. intros w. split; [auto with evo | reflexivity]. Qed.

Lemma execute_simple_turn_runs cmd rid : runs (execute_simple_turn cmd rid).
Proof.
  intros w. destruct (execute_simple_turn_spec cmd rid w)
    as (b & w' & n & E & _ & _ & Hc & _).
  exists b, w'. split; [exact E|]. apply advances_same_node; [|exact Hc].
  eapply execute_simple_turn_evolves; [apply evolves_refl | exact E].
Qed.

(** The transitions of [current_node] by [navigate_to_node]: none, or to a
    destination whose UID resolved. *)
Lemma navigate_to_node_runs dest rid : runs (navigate_to_node dest rid).
Proof.
  intros w. destruct (navigate_to_node_reports dest rid w) as (b & w' & new & E & _).
  exists b, w'. split; [exact E|].
  split; [eapply navigate_to_node_evolves; [apply evolves_refl | exact E]|].
  destruct (get_expected_uid dest w) as [uid|] eqn:Huid.
  - destruct (navigate_to_node_position dest rid w uid Huid)
      as (b' & w'' & n & E' & _ & _ & H).
    rewrite E in E'. injection E' as <- <-.
    destruct H as [(_ & _ & _ & -> & _)|(_ & Hc & _)]; [right | left; exact Hc].
    rewrite Huid. eauto.
  - left. revert E. unfold navigate_to_node.
    destruct (String.eqb _ _); [intros [= <- <-]; reflexivity|].
    change (get_expected_uid dest (update_trolley_status rid ("moving_to:" +:+ dest) w))
      with (get_expected_uid dest w).
    rewrite Huid. intros [= <- <-]. reflexivity.
Qed.

Lemma reverse_until_node_runs dest rid : runs (reverse_until_node dest rid).
Proof.
  intros w.
  destruct (get_expected_uid dest w) as [uid|] eqn:Huid.
  - destruct (reverse_until_node_position dest rid w uid Huid)
      as (b & w' & n & E & _ & _ & H).
    exists b, w'. split; [exact E|].
    split; [eapply reverse_until_node_evolves; [apply evolves_refl | exact E]|].
    destruct H as [(_ & _ & _ & ->)|(_ & Hc & _)]; [right | left; exact Hc].
    rewrite Huid. eauto.
  - unfold reverse_until_node. destruct (_ || _).
    + exists false, w. split; [reflexivity | apply advances_refl].
    + change (get_expected_uid dest (update_trolley_status rid ("reversing_to:" +:+ dest) w))
        with (get_expected_uid dest w).
      rewrite Huid. eexists false, _. split; [reflexivity|].
      apply advances_same_node; [auto with evo | reflexivity].
Qed.

(** *** Waiting for a confirmation flag *)

Lemma wait_loop_unfold fuel path timeout start w :
  wait_loop fuel path timeout start w =
  if clock w - start <? timeout then
    match fuel with
    | O => None
    | S fuel' =>
        let (v, w1) := poll_flag path w in
        if v then Some (Some true, w1)
        else wait_loop fuel' path timeout start (sleep 500 w1)
    end
  else Some (None, w).
Proof. destruct fuel; reflexivity. Qed.

Lemma wait_loop_runs fuel path timeout start w0 w :
  timeout - (clock w - start) <= 500 * Z.of_nat fuel ->
  evolves w0 w ->
  exists r w', wait_loop fuel path timeout start w = Some (r, w') /\
               evolves w0 w' /\ current_node w' = current_node w.
Proof.
  revert w. induction fuel as [|fuel IH]; intros w Hfuel Hw;
    rewrite wait_loop_unfold;
    destruct (Z.ltb_spec (clock w - start) timeout); eauto; try lia.
  pose proof (evolves_poll_flag _ path _ Hw) as H1. cbn in *.
  destruct (flag_feed w path (flag_polls w)); [eauto|].
  destruct (IH (sleep 500 (set_flag_polls (S (flag_polls w)) w)))
    as (r & w' & E & He & Hc); [cbn; lia | auto with evo |].
  exists r, w'. auto.
Qed.

Lemma _wait_for_flag_runs path timeout : 0 <= timeout -> runs (_wait_for_flag path timeout).
Proof.
  intros Ht w. unfold _wait_for_flag.
  destruct (wait_loop_runs (loop_fuel timeout 500) path timeout (clock w) w w)
    as (r & w' & E & He & Hc).
  { pose proof (loop_fuel_covers timeout 500). lia. }
  { apply evolves_refl. }
  rewrite E. destruct r as [b|]; eexists _, w'; (split; [reflexivity|]);
    apply advances_same_node; assumption.
Qed.

Lemma wait_for_confirmation_runs rid : runs (wait_for_confirmation rid).
Proof. apply _wait_for_flag_runs. lia. Qed.

Lemma wait_for_home_confirmation_runs rid : runs (wait_for_home_confirmation rid).
Proof. apply _wait_for_flag_runs. lia. Qed.

(** *** The itinerary *)

(** A computation that first looks at the world. *)
Lemma runs_in_world {A : Type} (m : World -> M A) :
  (forall w0, runs (m w0)) -> runs (fun w => m w w).
Proof. intros H w. apply H. Qed.

Lemma runs_if {A : Type} (c : bool) (m1 m2 : M A) :
  runs m1 -> runs m2 -> runs (if c then m1 else m2).
Proof. destruct c; auto. Qed.

(** A branch on the world the computation starts in. *)
Lemma runs_if_world {A : Type} (c : World -> bool) (m1 m2 : M A) :
  runs m1 -> runs m2 -> runs (fun w => if c w then m1 w else m2 w).
Proof. intros H1 H2 w. destruct (c w); auto. Qed.

Lemma _move_trolley_to_home_runs rid : runs (_move_trolley_to_home rid).
Proof.
  intros w. unfold _move_trolley_to_home.
  set (w0 := update_trolley_status rid "moving_to:home" w).
  assert (H0 : advances w w0).
  { apply advances_same_node; [unfold w0; auto with evo | reflexivity]. }
  assert (Hlift : forall (m : M unit), runs m ->
            exists a w', m w0 = Some (a, w') /\ advances w w').
  { intros m Hm. destruct (Hm w0) as (a & w' & E & Ha).
    exists a, w'. split; [exact E | eapply advances_trans; eauto]. }
  destruct (String.eqb _ _).
  { apply (Hlift (exec (update_trolley_status rid "arrived_at:home"))).
    apply runs_exec_status. }
  apply Hlift. apply runs_bind.
  { destruct (_ || _); [|apply runs_ret].
    destruct (str_last _); [|apply runs_ret].
    destruct (startswith _ "RBJ"); [apply reverse_until_node_runs|].
    destruct (startswith _ "pdt"); [apply navigate_to_node_runs | apply runs_ret]. }
  intros path_ok. apply runs_bind.
  { apply (runs_if_world (fun w1 => path_ok && startswith (get_current_node w1) "RFJ"));
      [apply execute_simple_turn_runs | apply runs_ret]. }
  intros path_ok2. apply runs_bind.
  { destruct path_ok2; [|apply (runs_ret false)].
    apply (runs_if_world (fun w1 => negb (String.eqb (get_current_node w1) "home")));
      [apply navigate_to_node_runs | apply runs_ret]. }
  intros path_ok3.
  apply (runs_if_world (fun w1 => path_ok3 && String.eqb (get_current_node w1) "home")
           (exec (update_trolley_status rid "arrived_at:home")) (ret tt));
    [apply runs_exec_status | apply runs_ret].
Qed.

Lemma visit_products_runs rid l : runs (visit_products rid l).
Proof.
  induction l as [|product_id rest IH]; [apply runs_ret|].
  cbn [visit_products].
  apply (runs_in_world (fun w0 =>
    exec (update_trolley_status rid ("moving_to_product:" +:+ product_id)) ;;
    let* ok := navigate_to_node product_id rid in
    if negb ok then ret false else
    exec (update_trolley_status rid
            ("waiting_for_item:" +:+ product_id +:+ ":" +:+ get_product_name product_id w0)) ;;
    let* ok := wait_for_confirmation rid in
    if negb ok then
      exec (update_trolley_status rid ("error:item_confirmation_failed:" +:+ product_id)) ;;
      exec (send_command CMD_STOP) ;;
      ret false
    else
      exec (update_trolley_status rid ("item_added:" +:+ product_id)) ;;
      visit_products rid rest)).
  intros w0.
  apply runs_bind; [apply runs_exec_status|]. intros _.
  apply runs_bind; [apply navigate_to_node_runs|]. intros ok.
  apply runs_if; [apply runs_ret|].
  apply runs_bind; [apply runs_exec_status|]. intros _.
  apply runs_bind; [apply wait_for_confirmation_runs|]. intros ok2.
  apply runs_if.
  - apply runs_bind; [apply runs_exec_status|]. intros _.
    apply runs_bind; [apply runs_exec_send|]. intros _. apply runs_ret.
  - apply runs_bind; [apply runs_exec_status|]. intros _. exact IH.
Qed.

Lemma _process_row_runs rid product_list row_number is_last_row :
  runs (_process_row rid product_list row_number is_last_row).
Proof.
  unfold _process_row.
  apply runs_bind; [apply runs_exec_status|]. intros _.
  apply runs_bind; [apply navigate_to_node_runs|]. intros ok.
  apply runs_if; [apply runs_ret|].
  apply runs_bind; [apply runs_exec_send|]. intros _.
  apply runs_bind; [apply runs_exec_sleep; lia|]. intros _.
  apply runs_bind; [apply runs_exec_send|]. intros _.
  apply runs_bind; [apply runs_exec_sleep; lia|]. intros _.
  apply runs_bind; [apply execute_simple_turn_runs|]. intros ok2.
  apply runs_if; [apply runs_ret|].
  apply runs_bind; [apply visit_products_runs|]. intros ok3.
  apply runs_if; [apply runs_ret|].
  apply runs_bind; [apply navigate_to_node_runs|]. intros ok4.
  apply runs_if; [apply runs_ret|].
  apply runs_if; [|apply runs_ret].
  apply runs_bind; [apply execute_simple_turn_runs|]. intros ok5.
  apply runs_if; apply runs_ret.
Qed.

Lemma process_rows_runs rid p row_nums navigation_ok :
  runs (process_rows rid p row_nums navigation_ok).
Proof.
  revert navigation_ok. induction row_nums as [|row_num rest IH]; intros navigation_ok;
    [apply runs_ret|].
  cbn [process_rows]. destruct (rows_get row_num (products_by_row p)); [apply IH|].
  apply runs_bind; [apply _process_row_runs|]. intros ok.
  apply runs_if; [apply runs_ret | apply IH].
Qed.

(** *** Requests *)

(** [process_shopping_list] always returns; it persists the merged cart and
    leaves the processing flags alone. *)
Lemma process_shopping_list_spec rid items w :
  exists w',
    process_shopping_list rid items w = Some (tt, w') /\
    fb_carts w' = <[rid := merge_cart items (get_cart rid w)]> (fb_carts w) /\
    fb_processing w' = fb_processing w /\
    fb_products_uid w' = fb_products_uid w /\
    (current_node w' = current_node w
     \/ is_Some (get_expected_uid (current_node w') w)) /\
    exists new, trace w' = new ++ trace w.
Proof.
  unfold process_shopping_list, bind at 1, exec at 1.
  set (w1 := update_trolley_status rid "processing_list" w).
  change (get_cart rid w1) with (get_cart rid w).
  set (final_cart := merge_cart items (get_cart rid w)).
  set (p := partition_cart final_cart).
  unfold bind at 1, exec at 1.
  set (w2 := set_cart rid final_cart w1).
  match goal with |- exists w', ?rest w2 = _ /\ _ =>
    assert (Hrest : runs rest) end.
  { destruct (valid_products_in_cart p).
    - apply runs_bind; [apply runs_exec_status|]. intros _.
      apply _move_trolley_to_home_runs.
    - apply runs_bind; [apply process_rows_runs|]. intros ok.
      apply runs_if; [|apply runs_ret].
      apply runs_bind; [apply runs_exec_status|]. intros _.
      apply runs_bind; [apply wait_for_home_confirmation_runs|]. intros confirmed.
      apply runs_if.
      + apply runs_bind; [apply runs_exec_status|]. intros _. apply runs_exec_send.
      + apply runs_bind; [apply runs_exec_status|]. intros _.
        apply _move_trolley_to_home_runs. }
  destruct (Hrest w2) as ([] & w' & E & He & Hp).
  exists w'. split; [exact E|].
  rewrite (ev_carts _ _ He), (ev_processing _ _ He), (ev_products_uid _ _ He).
  repeat split; auto.
  destruct (ev_trace _ _ He) as [new Hnew]. rewrite Hnew. cbn.
  exists (new ++ [EvStatus rid "processing_list"]). rewrite <- app_assoc. reflexivity.
Qed.

(** [process_request] always returns or raises; either way the processing
    flags are as before. *)
Lemma process_request_spec rid data w :
  exists o w',
    process_request rid data w = Some (o, w') /\
    fb_processing w' = fb_processing w /\
    fb_products_uid w' = fb_products_uid w /\
    (current_node w' = current_node w
     \/ is_Some (get_expected_uid (current_node w') w)) /\
    exists new, trace w' = new ++ trace w.
Proof.
  assert (Hruns : forall (m : M outcome), runs m ->
            exists o w',
              m w = Some (o, w') /\
              fb_processing w' = fb_processing w /\
              fb_products_uid w' = fb_products_uid w /\
              (current_node w' = current_node w
               \/ is_Some (get_expected_uid (current_node w') w)) /\
              exists new, trace w' = new ++ trace w).
  { intros m Hm. destruct (Hm w) as (o & w' & E & He & Hp).
    exists o, w'. split; [exact E|].
    rewrite (ev_processing _ _ He), (ev_products_uid _ _ He).
    repeat split; auto. exact (ev_trace _ _ He). }
  assert (Hhome : runs (_move_trolley_to_home rid ;; ret (Raised "NameError"))).
  { apply runs_bind; [apply _move_trolley_to_home_runs | intros; apply runs_ret]. }
  assert (Hbad : runs (exec (update_trolley_status rid "error:invalid_request_format") ;;
                       ret Normal)).
  { apply runs_bind; [apply runs_exec_status | intros; apply runs_ret]. }
  assert (Hlist : forall items,
            exists o w',
              (process_shopping_list rid items ;; ret Normal) w = Some (o, w') /\
              fb_processing w' = fb_processing w /\
              fb_products_uid w' = fb_products_uid w /\
              (current_node w' = current_node w
               \/ is_Some (get_expected_uid (current_node w') w)) /\
              exists new, trace w' = new ++ trace w).
  { intros items.
    destruct (process_shopping_list_spec rid items w) as (w' & E & _ & H).
    exists Normal, w'. split; [unfold bind; rewrite E; reflexivity | exact H]. }
  destruct data as [action cart|]; [|apply (Hruns (ret (Raised "AttributeError"))), runs_ret].
  unfold process_request.
  repeat match goal with
         | |- context [match ?x with _ => _ end] => destruct x
         end;
    first [apply Hruns; first [exact Hhome | exact Hbad] | apply Hlist].
Qed.

(** ** The cart merge *)

Lemma reserved_key_test pid :
  String.eqb pid "processed" || String.eqb pid "action" = true <-> reserved_key pid.
Proof.
  unfold reserved_key. rewrite orb_true_iff, !String.eqb_eq. reflexivity.
Qed.

(** The merge loop, one product at a time. *)
Lemma merge_items_lookup delta cart pid :
  merge_items delta cart !! pid =
  match delta !! pid with
  | Some v =>
      if String.eqb pid "processed" || String.eqb pid "action" then cart !! pid
      else match py_int v with
           | Some n => Some (default 0 (cart !! pid) + n)
           | None => cart !! pid
           end
  | None => cart !! pid
  end.
Proof.
  unfold merge_items. revert pid.
  apply (map_fold_weak_ind (fun r m => forall pid,
    r !! pid =
    match m !! pid with
    | Some v =>
        if String.eqb pid "processed" || String.eqb pid "action" then cart !! pid
        else match py_int v with
             | Some n => Some (default 0 (cart !! pid) + n)
             | None => cart !! pid
             end
    | None => cart !! pid
    end)).
  - intros pid. rewrite lookup_empty. reflexivity.
  - intros i x m r Hi IH pid. unfold merge_item.
    destruct (decide (pid = i)) as [->|Hne].
    + rewrite lookup_insert_eq. pose proof (IH i) as IHi. rewrite Hi in IHi.
      destruct (_ || _); [exact IHi|].
      destruct (py_int x); [|exact IHi].
      rewrite lookup_insert_eq, IHi. reflexivity.
    + rewrite lookup_insert_ne by congruence.
      destruct (_ || _); [apply IH|].
      destruct (py_int x); [|apply IH].
      rewrite lookup_insert_ne by congruence. apply IH.
Qed.

Lemma positive_entries_lookup cart pid :
  positive_entries cart !! pid =
  match cart !! pid with
  | Some q => if 0 <? q then Some q else None
  | None => None
  end.
Proof.
  unfold positive_entries. rewrite map_lookup_filter.
  destruct (cart !! pid) as [q|]; [|reflexivity]. cbn.
  destruct (Z.ltb_spec 0 q).
  - rewrite option_guard_True by assumption. reflexivity.
  - rewrite option_guard_False by lia. reflexivity.
Qed.

Lemma merge_cart_positive delta cart : positive_cart (merge_cart delta cart).
Proof.
  intros pid q. unfold merge_cart. rewrite positive_entries_lookup.
  destruct (_ !! pid) as [q'|]; [|discriminate].
  destruct (Z.ltb_spec 0 q'); [congruence | discriminate].
Qed.

Lemma persisted_cart_positive cart : persisted_cart cart -> positive_cart cart.
Proof.
  intros [|delta c _]; [|apply merge_cart_positive].
  intros pid q. rewrite lookup_empty. discriminate.
Qed.

Lemma positive_entries_id cart : positive_cart cart -> positive_entries cart = cart.
Proof.
  intros Hp. apply map_eq. intros pid. rewrite positive_entries_lookup.
  destruct (cart !! pid) as [q|] eqn:E; [|reflexivity].
  apply Hp in E. destruct (Z.ltb_spec 0 q); [reflexivity | lia].
Qed.

Lemma merge_cart_empty cart : positive_cart cart -> merge_cart ∅ cart = cart.
Proof.
  intros Hp. unfold merge_cart, merge_items. rewrite map_fold_empty.
  apply positive_entries_id. exact Hp.
Qed.

(** The final cart, one product at a time, for a product the merge adds to. *)
Lemma merge_cart_added delta cart pid v n :
  delta !! pid = Some v -> ~ reserved_key pid -> py_int v = Some n ->
  merge_cart delta cart !! pid =
  if 0 <? default 0 (cart !! pid) + n then Some (default 0 (cart !! pid) + n) else None.
Proof.
  intros Hd Hr Hn. unfold merge_cart.
  rewrite positive_entries_lookup, merge_items_lookup, Hd.
  destruct (_ || _) eqn:E; [apply reserved_key_test in E; contradiction|].
  rewrite Hn. reflexivity.
Qed.

(** A product the delta does not mention. *)
Lemma merge_cart_other delta cart pid :
  delta !! pid = None -> merge_cart delta cart !! pid = positive_entries cart !! pid.
Proof.
  intros Hd. unfold merge_cart.
  rewrite !positive_entries_lookup, merge_items_lookup, Hd. reflexivity.
Qed.

(** The filter runs over the whole cart: an entry that is not positive is
    dropped even when the delta is empty.  No cart the controller stores
    has such an entry. *)
Remark stale_entry_is_dropped : merge_cart ∅ {[ "pdt1" := 0 ]} = ∅.
Proof. vm_compute. reflexivity. Qed.

(** The merge loop skips reserved keys and quantities [int()] rejects. *)
Lemma merge_items_skipped delta cart pid v :
  delta !! pid = Some v -> reserved_key pid \/ py_int v = None ->
  merge_items delta cart !! pid = cart !! pid.
Proof.
  intros Hd Hs. rewrite merge_items_lookup, Hd.
  destruct (_ || _) eqn:E; [reflexivity|].
  destruct Hs as [Hr | ->]; [|reflexivity].
  apply reserved_key_test in Hr. congruence.
Qed.

Lemma get_cart_set_cart rid cart w : get_cart rid (set_cart rid cart w) = cart.
Proof. unfold get_cart, set_cart. cbn. rewrite lookup_insert_eq. reflexivity. Qed.

(** ** Quantities that are strings *)

Lemma is_space_ascii a : is_space a = true -> (nat_of_ascii a <? 128)%nat = true.
Proof.
  unfold is_space. intros H. apply Nat.ltb_lt.
  apply orb_true_iff in H as [H|H].
  - apply andb_true_iff in H as [_ H]. apply Nat.leb_le in H. lia.
  - apply Nat.eqb_eq in H. lia.
Qed.

Lemma digit_of_ascii a d : digit_of a = Some d -> (nat_of_ascii a <? 128)%nat = true.
Proof.
  unfold digit_of. destruct (_ && _) eqn:H; [|discriminate]. intros _.
  apply andb_true_iff in H as [_ H]. apply Nat.leb_le in H. apply Nat.ltb_lt. lia.
Qed.

Lemma is_ascii_text_lstrip s : is_ascii_text (lstrip s) = is_ascii_text s.
Proof.
  induction s as [|a s IH]; [reflexivity|]. cbn [lstrip].
  destruct (is_space a) eqn:Ha; [|reflexivity].
  cbn [is_ascii_text]. rewrite (is_space_ascii a Ha). exact IH.
Qed.

Lemma is_ascii_text_rstrip s : is_ascii_text (rstrip s) = is_ascii_text s.
Proof.
  induction s as [|a s IH]; [reflexivity|]. cbn [rstrip].
  destruct (rstrip s) as [|b r] eqn:Hr.
  - cbn [is_ascii_text] in *. rewrite <- IH, andb_true_r.
    destruct (is_space a) eqn:Ha; [|cbn; apply andb_true_r].
    rewrite (is_space_ascii a Ha). reflexivity.
  - cbn [is_ascii_text] in *. rewrite IH. reflexivity.
Qed.

Lemma int_digits_ascii s : forall acc after_digit n,
  int_digits s acc after_digit = Some n -> is_ascii_text s = true.
Proof.
  induction s as [|a s IH]; intros acc after_digit n; [reflexivity|].
  cbn [int_digits is_ascii_text]. destruct (digit_of a) as [d|] eqn:Hd.
  - intros H. rewrite (digit_of_ascii a d Hd). exact (IH _ _ _ H).
  - destruct (Ascii.eqb a "_" && after_digit) eqn:Hu; [|discriminate].
    apply andb_true_iff in Hu as [Hu _]. apply Ascii.eqb_eq in Hu. subst a.
    intros H. exact (IH _ _ _ H).
Qed.

Lemma int_literal_ascii r n : int_literal r = Some n -> is_ascii_text r = true.
Proof.
  unfold int_literal. destruct (_ <=? _); [apply int_digits_ascii | discriminate].
Qed.

(** The model converts ASCII text only. *)
Lemma int_of_str_ascii s n : int_of_str s = Some n -> is_ascii_text s = true.
Proof.
  unfold int_of_str. rewrite <- (is_ascii_text_lstrip s), <- (is_ascii_text_rstrip (lstrip s)).
  destruct (rstrip (lstrip s)) as [|a r]; [reflexivity|].
  destruct a as [[|] [|] [|] [|] [|] [|] [|] [|]];
    try (intros H; exact (int_literal_ascii _ _ H)).
  destruct (int_literal r) as [m|] eqn:Hm; [|discriminate].
  intros _. exact (int_literal_ascii _ _ Hm).
Qed.

Lemma py_int_ascii v n : py_int v = Some n -> ascii_quantity v.
Proof. destruct v; cbn; try exact (fun _ => I). apply int_of_str_ascii. Qed.

Lemma foreign_char_not_space a : foreign_char a = true -> is_space a = false.
Proof.
  unfold foreign_char. destruct (is_space a); [|reflexivity].
  rewrite andb_false_r. cbn. discriminate.
Qed.

Lemma has_foreign_char_lstrip s : has_foreign_char (lstrip s) = has_foreign_char s.
Proof.
  induction s as [|a s IH]; [reflexivity|]. cbn [lstrip].
  destruct (is_space a) eqn:Ha; [|reflexivity].
  cbn [has_foreign_char]. rewrite IH.
  destruct (foreign_char a) eqn:Hf; [|reflexivity].
  apply foreign_char_not_space in Hf. congruence.
Qed.

Lemma has_foreign_char_rstrip s : has_foreign_char (rstrip s) = has_foreign_char s.
Proof.
  induction s as [|a s IH]; [reflexivity|]. cbn [rstrip].
  destruct (rstrip s) as [|b r] eqn:Hr.
  - cbn [has_foreign_char] in *. rewrite <- IH, orb_false_r.
    destruct (is_space a) eqn:Ha; [|cbn; apply orb_false_r].
    destruct (foreign_char a) eqn:Hf; [|reflexivity].
    apply foreign_char_not_space in Hf. congruence.
  - cbn [has_foreign_char] in *. rewrite IH. reflexivity.
Qed.

Lemma int_digits_foreign s : forall acc after_digit,
  has_foreign_char s = true -> int_digits s acc after_digit = None.
Proof.
  induction s as [|a s IH]; intros acc after_digit; [discriminate|].
  cbn [int_digits has_foreign_char]. intros H.
  destruct (foreign_char a) eqn:Hf.
  - unfold foreign_char in Hf.
    destruct (digit_of a); [rewrite !andb_false_r in Hf; discriminate|].
    destruct (Ascii.eqb a "_"); [rewrite !andb_false_r in Hf; discriminate|].
    reflexivity.
  - cbn in H. destruct (digit_of a); [apply IH, H|].
    destruct (_ && _); [apply IH, H | reflexivity].
Qed.

Lemma int_literal_foreign r : has_foreign_char r = true -> int_literal r = None.
Proof.
  intros H. unfold int_literal. rewrite (int_digits_foreign r 0 false H).
  destruct (_ <=? _); reflexivity.
Qed.

Lemma int_of_str_foreign s : has_foreign_char s = true -> int_of_str s = None.
Proof.
  unfold int_of_str.
  rewrite <- (has_foreign_char_lstrip s), <- (has_foreign_char_rstrip (lstrip s)).
  destruct (rstrip (lstrip s)) as [|a r]; [discriminate|].
  destruct a as [[|] [|] [|] [|] [|] [|] [|] [|]];
    try (intros H; exact (int_literal_foreign _ H));
    intros H; rewrite (int_literal_foreign r H); reflexivity.
Qed.

(** What [unconvertible] names, the model of [int()] rejects. *)
Lemma unconvertible_py_int v : unconvertible v -> py_int v = None.
Proof.
  intros [[_ H]|H]; [exact H|].
  destruct v; try contradiction. apply int_of_str_foreign, H.
Qed.

(** * Main results *)

(** ** C1: the position moves only on a UID match *)



(** ** C2: the classifier and the Lost state *)

(** The classifier does not report Lost on the all-light reading nor on the
    unlisted pattern (0, 1, 0). *)
Lemma all_light_is_not_lost :
  get_state (1, 1, 1) <> LINE_LOST /\ get_state (0, 1, 0) <> LINE_LOST.
Proof. split; discriminate. Qed.

(** C2, as amended.  [get_state] never returns [LINE_LOST]: both Lost
    branches are commented out, so the all-light reading (1, 1, 1) and the
    unlisted pattern (0, 1, 0) reach the default and are classified
    Centered. *)
Theorem classifier_never_reports_lost :
  (forall s, get_state s <> LINE_LOST)
  /\ get_state (1, 1, 1) = LINE_CENTERED
  /\ get_state (0, 1, 0) = LINE_CENTERED.
Proof.
  split; [|split; reflexivity].
  intros [[l c] r]. unfold get_state.
  destruct (truthy l), (truthy c), (truthy r); discriminate.
Qed.

(** ** C3: what ends a turn *)



(** ** C4: a Lost verdict in the correction loop *)

(** On a Lost verdict the correction step of [navigate_to_node] sends nothing
    and reports nothing; and with the all-light reading at every poll, the
    reading the design names Lost, a navigation runs its full 60 s, sends
    its first stop at the timeout and reports [error:nav_timeout]. *)
Lemma lost_verdict_is_ignored :
  line_correction LINE_LOST CMD_FORWARD
      (world_at "home" (steady (1, 1, 1)) silent demo_uids)
    = (CMD_FORWARD, world_at "home" (steady (1, 1, 1)) silent demo_uids)
  /\ exists w',
       navigate_to_node "RFJ1" "req"
         (world_at "home" (steady (1, 1, 1)) silent demo_uids) = Some (false, w')
       /\ clock w' = 60000
       /\ sent (trace w') = [CMD_STOP; CMD_FORWARD]
       /\ fb_status w' !! "req" = Some "error:nav_timeout:home->RFJ1".
Proof.
  split; [reflexivity|].
  eexists. split; [vm_compute; reflexivity|].
  split; [reflexivity|]. split; vm_compute; reflexivity.
Qed.

(** C4, as amended.  The classifier never reports Lost and
    [navigate_to_node] has no line-lost exit: on a Lost verdict the
    correction step keeps the last command and sends nothing.  A navigation
    call always returns; every status it reports is one of [moving_to],
    [arrived_at], [error:no_uid], [error:turn_timeout] and
    [error:nav_timeout], none of which is [error:line_lost]; and a call that
    fails ends on one of the three error reports. *)
Theorem navigation_has_no_line_lost_exit (dest rid : string) (w : World) :
  (forall s, get_state s <> LINE_LOST)
  /\ (forall last w0, line_correction LINE_LOST last w0 = (last, w0))
  /\ exists b w' new,
       navigate_to_node dest rid w = Some (b, w') /\
       trace w' = new ++ trace w /\
       (forall r msg, In (EvStatus r msg) new ->
          r = rid /\ navigation_status dest msg
          /\ startswith msg "error:line_lost" = false) /\
       (b = false ->
          exists msg tr, new = EvStatus rid msg :: tr /\ failure_status dest msg).
Proof.
  split; [exact get_state_not_lost|]. split.
  - intros last w0. unfold line_correction, send_if_changed, command_eqb. cbn.
    rewrite bool_decide_eq_true_2 by reflexivity. reflexivity.
  - destruct (navigate_to_node_reports dest rid w) as (b & w' & new & E & Htr & HF & Hfail).
    exists b, w', new. split; [exact E|]. split; [exact Htr|]. split; [|exact Hfail].
    intros r msg Hin. rewrite Forall_forall in HF.
    apply list_elem_of_In, HF in Hin. destruct Hin as [Hr Hs].
    split; [exact Hr|]. split; [exact Hs|].
    apply navigation_status_not_line_lost with dest. exact Hs.
Qed.

(** ** C5: timeouts *)




(** ** C7: command de-duplication *)

(** C7.  After [navigate_to_node] has sent the forward command and started
    its clock, the correction loop runs some iterations, one [receive_line]
    each.  A command sent by the line-correction branch never equals the
    command sent last before it, so that branch sends at most once per
    iteration; and whenever two consecutive sensor readings of the loop are
    classified alike, the line-correction branch has sent strictly fewer
    commands than the loop made iterations.  [chron] is what the loop added
    to the trace, oldest event first. *)
Theorem corrections_are_not_resent (uid dest rid : string) (w : World) :
  exists b w' chron,
    navigate_from_start uid dest rid (send_command CMD_FORWARD w) = Some (b, w') /\
    trace w' =
      (if b then []
       else [EvStatus rid ("error:nav_timeout:" +:+ current_node w' +:+ "->" +:+ dest);
             EvSend CMD_STOP])
      ++ rev chron ++ EvSend CMD_FORWARD :: trace w /\
    never_resent CMD_FORWARD chron /\
    (correction_sends chron <= serial_reads w' - serial_reads w)%nat /\
    ((exists i, (ir_reads w <= i)%nat /\ (S i < ir_reads w')%nat /\
                get_state (ir_feed w i) = get_state (ir_feed w (S i))) ->
     (correction_sends chron < serial_reads w' - serial_reads w)%nat).
Proof.
  unfold navigate_from_start. set (w0 := send_command CMD_FORWARD w).
  destruct (nav_loop_total (loop_fuel navigation_timeout 50) uid dest rid (clock w0)
              CMD_FORWARD w0) as (r & w1 & E).
  { pose proof (loop_fuel_covers navigation_timeout 50).
    unfold navigation_timeout in *. lia. }
  rewrite E. pose proof (nav_loop_spec _ _ _ _ _ _ _ _ _ E) as (n & _ & Hsp).
  apply nav_loop_sends in E.
  change (ir_reads w0) with (ir_reads w) in E.
  change (serial_reads w0) with (serial_reads w) in E.
  change (ir_feed w0) with (ir_feed w) in E.
  change (trace w0) with (EvSend CMD_FORWARD :: trace w) in E.
  destruct E as (chron & Htr & _ & Hnr & HKI & Hi & Hs & HC & Hstrict).
  assert (Hlt : (exists i, (ir_reads w <= i)%nat /\ (S i < ir_reads w1)%nat /\
                   get_state (ir_feed w i) = get_state (ir_feed w (S i))) ->
                (correction_sends chron < serial_reads w1 - serial_reads w)%nat).
  { intros Hrep.
    destruct (decide (ir_reads w1 - ir_reads w = serial_reads w1 - serial_reads w)%nat)
      as [Heq|Hneq]; [|lia].
    rewrite <- Heq. apply Hstrict; [exact Heq | right; exact Hrep]. }
  destruct r as [b|].
  - destruct Hsp as (-> & _). exists true, w1, chron.
    repeat split; auto. lia.
  - eexists false, _, chron. split; [reflexivity|]. cbn.
    repeat split; auto; try lia. rewrite Htr. reflexivity.
Qed.

(** An instance: the reading (1, 0, 0) twice, then the destination's tag.
    The loop makes three iterations and the correction branch sends once. *)
Lemma corrections_are_not_resent_witness :
  exists b w' chron,
    navigate_from_start "ab12" "RFJ1" "req"
      (send_command CMD_FORWARD
         (world_at "home" (steady (1, 0, 0))
            (fun k => if (2 <=? k)%nat then Some "RFID:AB12" else None) demo_uids))
      = Some (b, w')
    /\ serial_reads w' = 3%nat
    /\ (correction_sends chron < 3)%nat.
Proof.
  destruct (corrections_are_not_resent "ab12" "RFJ1" "req"
              (world_at "home" (steady (1, 0, 0))
                 (fun k => if (2 <=? k)%nat then Some "RFID:AB12" else None) demo_uids))
    as (b & w' & chron & E & _ & _ & _ & Hlt).
  pose proof E as E'. vm_compute in E'. injection E' as <- <-.
  exists true. eexists. exists chron. split; [exact E|]. split; [reflexivity|].
  apply Hlt. exists 0%nat. repeat split; cbn; lia.
Defined.

(** ** C6: the cart merge is additive and drops what is not positive *)

(** C6.  [process_shopping_list] always returns and persists the merge of
    the delta into the cart it found.  For every persisted cart, merging an
    empty delta leaves the cart unchanged; merging [{A: 2}] and then
    [{A: 3}], for a product id [A], adds 5 to the quantity of [A], which
    yields 5 where the cart had no [A] and turns the empty cart into
    [{A: 5}]; in general a product whose delta quantity converts to [n] ends
    with its old quantity plus [n], or absent when that sum is not strictly
    positive; and every quantity of a merged cart is strictly positive.  A
    quantity given as a string converts only when it is ASCII text: optional
    white space around an optional sign and at most 4300 decimal digits, with
    single underscores between digits; there [int()] is modelled exactly. *)
Theorem cart_merge_is_additive (rid : string) (w : World)
    (cart : gmap string Z) (delta : gmap string pyval)
    (A : string) (v : pyval) (n : Z) :
  persisted_cart cart ->
  ~ reserved_key A ->
  delta !! A = Some v -> py_int v = Some n ->
  (exists w', process_shopping_list rid delta w = Some (tt, w')
              /\ get_cart rid w' = merge_cart delta (get_cart rid w))
  /\ merge_cart ∅ cart = cart
  /\ merge_cart {[ A := PyInt 3 ]} (merge_cart {[ A := PyInt 2 ]} cart) !! A
       = Some (default 0 (cart !! A) + 5)
  /\ (cart !! A = None ->
      merge_cart {[ A := PyInt 3 ]} (merge_cart {[ A := PyInt 2 ]} cart) !! A = Some 5)
  /\ merge_cart {[ A := PyInt 3 ]} (merge_cart {[ A := PyInt 2 ]} ∅) = {[ A := 5 ]}
  /\ merge_cart delta cart !! A
       = (if 0 <? default 0 (cart !! A) + n then Some (default 0 (cart !! A) + n)
          else None)
  /\ positive_cart (merge_cart delta cart)
  /\ ascii_quantity v.
Proof.
  intros Hp HA Hd Hn.
  assert (Hpos := persisted_cart_positive cart Hp).
  assert (H0 : 0 <= default 0 (cart !! A)).
  { destruct (cart !! A) as [q|] eqn:E; cbn; [apply Hpos in E; lia | lia]. }
  assert (Htwice : merge_cart {[ A := PyInt 3 ]} (merge_cart {[ A := PyInt 2 ]} cart) !! A
                   = Some (default 0 (cart !! A) + 5)).
  { rewrite (merge_cart_added _ _ A (PyInt 3) 3), (merge_cart_added _ _ A (PyInt 2) 2);
      try assumption; try reflexivity; try apply lookup_singleton_eq.
    destruct (Z.ltb_spec 0 (default 0 (cart !! A) + 2)); [cbn | lia].
    destruct (Z.ltb_spec 0 (default 0 (cart !! A) + 2 + 3)); [f_equal; lia | lia]. }
  split; [|split; [|split; [|split; [|split; [|split; [|split]]]]]].
  - destruct (process_shopping_list_spec rid delta w) as (w' & E & Hc & _).
    exists w'. split; [exact E|]. unfold get_cart at 1. rewrite Hc, lookup_insert_eq.
    reflexivity.
  - apply merge_cart_empty. exact Hpos.
  - exact Htwice.
  - intros Hnone. rewrite Htwice, Hnone. reflexivity.
  - apply map_eq. intros pid. destruct (decide (pid = A)) as [->|Hne].
    + rewrite lookup_singleton_eq.
      rewrite (merge_cart_added _ _ A (PyInt 3) 3), (merge_cart_added _ _ A (PyInt 2) 2);
        try assumption; try apply lookup_singleton_eq; reflexivity.
    + rewrite lookup_singleton_ne by congruence.
      rewrite merge_cart_other by (apply lookup_singleton_ne; congruence).
      rewrite positive_entries_id by apply merge_cart_positive.
      rewrite merge_cart_other by (apply lookup_singleton_ne; congruence).
      rewrite positive_entries_lookup, lookup_empty. reflexivity.
  - apply (merge_cart_added delta cart A v n); assumption.
  - apply merge_cart_positive.
  - exact (py_int_ascii v n Hn).
Qed.

(** An instance: the cart [{pdt1: 1}], stored by an earlier merge, and the
    delta [{pdt1: "2"}]. *)
Lemma cart_merge_is_additive_witness :
  merge_cart ∅ (merge_cart {[ "pdt1" := PyInt 1 ]} ∅) = merge_cart {[ "pdt1" := PyInt 1 ]} ∅
  /\ merge_cart {[ "pdt1" := PyStr "2" ]} (merge_cart {[ "pdt1" := PyInt 1 ]} ∅) !! "pdt1"
       = Some 3.
Proof.
  destruct (cart_merge_is_additive "req"
              (world_at "home" (steady (1, 0, 1)) silent demo_uids)
              (merge_cart {[ "pdt1" := PyInt 1 ]} ∅) {[ "pdt1" := PyStr "2" ]}
              "pdt1" (PyStr "2") 2)
    as (_ & Hempty & _ & _ & _ & Hadd & _).
  - apply persisted_merge, persisted_nothing.
  - intros [H|H]; discriminate H.
  - reflexivity.
  - reflexivity.
  - split; [exact Hempty | exact Hadd].
Defined.

(** ** C9: what the merge ignores *)

(** C9.  An entry of the delta whose key is ['processed'] or ['action'], or
    whose quantity [int()] rejects, is skipped by the merge loop: the
    quantity the cart holds for that product id after the loop is the one it
    held before; and for every persisted cart that quantity, or its absence,
    is also what [process_shopping_list] persists.  The quantities [int()]
    rejects are those of [unconvertible]: [None], a nested value, ASCII text
    that is not an integer literal, and any text that holds an ASCII
    character foreign to integer literals.  Among them are a digit after the
    separator 28, which [int()] does not strip, and a literal of 4301
    digits, one more than the digit limit. *)
Theorem merge_ignores_reserved_and_unconvertible (rid : string) (w : World)
    (delta : gmap string pyval) (pid : string) (v : pyval) :
  delta !! pid = Some v ->
  reserved_key pid \/ unconvertible v ->
  merge_items delta (get_cart rid w) !! pid = get_cart rid w !! pid
  /\ (persisted_cart (get_cart rid w) ->
      exists w', process_shopping_list rid delta w = Some (tt, w')
                 /\ get_cart rid w' !! pid = get_cart rid w !! pid)
  /\ py_int PyNone = None /\ py_int (PyStr "two") = None /\ py_int PyOther = None
  /\ py_int (PyStr (String (ascii_of_nat 28) "5")) = None
  /\ py_int (PyStr (string_of_list_ascii (repeat "1"%char 4301))) = None
  /\ py_int (PyStr (string_of_list_ascii (repeat "1"%char 4300))) <> None.
Proof.
  intros Hd Hs.
  assert (Hs' : reserved_key pid \/ py_int v = None).
  { destruct Hs as [H|H]; [left; exact H | right; apply unconvertible_py_int, H]. }
  pose proof (merge_items_skipped delta (get_cart rid w) pid v Hd Hs') as Hloop.
  split; [exact Hloop|]. split.
  2:{ split; [reflexivity|]. split; [reflexivity|]. split; [reflexivity|].
      split; [reflexivity|]. split; [vm_compute; reflexivity|].
      vm_compute. discriminate. }
  intros Hp. destruct (process_shopping_list_spec rid delta w) as (w' & E & Hc & _).
  exists w'. split; [exact E|].
  unfold get_cart at 1. rewrite Hc, lookup_insert_eq. cbn.
  unfold merge_cart. rewrite positive_entries_lookup, Hloop.
  destruct (get_cart rid w !! pid) as [q|] eqn:Eq; [|reflexivity].
  apply (persisted_cart_positive _ Hp) in Eq.
  destruct (Z.ltb_spec 0 q); [reflexivity | lia].
Qed.

(** An instance: with nothing stored yet, the delta
    [{action: 4, pdt1: None}] leaves both keys absent. *)
Lemma merge_ignores_reserved_and_unconvertible_witness :
  merge_items {[ "action" := PyInt 4; "pdt1" := PyNone ]} ∅ !! "action" = None
  /\ merge_items {[ "action" := PyInt 4; "pdt1" := PyNone ]} ∅ !! "pdt1" = None.
Proof.
  split.
  - apply (merge_ignores_reserved_and_unconvertible "req"
             (world_at "home" (steady (1, 0, 1)) silent demo_uids)
             {[ "action" := PyInt 4; "pdt1" := PyNone ]} "action" (PyInt 4)).
    + reflexivity.
    + left. right. reflexivity.
  - apply (merge_ignores_reserved_and_unconvertible "req"
             (world_at "home" (steady (1, 0, 1)) silent demo_uids)
             {[ "action" := PyInt 4; "pdt1" := PyNone ]} "pdt1" PyNone).
    + reflexivity.
    + right. left. split; [exact I | reflexivity].
Defined.

(** ** C8: the request boundary *)

(** C8.  A request event that passes the guards of
    [_handle_new_request_callback] sets the processing flag and runs
    [process_request]; the callback always returns, no exception leaves it,
    and whether the processing returned or raised, the request's processing
    flag is deleted at the end.  When the processing raised, the callback
    has, after it, reported [error:critical_processing_exception] and sent
    the stop command, and nothing else; when it returned, the callback added
    nothing to what the processing did. *)
Theorem request_boundary_cleans_up (event : fb_event) (event_data : request_data)
    (w : World) :
  event_type event = "put" \/ event_type event = "patch" ->
  data event = Some event_data ->
  last_segment (path event) <> "" ->
  last_segment (path event) <> "trolleyRequests" ->
  is_processing (last_segment (path event)) w = false ->
  exists o w1 w',
    process_request (last_segment (path event)) event_data
      (set_processing_status (last_segment (path event)) true w) = Some (o, w1) /\
    _handle_new_request_callback event w = Some (tt, w') /\
    fb_processing w' !! last_segment (path event) = None /\
    fb_processing w' = delete (last_segment (path event)) (fb_processing w) /\
    match o with
    | Raised _ =>
        trace w' = EvSend CMD_STOP
                     :: EvStatus (last_segment (path event))
                          "error:critical_processing_exception"
                     :: trace w1 /\
        fb_status w' !! last_segment (path event)
          = Some "error:critical_processing_exception"
    | Normal => trace w' = trace w1 /\ fb_status w' = fb_status w1
    end.
Proof.
  intros Htype Hdata Hne1 Hne2 Hproc.
  remember (last_segment (path event)) as rid eqn:Hrid.
  destruct (process_request_spec rid event_data (set_processing_status rid true w))
    as (o & w1 & E & Hp & _).
  assert (Hcb : _handle_new_request_callback event w =
                match o with
                | Normal => Some (tt, delete_processing_status rid w1)
                | Raised _ =>
                    Some (tt, delete_processing_status rid
                                (send_command CMD_STOP
                                   (update_trolley_status rid
                                      "error:critical_processing_exception" w1)))
                end).
  { unfold _handle_new_request_callback.
    assert (Ht : String.eqb (event_type event) "put"
                 || String.eqb (event_type event) "patch" = true).
    { destruct Htype as [-> | ->]; reflexivity. }
    rewrite Ht, Hdata.
    rewrite <- Hrid.
    apply String.eqb_neq in Hne1, Hne2. rewrite Hne1, Hne2, Hproc. cbn [orb].
    rewrite E. destruct o; reflexivity. }
  assert (Hdel : delete rid (fb_processing w1) = delete rid (fb_processing w)).
  { rewrite Hp. cbn. apply delete_insert_eq. }
  exists o, w1. rewrite Hcb.
  destruct o as [|exc]; eexists; (split; [exact E|]); (split; [reflexivity|]); cbn;
    rewrite Hdel, ?lookup_delete_eq, ?lookup_insert_eq; auto.
Qed.

(** An instance: the request [{action: 'home'}] with the trolley at home.
    The return home succeeds at once, the read of the unbound name [success]
    raises, and the boundary reports, stops and clears the flag. *)
Lemma request_boundary_cleans_up_witness :
  exists w',
    _handle_new_request_callback
      (mkEvent "put" "/trolleyRequests/r1" (Some (ReqDict (Some (PyStr "home")) None)))
      (world_at "home" (steady (1, 0, 1)) silent demo_uids) = Some (tt, w')
    /\ fb_processing w' !! "r1" = None
    /\ sent (trace w') = [CMD_STOP]
    /\ fb_status w' !! "r1" = Some "error:critical_processing_exception".
Proof.
  destruct (request_boundary_cleans_up
              (mkEvent "put" "/trolleyRequests/r1"
                 (Some (ReqDict (Some (PyStr "home")) None)))
              (ReqDict (Some (PyStr "home")) None)
              (world_at "home" (steady (1, 0, 1)) silent demo_uids))
    as (o & w1 & w' & E & Ecb & Hflag & _ & H).
  - left. reflexivity.
  - reflexivity.
  - discriminate.
  - discriminate.
  - reflexivity.
  - vm_compute in E. injection E as <- <-.
    destruct H as [Htr Hst].
    exists w'. split; [exact Ecb|]. split; [exact Hflag|]. split; [|exact Hst].
    rewrite Htr. reflexivity.
Defined.

(** ** C10: the position and the node mapping *)

(** The registry resolves [RFJ4], the junction name [_move_trolley_to_home]
    derives from the last character of [pdt4], and the port delivers its
    tag: the return home leaves the position at [RFJ4], which
    [NODE_MAPPING] does not hold. *)
Lemma position_can_leave_node_mapping :
  exists w',
    _move_trolley_to_home "req"
      (world_at "pdt4" (steady (1, 0, 1)) (fun _ => Some "RFID:F4")
                {[ "RFJ4" := "F4" ]}) = Some (tt, w')
    /\ dict_mem "pdt4" NODE_MAPPING = true
    /\ current_node w' = "RFJ4"
    /\ dict_mem (current_node w') NODE_MAPPING = false.
Proof.
  eexists. split; [vm_compute; reflexivity|]. repeat split; reflexivity.
Qed.

(** C10, as amended.  [set_current_position] leaves the world unchanged
    when given a name that is not in [NODE_MAPPING]; the controller starts at
    [home], which is in it; [navigate_to_node] and [reverse_until_node]
    either keep [current_node] or assign the destination, and this only
    after the registry resolved the destination's UID.  The navigator never
    consults [NODE_MAPPING] itself, so the position is known to stay within
    it only where every name the registry resolves is in [NODE_MAPPING]: then
    each of these calls, and a whole request handled by
    [_handle_new_request_callback], takes a known position to a known
    position. *)
Theorem position_stays_known (name dest rid : string) (event : fb_event) (w : World) :
  (dict_mem name NODE_MAPPING = false -> set_current_position name w = w)
  /\ known_position (TrolleyController_init w)
  /\ (exists b w',
        navigate_to_node dest rid w = Some (b, w') /\
        (current_node w' = current_node w
         \/ current_node w' = dest /\ is_Some (get_expected_uid dest w)))
  /\ (exists b w',
        reverse_until_node dest rid w = Some (b, w') /\
        (current_node w' = current_node w
         \/ current_node w' = dest /\ is_Some (get_expected_uid dest w)))
  /\ (registry_within_mapping w -> known_position w ->
      known_position (set_current_position name w)
      /\ (forall b w', navigate_to_node dest rid w = Some (b, w') -> known_position w')
      /\ (forall b w', reverse_until_node dest rid w = Some (b, w') -> known_position w')
      /\ exists w', _handle_new_request_callback event w = Some (tt, w')
                    /\ known_position w').
Proof.
  assert (Hnav : exists b w',
            navigate_to_node dest rid w = Some (b, w') /\
            (current_node w' = current_node w
             \/ current_node w' = dest /\ is_Some (get_expected_uid dest w))).
  { destruct (navigate_to_node_runs dest rid w) as (b & w' & E & _ & Hp).
    exists b, w'. split; [exact E|].
    destruct (get_expected_uid dest w) as [uid|] eqn:Huid.
    - destruct (navigate_to_node_position dest rid w uid Huid)
        as (b' & w'' & n & E' & _ & _ & H).
      rewrite E in E'. injection E' as <- <-.
      destruct H as [(_ & _ & _ & Hd & _)|(_ & Hc & _)]; eauto.
    - left. revert E. unfold navigate_to_node.
      destruct (String.eqb _ _); [intros [= <- <-]; reflexivity|].
      change (get_expected_uid dest (update_trolley_status rid ("moving_to:" +:+ dest) w))
        with (get_expected_uid dest w).
      rewrite Huid. intros [= <- <-]. reflexivity. }
  assert (Hrev : exists b w',
            reverse_until_node dest rid w = Some (b, w') /\
            (current_node w' = current_node w
             \/ current_node w' = dest /\ is_Some (get_expected_uid dest w))).
  { destruct (reverse_until_node_runs dest rid w) as (b & w' & E & _ & Hp).
    exists b, w'. split; [exact E|].
    destruct (get_expected_uid dest w) as [uid|] eqn:Huid.
    - destruct (reverse_until_node_position dest rid w uid Huid)
        as (b' & w'' & n & E' & _ & _ & H).
      rewrite E in E'. injection E' as <- <-.
      destruct H as [(_ & _ & _ & Hd)|(_ & Hc & _)]; eauto.
    - left. revert E. unfold reverse_until_node.
      destruct (_ || _); [intros [= <- <-]; reflexivity|].
      change (get_expected_uid dest (update_trolley_status rid ("reversing_to:" +:+ dest) w))
        with (get_expected_uid dest w).
      rewrite Huid. intros [= <- <-]. reflexivity. }
  split; [|split; [reflexivity|split; [exact Hnav|split; [exact Hrev|]]]].
  { intros Hname. unfold set_current_position. rewrite Hname. cbn.
    destruct (String.eqb_spec name "home") as [->|]; [discriminate Hname | reflexivity]. }
  intros Hreg Hknown.
  assert (Hstep : forall w', current_node w' = current_node w
                             \/ is_Some (get_expected_uid (current_node w') w) ->
                             known_position w').
  { intros w' [Hc|Hs]; unfold known_position; [rewrite Hc; exact Hknown | apply Hreg, Hs]. }
  split; [|split; [|split]].
  - unfold set_current_position.
    destruct (dict_mem name NODE_MAPPING) eqn:Hm; cbn.
    + exact Hm.
    + destruct (String.eqb_spec name "home") as [->|]; [discriminate Hm | exact Hknown].
  - intros b w' E. destruct Hnav as (b' & w'' & E' & H).
    rewrite E in E'. injection E' as <- <-. apply Hstep.
    destruct H as [Hc|[-> Hs]]; auto.
  - intros b w' E. destruct Hrev as (b' & w'' & E' & H).
    rewrite E in E'. injection E' as <- <-. apply Hstep.
    destruct H as [Hc|[-> Hs]]; auto.
  - unfold _handle_new_request_callback.
    destruct (_ || _); [|eauto].
    destruct (data event) as [event_data|]; [|eauto].
    destruct (_ || _); [eauto|].
    destruct (is_processing _ _); [eauto|].
    destruct (process_request_spec (last_segment (path event)) event_data
                (set_processing_status (last_segment (path event)) true w))
      as (o & w1 & E & _ & _ & Hp & _).
    rewrite E. destruct o; eexists; (split; [reflexivity|]); apply Hstep; exact Hp.
Qed.

(** An instance: in the demo registry every resolved name is a node, and a
    navigation from [home] towards [RFJ1] whose tag arrives ends at [RFJ1]. *)
Lemma position_stays_known_witness :
  known_position (set_current_position "nowhere"
                    (world_at "home" (steady (1, 0, 1)) (fun _ => Some "RFID:AB12") demo_uids))
  /\ exists w',
       navigate_to_node "RFJ1" "req"
         (world_at "home" (steady (1, 0, 1)) (fun _ => Some "RFID:AB12") demo_uids)
         = Some (true, w')
       /\ current_node w' = "RFJ1" /\ known_position w'.
Proof.
  destruct (position_stays_known "nowhere" "RFJ1" "req"
              (mkEvent "put" "/trolleyRequests/r1" None)
              (world_at "home" (steady (1, 0, 1)) (fun _ => Some "RFID:AB12") demo_uids))
    as (_ & _ & _ & _ & H).
  destruct H as (Hset & Hnav & _).
  - intros name [uid Huid]. unfold get_expected_uid, world_at, demo_uids in Huid. cbn in Huid.
    destruct (decide (name = "home")) as [->|]; [reflexivity|].
    destruct (decide (name = "RFJ1")) as [->|]; [reflexivity|].
    destruct (decide (name = "RBJ1")) as [->|]; [reflexivity|].
    destruct (decide (name = "pdt1")) as [->|]; [reflexivity|].
    rewrite !lookup_insert_ne, lookup_singleton_ne in Huid by congruence. discriminate.
  - reflexivity.
  - split; [exact Hset|]. eexists. split; [vm_compute; reflexivity|].
    split; [reflexivity|]. eapply Hnav. vm_compute. reflexivity.
Defined.

(** * Further properties of the controller *)

(** ** The classifier and the turn test, reading by reading *)

(** X1.  The seven-branch chain of [get_state] decides on three readings
    only.  It answers SLIGHT_LEFT exactly when the left sensor is off the
    line and the right one on it, whatever the centre sensor reads;
    SLIGHT_RIGHT exactly when left and centre are on the line and the right
    sensor is off it; and CENTERED on every other reading, (0, 1, 1)
    included, since the branch written for it tests the left sensor three
    times and never fires. *)
Theorem get_state_decides_on_three_readings (l c r : Z) :
  (get_state (l, c, r) = LINE_SLIGHT_LEFT <-> truthy l = true /\ truthy r = false)
  /\ (get_state (l, c, r) = LINE_SLIGHT_RIGHT
      <-> truthy l = false /\ truthy c = false /\ truthy r = true)
  /\ (get_state (l, c, r) = LINE_CENTERED
      <-> ~ (truthy l = true /\ truthy r = false)
          /\ ~ (truthy l = false /\ truthy c = false /\ truthy r = true)).
Proof.
  unfold get_state.
  destruct (truthy l), (truthy c), (truthy r); cbn; intuition congruence.
Qed.

(** X2.  On readings made of 0 and 1 the turn goes on only while the
    reading is (0, 0, 1): every other reading ends it, and so does every
    reading the classifier calls CENTERED. *)
Theorem turn_continues_only_on_001 (l c r : Z) :
  is_bit l -> is_bit c -> is_bit r ->
  (turn_detect (l, c, r) = false <-> (l, c, r) = (0, 0, 1))
  /\ (get_state (l, c, r) = LINE_CENTERED -> turn_detect (l, c, r) = true).
Proof.
  intros [-> | ->] [-> | ->] [-> | ->]; cbn; split;
    try (split; [discriminate | intros [=]]);
    try (split; reflexivity); try reflexivity; try discriminate; auto.
Qed.

Lemma turn_continues_only_on_001_witness :
  turn_detect (0, 0, 1) = false /\ turn_detect (1, 0, 1) = true.
Proof.
  split.
  - apply (turn_continues_only_on_001 0 0 1); [left | left | right | ]; reflexivity.
  - apply (turn_continues_only_on_001 1 0 1); [right | left | right | ]; reflexivity.
Defined.

(** ** The transition table *)

Lemma startswith_inv s p : startswith s p = true <-> exists rest, s = p +:+ rest.
Proof.
  unfold startswith. revert s. induction p as [|a p IH]; intros [|b s]; simpl.
  - split; [intros _; exists ""; reflexivity | reflexivity].
  - split; [intros _; eexists; reflexivity | reflexivity].
  - split; [discriminate | intros [rest [=]]].
  - destruct (ascii_dec a b) as [->|Hne].
    + rewrite IH. split; intros [rest H]; exists rest;
        [rewrite H; reflexivity | injection H as H; exact H].
    + split; [discriminate | intros [rest H]; injection H as H1 _; congruence].
Qed.

Lemma startswith_RBJ_not_RFJ s : startswith s "RBJ" = true -> startswith s "RFJ" = false.
Proof. intros H. apply startswith_inv in H. destruct H as [rest ->]. reflexivity. Qed.

(** X3.  [_get_turn_for_transition] asks for an initial turn only when the
    trolley leaves a junction: when it answers a command, the start node's
    name begins with RFJ or RBJ, so no navigation that starts at home or at
    a product node turns first.  The command is a pivot, left or right, and
    it is left exactly when both names begin with RBJ. *)
Theorem initial_turns_only_leave_junctions (start_node end_node : string) (c : command) :
  _get_turn_for_transition start_node end_node = Some c ->
  (startswith start_node "RFJ" = true \/ startswith start_node "RBJ" = true)
  /\ (c = CMD_RIGHT \/ c = CMD_LEFT)
  /\ (c = CMD_LEFT <->
      startswith start_node "RBJ" = true /\ startswith end_node "RBJ" = true).
Proof.
  unfold _get_turn_for_transition.
  destruct (String.eqb_spec start_node "home") as [->|_]; cbn.
  - destruct (startswith end_node "RFJ"); discriminate.
  - destruct (startswith start_node "RFJ") eqn:HsF;
      destruct (startswith start_node "RBJ") eqn:HsB;
      try (apply startswith_RBJ_not_RFJ in HsB; congruence); cbn.
    + destruct (startswith end_node "pdt"); [intros [= <-]; intuition congruence|].
      destruct (String.eqb end_node "home"); [|discriminate].
      intros [= <-]. intuition congruence.
    + destruct (startswith end_node "RFJ") eqn:HeF.
      * intros [= <-]. split; [auto|]. split; [auto|]. split; [discriminate|].
        intros [_ HeB]. apply startswith_RBJ_not_RFJ in HeB. congruence.
      * destruct (startswith end_node "RBJ"); [|discriminate].
        intros [= <-]. intuition congruence.
    + discriminate.
Qed.

Lemma initial_turns_only_leave_junctions_witness :
  _get_turn_for_transition "RBJ1" "RBJ2" = Some CMD_LEFT
  /\ startswith "RBJ1" "RBJ" = true.
Proof.
  split; [reflexivity|].
  destruct (initial_turns_only_leave_junctions "RBJ1" "RBJ2" CMD_LEFT eq_refl)
    as (_ & _ & H).
  apply H. reflexivity.
Defined.

(** ** Tags and request paths *)

Lemma ascii_lower_idem a : ascii_lower (ascii_lower a) = ascii_lower a.
Proof.
  destruct a as [[] [] [] [] [] [] [] []]; reflexivity.
Qed.

Lemma lower_idem s : lower (lower s) = lower s.
Proof. induction s as [|a s IH]; cbn; [reflexivity|]. rewrite ascii_lower_idem, IH. reflexivity. Qed.

Lemma rfid_uid_tag t : rfid_uid (line_of (Some ("RFID:" +:+ t))) = Some (lower t).
Proof. destruct t; reflexivity. Qed.

(** X4.  The comparison of a tag with the registry does not see the case of
    ASCII letters.  For a registered UID and tags that are ASCII text: the
    expected UID is the registry's value in lower case; a line [RFID:<tag>]
    matches exactly when the tag in lower case is the expected UID, so two
    tags that differ in the case of their letters only match the same UIDs;
    a line that does not begin with [RFID:] never matches.  And when the
    first line [receive_line] returns to a navigation without initial turn
    is such a tag, spelled in whatever case, the navigation arrives: it
    returns True with the position at the destination. *)
Theorem tag_comparison_ignores_case (node_name registered tag tag' line rid : string)
    (w : World) :
  fb_products_uid w !! node_name = Some registered ->
  registered <> "" ->
  is_ascii_text registered = true ->
  is_ascii_text tag = true ->
  is_ascii_text tag' = true ->
  get_expected_uid node_name w = Some (lower registered)
  /\ (uid_match (lower registered) (Some ("RFID:" +:+ tag)) = true
      <-> lower tag = lower registered)
  /\ (lower tag = lower tag' ->
      uid_match (lower registered) (Some ("RFID:" +:+ tag))
      = uid_match (lower registered) (Some ("RFID:" +:+ tag')))
  /\ (startswith line "RFID:" = false -> uid_match (lower registered) (Some line) = false)
  /\ (current_node w <> node_name ->
      _get_turn_for_transition (current_node w) node_name = None ->
      serial_feed w (serial_reads w) = Some ("RFID:" +:+ tag) ->
      is_stripped ("RFID:" +:+ tag) = true ->
      lower tag = lower registered ->
      exists w', navigate_to_node node_name rid w = Some (true, w')
                 /\ current_node w' = node_name
                 /\ serial_reads w' = S (serial_reads w)).
Proof.
  intros Hreg Hne _ _ _.
  assert (Hm : forall t, uid_match (lower registered) (Some ("RFID:" +:+ t)) = true
                         <-> lower t = lower registered).
  { intros t. unfold uid_match. rewrite rfid_uid_tag. apply String.eqb_eq. }
  assert (Huid : get_expected_uid node_name w = Some (lower registered)).
  { unfold get_expected_uid. rewrite Hreg.
    destruct registered; [contradiction | reflexivity]. }
  split; [exact Huid|]. split; [apply Hm|]. split; [|split].
  - intros Heq. unfold uid_match. rewrite !rfid_uid_tag, Heq. reflexivity.
  - intros Hl. unfold uid_match, rfid_uid.
    destruct line as [|a line']; [reflexivity|]. cbn [line_of]. rewrite Hl. reflexivity.
  - intros Hcur Hturn Hfeed _ Hcase. unfold navigate_to_node.
    destruct (String.eqb_spec (current_node w) node_name) as [|_]; [contradiction|].
    set (w0 := update_trolley_status rid ("moving_to:" +:+ node_name) w).
    change (get_expected_uid node_name w0) with (get_expected_uid node_name w).
    rewrite Huid. change (current_node w0) with (current_node w). rewrite Hturn.
    destruct (navigate_from_start_spec (lower registered) node_name rid
                (send_command CMD_FORWARD w0))
      as (b & w' & n & E & Hpos & Hn & Hall & H).
    change (serial_reads (send_command CMD_FORWARD w0)) with (serial_reads w) in *.
    change (serial_feed (send_command CMD_FORWARD w0)) with (serial_feed w) in *.
    assert (Hfirst : uid_match (lower registered) (serial_feed w (serial_reads w)) = true).
    { rewrite Hfeed. apply Hm, Hcase. }
    assert (Hn1 : n = 1%nat).
    { destruct (decide (n = 1%nat)) as [|Hn1]; [assumption|].
      rewrite Hall in Hfirst by lia. discriminate. }
    subst n. replace (serial_reads w + 1 - 1)%nat with (serial_reads w) in H by lia.
    rewrite E. destruct b.
    + exists w'. split; [reflexivity|]. split; [apply H | lia].
    + destruct H as (H & _). congruence.
Qed.

Lemma tag_comparison_ignores_case_witness :
  get_expected_uid "RFJ1" (world_at "home" (steady (1, 0, 1)) silent demo_uids)
    = Some "ab12"
  /\ uid_match "ab12" (Some "RFID:Ab12") = true
  /\ exists w',
       navigate_to_node "RFJ1" "req"
         (world_at "home" (steady (1, 0, 1)) (fun _ => Some "RFID:Ab12") demo_uids)
       = Some (true, w')
       /\ current_node w' = "RFJ1".
Proof.
  split; [|split].
  - apply (tag_comparison_ignores_case "RFJ1" "AB12" "Ab12" "aB12" "hello" "req"
             (world_at "home" (steady (1, 0, 1)) silent demo_uids));
      [reflexivity | discriminate | reflexivity | reflexivity | reflexivity].
  - destruct (tag_comparison_ignores_case "RFJ1" "AB12" "Ab12" "aB12" "hello" "req"
                (world_at "home" (steady (1, 0, 1)) silent demo_uids))
      as (_ & Hm & _);
      [reflexivity | discriminate | reflexivity | reflexivity | reflexivity |].
    apply Hm. reflexivity.
  - destruct (tag_comparison_ignores_case "RFJ1" "AB12" "Ab12" "aB12" "hello" "req"
                (world_at "home" (steady (1, 0, 1)) (fun _ => Some "RFID:Ab12") demo_uids))
      as (_ & _ & _ & _ & Hnav);
      [reflexivity | discriminate | reflexivity | reflexivity | reflexivity |].
    destruct Hnav as (w' & E & Hc & _);
      [discriminate | reflexivity | reflexivity | reflexivity | reflexivity |].
    exists w'. split; [exact E | exact Hc].
Defined.

Lemma append_cons a s t : String a s +:+ t = String a (s +:+ t).
Proof. reflexivity. Qed.

Lemma append_nil_r s : s +:+ "" = s.
Proof. induction s as [|a s IH]; [reflexivity|]. rewrite append_cons, IH. reflexivity. Qed.

Lemma append_snoc s a t : (s +:+ String a "") +:+ t = s +:+ String a t.
Proof. induction s as [|b s IH]; [reflexivity|]. rewrite !append_cons, IH. reflexivity. Qed.

Lemma has_slash_app s t : has_slash (s +:+ t) = has_slash s || has_slash t.
Proof.
  induction s as [|a s IH]; [reflexivity|].
  rewrite append_cons. cbn [has_slash]. rewrite IH. apply orb_assoc.
Qed.

Lemma last_segment_from_no_slash s cur :
  has_slash s = false -> last_segment_from s cur = cur +:+ s.
Proof.
  revert cur. induction s as [|a s IH]; intros cur; cbn [last_segment_from has_slash].
  - intros _. symmetry. apply append_nil_r.
  - destruct (Ascii.eqb a "/"); [discriminate|]. cbn [orb]. intros H.
    rewrite IH by exact H. apply append_snoc.
Qed.

Lemma last_segment_from_app p s cur :
  last_segment_from (p +:+ "/" +:+ s) cur = last_segment_from s "".
Proof.
  revert cur. induction p as [|a p IH]; intros cur; [reflexivity|].
  rewrite append_cons. cbn [last_segment_from]. destruct (Ascii.eqb a "/"); apply IH.
Qed.

Lemma last_segment_from_has_no_slash s cur :
  has_slash cur = false -> has_slash (last_segment_from s cur) = false.
Proof.
  revert cur. induction s as [|a s IH]; intros cur Hc; cbn [last_segment_from]; [exact Hc|].
  destruct (Ascii.eqb a "/") eqn:Ea; apply IH; [reflexivity|].
  rewrite has_slash_app, Hc. cbn. rewrite Ea. reflexivity.
Qed.

(** X5.  The request id of an event is what follows the last ['/'] of its
    path: the id never holds a ['/'], and a path built as
    [<anything>/<id>] from an id without ['/'] gives that id back. *)
Theorem request_id_is_last_path_segment (prefix rid : string) :
  has_slash (last_segment prefix) = false
  /\ (has_slash rid = false -> last_segment (prefix +:+ "/" +:+ rid) = rid).
Proof.
  split.
  - apply last_segment_from_has_no_slash. reflexivity.
  - intros H. unfold last_segment. rewrite last_segment_from_app.
    apply last_segment_from_no_slash. exact H.
Qed.

Lemma request_id_is_last_path_segment_witness :
  last_segment ("/trolleyRequests" +:+ "/" +:+ "r1") = "r1".
Proof. apply (request_id_is_last_path_segment "/trolleyRequests" "r1"). reflexivity. Defined.

(** ** What the navigator sends *)

Lemma sent_app tr1 tr2 : sent (tr1 ++ tr2) = sent tr1 ++ sent tr2.
Proof. apply omap_app. Qed.

Lemma sent_send c tr : sent (EvSend c :: tr) = c :: sent tr.
Proof. reflexivity. Qed.

Lemma sent_status rid msg tr : sent (EvStatus rid msg :: tr) = sent tr.
Proof. reflexivity. Qed.

Lemma sent_polled feed from n : sent (polled feed from n) = [].
Proof.
  unfold polled. revert from. induction n as [|n IH]; intros from; [reflexivity|].
  cbn [seq List.map rev]. rewrite sent_app, IH. reflexivity.
Qed.

(** What a turn returns and sends. *)
Lemma turn_commands cmd rid w :
  exists b w',
    execute_simple_turn cmd rid w = Some (b, w') /\
    sent (trace w') = CMD_STOP :: cmd :: sent (trace w).
Proof.
  destruct (execute_simple_turn_spec cmd rid w)
    as (b & w' & n & E & _ & _ & _ & _ & _ & _ & H).
  exists b, w'. split; [exact E|].
  destruct b; [destruct H as (_ & _ & ->) | destruct H as (_ & ->)];
    cbn -[sent]; rewrite ?sent_status, ?sent_send, sent_app, sent_polled; reflexivity.
Qed.

(** X6.  Every turn sends exactly two commands, the turn command and then
    stop, whether it completes or times out; it neither reads the serial
    port nor moves the position, and it reports a status only when it times
    out. *)
Theorem turn_sends_its_command_then_stop (cmd : command) (rid : string) (w : World) :
  exists b w',
    execute_simple_turn cmd rid w = Some (b, w') /\
    sent (trace w') = CMD_STOP :: cmd :: sent (trace w) /\
    current_node w' = current_node w /\
    serial_reads w' = serial_reads w /\
    fb_status w' =
      (if b then fb_status w
       else <[rid := "error:turn_timeout:" +:+ command_char cmd]> (fb_status w)).
Proof.
  unfold execute_simple_turn.
  destruct (turn_loop_total (loop_fuel turn_timeout 50) (clock (send_command cmd w))
              (sleep 1500 (send_command cmd w))) as (r & w1 & E).
  { pose proof (loop_fuel_covers turn_timeout 50). cbn. unfold turn_timeout in *. lia. }
  rewrite E. apply turn_loop_spec in E. cbn in E.
  destruct E as (n & Hn & Hc & Hs & Hst & H). destruct r as [b|].
  - destruct H as (-> & _ & _ & _ & _ & _ & Htr).
    exists true, w1. split; [reflexivity|]. repeat split; auto.
    rewrite Htr. cbn. rewrite sent_app, sent_polled. reflexivity.
  - destruct H as (_ & _ & _ & _ & Htr).
    eexists false, _. split; [reflexivity|]. cbn. repeat split; auto.
    + rewrite Htr, sent_app, sent_polled. reflexivity.
    + rewrite Hst. reflexivity.
Qed.

Lemma repeat_move {A : Type} (x : A) k l : repeat x k ++ x :: l = x :: repeat x k ++ l.
Proof. induction k as [|k IH]; cbn; [reflexivity|]. rewrite IH. reflexivity. Qed.

(** The reverse loop reads no sensor and sends backward commands only,
    followed by one stop when it returns from inside the loop. *)
Lemma reverse_loop_commands fuel uid dest rid start w r w' :
  reverse_loop fuel uid dest rid start w = Some (r, w') ->
  ir_reads w' = ir_reads w /\
  exists k : nat,
    sent (trace w') =
      (match r with Some _ => [CMD_STOP] | None => [] end)
      ++ repeat CMD_BACKWARD k ++ sent (trace w).
Proof.
  revert w. induction fuel as [|fuel IH]; intros w;
    rewrite reverse_loop_unfold;
    destruct (clock w - start <? navigation_timeout);
    try discriminate;
    try (intros [= <- <-]; split; [reflexivity | exists 0%nat; reflexivity]).
  cbn. destruct (rfid_uid _) as [received|].
  - destruct (String.eqb received uid).
    + intros [= <- <-]. split; [reflexivity | exists 0%nat; reflexivity].
    + intros H. apply IH in H. cbn in H. destruct H as (Hi & k & Hk).
      split; [exact Hi|]. exists (S k). rewrite Hk, repeat_move. reflexivity.
  - intros H. apply IH in H. cbn in H. exact H.
Qed.

(** X7.  [reverse_until_node] is open loop: it always returns, never reads
    the line sensors, and what it sends is nothing at all or a run of
    backward commands closed by one stop.  Asked to reverse from home or to
    home it refuses and leaves the world as it was. *)
Theorem reverse_is_open_loop (dest rid : string) (w : World) :
  exists b w',
    reverse_until_node dest rid w = Some (b, w') /\
    ir_reads w' = ir_reads w /\
    (sent (trace w') = sent (trace w)
     \/ exists k : nat,
          sent (trace w') = CMD_STOP :: repeat CMD_BACKWARD (S k) ++ sent (trace w)) /\
    (current_node w = "home" \/ dest = "home" -> b = false /\ w' = w).
Proof.
  unfold reverse_until_node.
  destruct (String.eqb_spec (current_node w) "home") as [Hh|Hh].
  { exists false, w. cbn. repeat split; auto. }
  destruct (String.eqb_spec dest "home") as [Hd|Hd].
  { exists false, w. cbn. repeat split; auto. }
  cbn [orb].
  set (w0 := update_trolley_status rid ("reversing_to:" +:+ dest) w).
  destruct (get_expected_uid dest w0) as [uid|].
  2:{ eexists false, _. split; [reflexivity|]. cbn.
      split; [reflexivity|]. split; [left; reflexivity|]. intros [?|?]; contradiction. }
  destruct (reverse_loop_total (loop_fuel navigation_timeout 50) uid dest rid
              (clock (send_command CMD_BACKWARD w0)) (send_command CMD_BACKWARD w0))
    as (r & w1 & E).
  { pose proof (loop_fuel_covers navigation_timeout 50).
    unfold navigation_timeout in *. lia. }
  rewrite E. apply reverse_loop_commands in E. cbn in E. destruct E as (Hi & k & Hk).
  destruct r as [b|].
  - exists b, w1. split; [reflexivity|]. split; [exact Hi|].
    split; [right; exists k; rewrite Hk, repeat_move; reflexivity|].
    intros [?|?]; contradiction.
  - eexists false, _. split; [reflexivity|]. cbn -[sent repeat]. split; [exact Hi|].
    split; [right; exists k; rewrite sent_status, sent_send, Hk, repeat_move; reflexivity|].
    intros [?|?]; contradiction.
Qed.

Lemma required_command_steering st last :
  required_command st last <> last -> is_steering (required_command st last).
Proof. unfold is_steering. destruct st; cbn; auto. congruence. Qed.

(** The correction loop sends forward and veer commands only. *)
Lemma nav_loop_commands fuel uid dest rid start last w r w' :
  nav_loop fuel uid dest rid start last w = Some (r, w') ->
  exists cs, sent (trace w') = cs ++ sent (trace w) /\ Forall is_steering cs.
Proof.
  revert w last. induction fuel as [|fuel IH]; intros w last;
    rewrite nav_loop_unfold;
    destruct (clock w - start <? navigation_timeout);
    try discriminate;
    try (intros [= <- <-]; exists []; split; [reflexivity | constructor]).
  cbn. destruct (rfid_uid _) as [received|].
  - destruct (String.eqb received uid).
    + intros [= <- <-]. exists []. split; [reflexivity | constructor].
    + intros H. apply IH in H. cbn in H. destruct H as (cs & Hcs & HF).
      exists (cs ++ [CMD_FORWARD]). split; [rewrite Hcs, <- app_assoc; reflexivity|].
      apply Forall_app. split; [exact HF|]. constructor; [left; reflexivity | constructor].
  - match goal with |- context [line_correction ?st ?l ?w2] =>
      destruct (line_correction_cases st l w2) as [[-> _]|[-> Hreq]] end;
      intros H; apply IH in H; cbn in H; destruct H as (cs & Hcs & HF).
    + exists cs. split; assumption.
    + eexists (cs ++ [_]). split; [rewrite Hcs, <- app_assoc; reflexivity|].
      apply Forall_app. split; [exact HF|].
      constructor; [apply required_command_steering, Hreq | constructor].
Qed.

(** X8.  A navigation that arrives does not send stop.  A call of
    [navigate_to_node] for another node whose UID resolves sends at least one
    command; when it succeeds the last command it has sent is forward or a
    veer, the motors being left to the peripheral, which stops by itself at a
    tag; when it fails the last command it has sent is stop. *)
Theorem arrival_sends_no_stop (dest rid : string) (w : World) (uid : string) :
  current_node w <> dest ->
  get_expected_uid dest w = Some uid ->
  exists b w' c earlier,
    navigate_to_node dest rid w = Some (b, w') /\
    sent (trace w') = c :: earlier ++ sent (trace w) /\
    (if b then is_steering c else c = CMD_STOP).
Proof.
  intros Hne Huid. unfold navigate_to_node.
  destruct (String.eqb_spec (current_node w) dest) as [|_]; [contradiction|].
  set (w0 := update_trolley_status rid ("moving_to:" +:+ dest) w).
  change (get_expected_uid dest w0) with (get_expected_uid dest w). rewrite Huid.
  assert (Hfinish : forall w1 pre,
            sent (trace w1) = pre ++ sent (trace w) ->
            exists b w' c earlier,
              navigate_from_start uid dest rid (send_command CMD_FORWARD w1) = Some (b, w') /\
              sent (trace w') = c :: earlier ++ sent (trace w) /\
              (if b then is_steering c else c = CMD_STOP)).
  { intros w1 pre Hpre. unfold navigate_from_start.
    destruct (nav_loop_total (loop_fuel navigation_timeout 50) uid dest rid
                (clock (send_command CMD_FORWARD w1)) CMD_FORWARD
                (send_command CMD_FORWARD w1)) as (r & w2 & E).
    { pose proof (loop_fuel_covers navigation_timeout 50).
      unfold navigation_timeout in *. lia. }
    rewrite E. pose proof (nav_loop_spec _ _ _ _ _ _ _ _ _ E) as (n & _ & Hsp).
    apply nav_loop_commands in E. destruct E as (cs & Hcs & HF).
    change (sent (trace (send_command CMD_FORWARD w1)))
      with (CMD_FORWARD :: sent (trace w1)) in Hcs. rewrite Hpre in Hcs.
    destruct r as [b|].
    - destruct Hsp as (-> & _). destruct cs as [|c cs].
      + exists true, w2, CMD_FORWARD, pre.
        split; [reflexivity|]. split; [exact Hcs | left; reflexivity].
      + exists true, w2, c, (cs ++ CMD_FORWARD :: pre).
        split; [reflexivity|].
        split; [rewrite Hcs, <- app_assoc; reflexivity | inversion HF; assumption].
    - exists false. eexists. exists CMD_STOP, (cs ++ CMD_FORWARD :: pre).
      split; [reflexivity|].
      split; [cbn -[sent]; rewrite sent_status, sent_send, Hcs, <- app_assoc; reflexivity
             | reflexivity]. }
  destruct (_get_turn_for_transition _ _) as [turn|];
    [|apply (Hfinish w0 []); reflexivity].
  destruct (turn_commands turn rid w0) as (b & w1 & E & Hs).
  rewrite E. destruct b; [apply (Hfinish w1 [CMD_STOP; turn]); exact Hs|].
  exists false, w1, CMD_STOP, [turn]. split; [reflexivity|].
  split; [exact Hs | reflexivity].
Qed.

Lemma arrival_sends_no_stop_witness :
  current_node (world_at "RBJ1" (steady (1, 0, 1)) silent demo_uids) <> "RFJ1"
  /\ get_expected_uid "RFJ1" (world_at "RBJ1" (steady (1, 0, 1)) silent demo_uids)
       = Some "ab12"
  /\ exists b w' c earlier,
       navigate_to_node "RFJ1" "req"
         (world_at "RBJ1" (steady (1, 0, 1)) silent demo_uids) = Some (b, w') /\
       sent (trace w') = c :: earlier ++ [] /\
       (if b then is_steering c else c = CMD_STOP).
Proof.
  split; [discriminate|]. split; [reflexivity|].
  apply (arrival_sends_no_stop "RFJ1" "req"
           (world_at "RBJ1" (steady (1, 0, 1)) silent demo_uids) "ab12");
    [discriminate | reflexivity].
Defined.

(** ** Destinations the registry does not resolve *)

Lemma get_expected_uid_None node_name w :
  get_expected_uid node_name w = None <->
  fb_products_uid w !! node_name = None \/ fb_products_uid w !! node_name = Some "".
Proof.
  unfold get_expected_uid. destruct (fb_products_uid w !! node_name) as [[|a s]|].
  - split; auto.
  - split; [discriminate | intros [H|H]; discriminate].
  - split; auto.
Qed.

(** X9.  A destination without a usable UID is refused before the trolley
    moves: when the registry has no UID for the destination, or an empty
    one, [navigate_to_node] (from another node) and [reverse_until_node]
    (neither from nor to home) return False at once, having sent no command,
    read no sensor and no serial line, let no time pass and left the position
    alone; the request's status ends as [error:no_uid:<destination>]. *)
Theorem unresolved_destination_is_refused (dest rid : string) (w : World) :
  fb_products_uid w !! dest = None \/ fb_products_uid w !! dest = Some "" ->
  (current_node w <> dest ->
   exists w', navigate_to_node dest rid w = Some (false, w') /\
              sent (trace w') = sent (trace w) /\
              clock w' = clock w /\ ir_reads w' = ir_reads w /\
              serial_reads w' = serial_reads w /\
              current_node w' = current_node w /\
              fb_status w' !! rid = Some ("error:no_uid:" +:+ dest)) /\
  (current_node w <> "home" -> dest <> "home" ->
   exists w', reverse_until_node dest rid w = Some (false, w') /\
              sent (trace w') = sent (trace w) /\
              clock w' = clock w /\ ir_reads w' = ir_reads w /\
              serial_reads w' = serial_reads w /\
              current_node w' = current_node w /\
              fb_status w' !! rid = Some ("error:no_uid:" +:+ dest)).
Proof.
  intros Hreg. apply get_expected_uid_None in Hreg. split.
  - intros Hne. unfold navigate_to_node.
    destruct (String.eqb_spec (current_node w) dest) as [|_]; [contradiction|].
    change (get_expected_uid dest (update_trolley_status rid ("moving_to:" +:+ dest) w))
      with (get_expected_uid dest w). rewrite Hreg.
    eexists. split; [reflexivity|]. cbn -[sent]. rewrite !sent_status.
    repeat split. apply lookup_insert_eq.
  - intros Hh Hd. unfold reverse_until_node.
    destruct (String.eqb_spec (current_node w) "home") as [|_]; [contradiction|].
    destruct (String.eqb_spec dest "home") as [|_]; [contradiction|]. cbn [orb].
    change (get_expected_uid dest (update_trolley_status rid ("reversing_to:" +:+ dest) w))
      with (get_expected_uid dest w). rewrite Hreg.
    eexists. split; [reflexivity|]. cbn -[sent]. rewrite !sent_status.
    repeat split. apply lookup_insert_eq.
Qed.

Lemma unresolved_destination_is_refused_witness :
  (demo_uids !! "pdt2" = None \/ demo_uids !! "pdt2" = Some "")
  /\ exists w',
       navigate_to_node "pdt2" "req"
         (world_at "RBJ1" (steady (1, 0, 1)) silent demo_uids) = Some (false, w') /\
       sent (trace w') = [] /\ clock w' = 0.
Proof.
  split; [left; reflexivity|].
  destruct (unresolved_destination_is_refused "pdt2" "req"
              (world_at "RBJ1" (steady (1, 0, 1)) silent demo_uids))
    as [H _]; [left; reflexivity|].
  destruct H as (w' & E & Hs & Hc & _); [discriminate|].
  exists w'. split; [exact E|]. split; assumption.
Defined.

(** ** Waiting for a confirmation *)

Lemma wait_loop_spec fuel path timeout start w r w' :
  wait_loop fuel path timeout start w = Some (r, w') ->
  exists n : nat,
    flag_polls w' = (flag_polls w + n)%nat /\
    trace w' = trace w /\ current_node w' = current_node w /\
    fb_status w' = fb_status w /\ fb_carts w' = fb_carts w /\
    match r with
    | Some b =>
        b = true /\
        exists m : nat, n = S m /\
          (forall i, (i < m)%nat -> flag_feed w path (flag_polls w + i) = false) /\
          flag_feed w path (flag_polls w + m) = true /\
          clock w' = clock w + 500 * Z.of_nat m /\
          clock w' - start < timeout
    | None =>
        (forall i, (i < n)%nat -> flag_feed w path (flag_polls w + i) = false) /\
        clock w' = clock w + 500 * Z.of_nat n /\
        timeout <= clock w' - start /\
        ((0 < n)%nat -> clock w' - start < timeout + 500)
    end.
Proof.
  revert w. induction fuel as [|fuel IH]; intros w; rewrite wait_loop_unfold;
    destruct (Z.ltb_spec (clock w - start) timeout) as [Hlt|Hge]; try discriminate;
    try (intros [= <- <-]; exists 0%nat; rewrite Nat.add_0_r;
         do 5 (split; [reflexivity|]);
         split; [intros; lia | split; [lia | split; [lia | intros; lia]]]).
  cbn. destruct (flag_feed w path (flag_polls w)) eqn:Hv.
  - intros [= <- <-]. exists 1%nat. cbn. rewrite Nat.add_1_r.
    do 5 (split; [reflexivity|]). split; [reflexivity|].
    exists 0%nat. rewrite Nat.add_0_r.
    split; [reflexivity|]. split; [intros; lia|]. split; [exact Hv|]. split; lia.
  - intros H. apply IH in H. cbn in H.
    destruct H as (n & Hp & Ht & Hn & Hs & Hc & Hr).
    exists (S n). split; [lia|]. do 4 (split; [assumption|]).
    assert (Hshift : forall i, (S (flag_polls w) + i = flag_polls w + S i)%nat) by (intros; lia).
    destruct r as [b|].
    + destruct Hr as (-> & m & -> & Hf & Hlast & Hclk & Hwin).
      split; [reflexivity|]. exists (S m). split; [reflexivity|].
      split; [|split; [|split; lia]].
      * intros [|i] Hi; [rewrite Nat.add_0_r; exact Hv|].
        rewrite <- Hshift. apply Hf. lia.
      * rewrite <- Hshift. exact Hlast.
    + destruct Hr as (Hf & Hclk & Hto & Hwin).
      split; [|split; [lia | split; [lia | intros; lia]]].
      intros [|i] Hi; [rewrite Nat.add_0_r; exact Hv|].
      rewrite <- Hshift. apply Hf. lia.
Qed.

(** X10.  Waiting for a flag polls it every 0.5 s and stops at the first
    poll that reads True.  With a positive timeout [_wait_for_flag] makes
    [n >= 1] polls, the last one starting before the timeout; all but the last
    read something else than True, and the result is what the last poll read.
    A successful wait has lasted [0.5 * (n - 1)] seconds; a failed one has
    spent [0.5 * n] seconds, the first multiple of 0.5 s that reaches the
    timeout.  The wait sends no command and reports no status. *)
Theorem wait_returns_first_true_poll (path : string) (timeout : Z) (w : World) :
  0 < timeout ->
  exists b w' (n : nat),
    _wait_for_flag path timeout w = Some (b, w') /\
    (0 < n)%nat /\
    flag_polls w' = (flag_polls w + n)%nat /\
    500 * (Z.of_nat n - 1) < timeout /\
    (forall i, (i < n - 1)%nat -> flag_feed w path (flag_polls w + i) = false) /\
    flag_feed w path (flag_polls w + (n - 1)) = b /\
    clock w' = clock w + (if b then 500 * (Z.of_nat n - 1) else 500 * Z.of_nat n) /\
    (b = false -> timeout <= 500 * Z.of_nat n) /\
    trace w' = trace w /\ fb_status w' = fb_status w /\
    current_node w' = current_node w.
Proof.
  intros Hpos. unfold _wait_for_flag.
  destruct (wait_loop_runs (loop_fuel timeout 500) path timeout (clock w) w w)
    as (r & w' & E & _ & _).
  { pose proof (loop_fuel_covers timeout 500). lia. }
  { apply evolves_refl. }
  rewrite E. apply wait_loop_spec in E.
  destruct E as (n & Hp & Ht & Hn & Hs & _ & Hr). destruct r as [b|].
  - destruct Hr as (-> & m & -> & Hf & Hlast & Hclk & Hwin).
    exists true, w', (S m). replace (S m - 1)%nat with m by lia.
    split; [reflexivity|]. split; [lia|]. split; [exact Hp|]. split; [lia|].
    split; [exact Hf|]. split; [exact Hlast|]. split; [lia|].
    split; [discriminate|]. auto.
  - destruct Hr as (Hf & Hclk & Hto & Hwin).
    assert (0 < n)%nat as Hn0 by (destruct n; [lia | lia]).
    exists false, w', n.
    split; [reflexivity|]. split; [exact Hn0|]. split; [exact Hp|].
    split; [specialize (Hwin Hn0); lia|].
    split; [intros i Hi; apply Hf; lia|]. split; [apply Hf; lia|].
    split; [exact Hclk|]. split; [intros _; lia|]. auto.
Qed.

Lemma wait_returns_first_true_poll_witness :
  0 < 60000
  /\ exists w',
       wait_for_confirmation "req"
         (world_at "pdt1" (steady (1, 0, 1)) silent demo_uids) = Some (false, w') /\
       flag_polls w' = 120%nat /\ clock w' = 60000.
Proof.
  split; [lia|].
  destruct (wait_returns_first_true_poll
              "/trolleyConfirmations/req/confirmed" 60000
              (world_at "pdt1" (steady (1, 0, 1)) silent demo_uids))
    as (b & w' & n & E & Hn & Hp & Hlast & _ & Hb & Hclk & Hto & _); [lia|].
  cbn in Hb. subst b. specialize (Hto eq_refl). cbn in Hp, Hclk.
  exists w'. split; [exact E|]. split; lia.
Defined.

(** ** The request boundary: events that are turned away *)

(** X11.  An event that fails one of the guards of
    [_handle_new_request_callback] changes nothing: an event that is neither
    a put nor a patch, an event without data, an event whose path ends in the
    empty segment or in [trolleyRequests], and an event for a request whose
    processing flag is True all leave the world as it was: no flag, no
    status, no command, no cart. *)
Theorem rejected_events_change_nothing (event : fb_event) (w : World) :
  (event_type event <> "put" /\ event_type event <> "patch")
  \/ data event = None
  \/ last_segment (path event) = ""
  \/ last_segment (path event) = "trolleyRequests"
  \/ is_processing (last_segment (path event)) w = true ->
  _handle_new_request_callback event w = Some (tt, w).
Proof.
  intros H. unfold _handle_new_request_callback.
  destruct (String.eqb_spec (event_type event) "put") as [Hput|Hput];
    destruct (String.eqb_spec (event_type event) "patch") as [Hpatch|Hpatch];
    cbn [orb]; try reflexivity;
    (destruct (data event) as [d|]; [|reflexivity]);
    (destruct (String.eqb_spec (last_segment (path event)) "") as [|Hne1];
       cbn [orb]; [reflexivity|]);
    (destruct (String.eqb_spec (last_segment (path event)) "trolleyRequests") as [|Hne2];
       [reflexivity|]);
    (destruct (is_processing (last_segment (path event)) w) eqn:Hp; [reflexivity|]);
    exfalso; destruct H as [[H1 H2]|[H|[H|[H|H]]]]; congruence.
Qed.

Lemma rejected_events_change_nothing_witness :
  is_processing "req7"
    (set_processing_status "req7" true
       (world_at "home" (steady (1, 0, 1)) silent demo_uids)) = true
  /\ _handle_new_request_callback
       (mkEvent "put" "/req7" (Some (ReqDict None (Some (CartDict {[ "pdt1" := PyInt 2 ]})))))
       (set_processing_status "req7" true
          (world_at "home" (steady (1, 0, 1)) silent demo_uids))
     = Some (tt, set_processing_status "req7" true
                   (world_at "home" (steady (1, 0, 1)) silent demo_uids)).
Proof.
  split; [reflexivity|].
  apply (rejected_events_change_nothing
           (mkEvent "put" "/req7" (Some (ReqDict None (Some (CartDict {[ "pdt1" := PyInt 2 ]})))))).
  right. right. right. right. reflexivity.
Defined.

(** ** The home request *)

(** X12.  A request with [action = 'home'] never ends normally.  After
    [_move_trolley_to_home] has returned, [process_request] reads the
    name [success], which is bound nowhere; the boundary catches the
    NameError, so whatever the return home did, and also when the trolley has
    arrived at home, the request's last status is
    [error:critical_processing_exception] and the last command sent is stop.
    The status [completed] of that branch is not written. *)
Theorem home_request_ends_in_critical_error (event : fb_event)
    (cart : option cart_field) (w : World) :
  event_type event = "put" \/ event_type event = "patch" ->
  data event = Some (ReqDict (Some (PyStr "home")) cart) ->
  last_segment (path event) <> "" ->
  last_segment (path event) <> "trolleyRequests" ->
  is_processing (last_segment (path event)) w = false ->
  exists w1 w',
    _move_trolley_to_home (last_segment (path event))
      (set_processing_status (last_segment (path event)) true w) = Some (tt, w1) /\
    _handle_new_request_callback event w = Some (tt, w') /\
    trace w' = EvSend CMD_STOP
                 :: EvStatus (last_segment (path event))
                      "error:critical_processing_exception"
                 :: trace w1 /\
    fb_status w' !! last_segment (path event)
      = Some "error:critical_processing_exception" /\
    current_node w' = current_node w1 /\
    (current_node w = "home" ->
     current_node w' = "home" /\
     trace w1 = EvStatus (last_segment (path event)) "arrived_at:home"
                  :: EvStatus (last_segment (path event)) "moving_to:home"
                  :: trace w).
Proof.
  intros Htype Hdata Hne1 Hne2 Hproc.
  remember (last_segment (path event)) as rid eqn:Hrid.
  destruct (_move_trolley_to_home_runs rid (set_processing_status rid true w))
    as ([] & w1 & E & _).
  exists w1. eexists. split; [exact E|].
  split.
  { unfold _handle_new_request_callback.
    assert (Ht : String.eqb (event_type event) "put"
                 || String.eqb (event_type event) "patch" = true).
    { destruct Htype as [-> | ->]; reflexivity. }
    rewrite Ht, Hdata, <- Hrid.
    apply String.eqb_neq in Hne1, Hne2. rewrite Hne1, Hne2, Hproc. cbn [orb].
    unfold process_request, bind. rewrite E. reflexivity. }
  cbn. split; [reflexivity|]. split; [apply lookup_insert_eq|].
  split; [reflexivity|].
  intros Hhome. revert E. unfold _move_trolley_to_home. cbn. rewrite Hhome. cbn.
  intros [= <-]. split; [exact Hhome | reflexivity].
Qed.

Lemma home_request_ends_in_critical_error_witness :
  exists w',
    _handle_new_request_callback
      (mkEvent "put" "/trolleyRequests/req7" (Some (ReqDict (Some (PyStr "home")) None)))
      (world_at "pdt1" (steady (1, 0, 1)) silent demo_uids) = Some (tt, w') /\
    fb_status w' !! "req7" = Some "error:critical_processing_exception".
Proof.
  destruct (home_request_ends_in_critical_error
              (mkEvent "put" "/trolleyRequests/req7"
                 (Some (ReqDict (Some (PyStr "home")) None)))
              None (world_at "pdt1" (steady (1, 0, 1)) silent demo_uids))
    as (w1 & w' & _ & E & _ & Hs & _);
    [left; reflexivity | reflexivity | discriminate | discriminate | reflexivity |].
  exists w'. split; [exact E | exact Hs].
Defined.

(** ** What a request reports *)

Lemma replay_app new1 new2 st : replay (new1 ++ new2) st = replay new1 (replay new2 st).
Proof.
  induction new1 as [|[c|s|l|r msg] new1 IH]; cbn; try assumption; try reflexivity.
  rewrite IH. reflexivity.
Qed.

Lemma tells_refl rid w : tells rid w w.
Proof. exists []. repeat split. constructor. Qed.

Lemma tells_step rid w0 w w1 e :
  request_event rid e ->
  trace w1 = e :: trace w -> fb_status w1 = replay [e] (fb_status w) ->
  tells rid w0 w -> tells rid w0 w1.
Proof.
  intros He Ht Hs (new & Hn & HF & Hst). exists (e :: new).
  split; [rewrite Ht, Hn; reflexivity|]. split; [constructor; assumption|].
  rewrite Hs, Hst. reflexivity.
Qed.

Lemma tells_same rid w0 w w1 :
  trace w1 = trace w -> fb_status w1 = fb_status w ->
  tells rid w0 w -> tells rid w0 w1.
Proof.
  intros Ht Hs (new & Hn & HF & Hst). exists new. rewrite Ht, Hs. auto.
Qed.

Lemma tells_status rid msg w0 w :
  msg <> "completed" -> tells rid w0 w -> tells rid w0 (update_trolley_status rid msg w).
Proof.
  intros Hm. apply (tells_step rid w0 w _ (EvStatus rid msg));
    [split; auto | reflexivity | reflexivity].
Qed.

Lemma tells_send rid c w0 w : tells rid w0 w -> tells rid w0 (send_command c w).
Proof. apply (tells_step rid w0 w _ (EvSend c)); [exact I | reflexivity | reflexivity]. Qed.

Lemma tells_sleep rid d w0 w : tells rid w0 w -> tells rid w0 (sleep d w).
Proof. apply tells_same; reflexivity. Qed.

Lemma tells_receive_line rid w0 w : tells rid w0 w -> tells rid w0 (snd (receive_line w)).
Proof.
  apply (tells_step rid w0 w _ (EvRecv (fst (receive_line w))));
    [exact I | reflexivity | reflexivity].
Qed.

Lemma tells_read_ir_sensors rid w0 w :
  tells rid w0 w -> tells rid w0 (snd (read_ir_sensors w)).
Proof.
  apply (tells_step rid w0 w _ (EvSensors (fst (read_ir_sensors w))));
    [exact I | reflexivity | reflexivity].
Qed.

Lemma tells_set_current_node rid n w0 w :
  tells rid w0 w -> tells rid w0 (set_current_node n w).
Proof. apply tells_same; reflexivity. Qed.

Lemma tells_set_flag_polls rid n w0 w :
  tells rid w0 w -> tells rid w0 (set_flag_polls n w).
Proof. apply tells_same; reflexivity. Qed.

Lemma tells_set_cart rid r cart w0 w : tells rid w0 w -> tells rid w0 (set_cart r cart w).
Proof. apply tells_same; reflexivity. Qed.

Lemma tells_set_processing_status rid r b w0 w :
  tells rid w0 w -> tells rid w0 (set_processing_status r b w).
Proof. apply tells_same; reflexivity. Qed.

Lemma tells_delete_processing_status rid r w0 w :
  tells rid w0 w -> tells rid w0 (delete_processing_status r w).
Proof. apply tells_same; reflexivity. Qed.

Create HintDb tell.
#[local] Hint Resolve tells_refl tells_send tells_sleep tells_receive_line
  tells_read_ir_sensors tells_set_current_node tells_set_flag_polls tells_set_cart
  tells_set_processing_status tells_delete_processing_status : tell.

(** A status message that starts with another character than [completed],
    or goes on differently, is not [completed]. *)
Ltac not_completed :=
  let H := fresh in
  intros H; cbv [String.append] in H; discriminate H.

#[local] Hint Extern 3 (tells _ _ (update_trolley_status _ _ _)) =>
  apply tells_status; [not_completed|] : tell.

Lemma turn_loop_tells rid fuel start w0 w r w' :
  tells rid w0 w -> turn_loop fuel start w = Some (r, w') -> tells rid w0 w'.
Proof.
  revert w. induction fuel as [|fuel IH]; intros w Hw; rewrite turn_loop_unfold;
    destruct (_ <? _); try discriminate; try (intros [= <- <-]; exact Hw).
  pose proof (tells_read_ir_sensors _ _ _ Hw) as H1.
  destruct (read_ir_sensors w) as [s w1]. cbn [snd] in H1.
  destruct (turn_detect s).
  - intros [= <- <-]. auto with tell.
  - apply IH. auto with tell.
Qed.

Lemma nav_loop_tells fuel uid dest rid start last w0 w r w' :
  tells rid w0 w -> nav_loop fuel uid dest rid start last w = Some (r, w') ->
  tells rid w0 w'.
Proof.
  revert w last. induction fuel as [|fuel IH]; intros w last Hw;
    rewrite nav_loop_unfold;
    destruct (_ <? _); try discriminate; try (intros [= <- <-]; exact Hw).
  pose proof (tells_receive_line _ _ _ Hw) as H1.
  destruct (receive_line w) as [serial_line w1]. cbn [snd] in H1.
  destruct (rfid_uid serial_line) as [received|].
  - destruct (String.eqb _ _).
    + intros [= <- <-]. auto with tell.
    + apply IH. auto with tell.
  - pose proof (tells_read_ir_sensors _ _ _ H1) as H2.
    destruct (read_ir_sensors w1) as [s w2]. cbn [snd] in H2.
    destruct (line_correction_cases (get_state s) last w2) as [[-> _]|[-> _]];
      apply IH; auto with tell.
Qed.

Lemma reverse_loop_tells fuel uid dest rid start w0 w r w' :
  tells rid w0 w -> reverse_loop fuel uid dest rid start w = Some (r, w') ->
  tells rid w0 w'.
Proof.
  revert w. induction fuel as [|fuel IH]; intros w Hw;
    rewrite reverse_loop_unfold;
    destruct (_ <? _); try discriminate; try (intros [= <- <-]; exact Hw).
  pose proof (tells_receive_line _ _ _ Hw) as H1.
  destruct (receive_line w) as [serial_line w1]. cbn [snd] in H1.
  destruct (rfid_uid serial_line) as [received|].
  - destruct (String.eqb _ _).
    + intros [= <- <-]. auto with tell.
    + apply IH. auto with tell.
  - apply IH. auto with tell.
Qed.

Lemma wait_loop_tells rid fuel path timeout start w0 w r w' :
  tells rid w0 w -> wait_loop fuel path timeout start w = Some (r, w') ->
  tells rid w0 w'.
Proof.
  revert w. induction fuel as [|fuel IH]; intros w Hw; rewrite wait_loop_unfold;
    destruct (_ <? _); try discriminate; try (intros [= <- <-]; exact Hw).
  cbn. destruct (flag_feed w path (flag_polls w)).
  - intros [= <- <-]. auto with tell.
  - apply IH. auto with tell.
Qed.

(** *** Composition *)

Lemma reports_ret {A : Type} rid (a : A) : reports rid (ret a).
Proof. intros w0 w a' w' Hw [= <- <-]. exact Hw. Qed.

Lemma reports_bind {A B : Type} rid (m : M A) (k : A -> M B) :
  reports rid m -> (forall a, reports rid (k a)) -> reports rid (bind m k).
Proof.
  intros Hm Hk w0 w b w' Hw. unfold bind.
  destruct (m w) as [[a w1]|] eqn:E; [|discriminate].
  intros E2. eapply Hk; [|exact E2]. eapply Hm; eauto.
Qed.

Lemma reports_exec rid (f : World -> World) :
  (forall w0 w, tells rid w0 w -> tells rid w0 (f w)) -> reports rid (exec f).
Proof. intros Hf w0 w a w' Hw [= <- <-]. auto. Qed.

Lemma reports_exec_status rid msg :
  msg <> "completed" -> reports rid (exec (update_trolley_status rid msg)).
Proof. intros Hm. apply reports_exec. intros. apply tells_status; assumption. Qed.

Lemma reports_exec_send rid c : reports rid (exec (send_command c)).
Proof. apply reports_exec. auto with tell. Qed.

Lemma reports_exec_sleep rid d : reports rid (exec (sleep d)).
Proof. apply reports_exec. auto with tell. Qed.

Lemma reports_if {A : Type} rid (c : bool) (m1 m2 : M A) :
  reports rid m1 -> reports rid m2 -> reports rid (if c then m1 else m2).
Proof. destruct c; auto. Qed.

Lemma reports_if_world {A : Type} rid (c : World -> bool) (m1 m2 : M A) :
  reports rid m1 -> reports rid m2 -> reports rid (fun w => if c w then m1 w else m2 w).
Proof. intros H1 H2 w0 w. destruct (c w); [apply H1 | apply H2]. Qed.

Lemma reports_in_world {A : Type} rid (m : World -> M A) :
  (forall w1, reports rid (m w1)) -> reports rid (fun w => m w w).
Proof. intros H w0 w. apply H. Qed.

Lemma execute_simple_turn_reports cmd rid : reports rid (execute_simple_turn cmd rid).
Proof.
  intros w0 w b w' Hw. unfold execute_simple_turn.
  destruct (turn_loop _ _ _) as [[r w2]|] eqn:E; [|discriminate].
  apply (turn_loop_tells rid _ _ w0) in E; [|auto with tell].
  destruct r as [b'|]; intros [= <- <-]; auto with tell.
Qed.

Lemma navigate_to_node_tells dest rid : reports rid (navigate_to_node dest rid).
Proof.
  intros w0 w b w' Hw. unfold navigate_to_node.
  destruct (String.eqb _ _); [intros [= <- <-]; exact Hw|].
  assert (H0 : tells rid w0 (update_trolley_status rid ("moving_to:" +:+ dest) w))
    by auto with tell.
  destruct (get_expected_uid _ _) as [uid|]; [|intros [= <- <-]; auto with tell].
  assert (Hfinish : forall w1, tells rid w0 w1 ->
            navigate_from_start uid dest rid (send_command CMD_FORWARD w1) = Some (b, w') ->
            tells rid w0 w').
  { intros w1 H1. unfold navigate_from_start.
    destruct (nav_loop _ _ _ _ _ _ _) as [[r w2]|] eqn:E; [|discriminate].
    apply (nav_loop_tells _ _ _ _ _ _ w0) in E; [|auto with tell].
    destruct r as [b'|]; intros [= <- <-]; auto with tell. }
  destruct (_get_turn_for_transition _ _) as [turn|]; [|apply Hfinish; exact H0].
  destruct (execute_simple_turn turn rid _) as [[ok w1]|] eqn:E; [|discriminate].
  apply (execute_simple_turn_reports turn rid w0) in E; [|exact H0].
  destruct ok; [apply Hfinish; exact E | intros [= <- <-]; exact E].
Qed.

Lemma reverse_until_node_reports dest rid : reports rid (reverse_until_node dest rid).
Proof.
  intros w0 w b w' Hw. unfold reverse_until_node.
  destruct (_ || _); [intros [= <- <-]; exact Hw|].
  assert (H0 : tells rid w0 (update_trolley_status rid ("reversing_to:" +:+ dest) w))
    by auto with tell.
  destruct (get_expected_uid _ _) as [uid|]; [|intros [= <- <-]; auto with tell].
  destruct (reverse_loop _ _ _ _ _ _) as [[r w2]|] eqn:E; [|discriminate].
  apply (reverse_loop_tells _ _ _ _ _ w0) in E; [|auto with tell].
  destruct r as [b'|]; intros [= <- <-]; auto with tell.
Qed.

Lemma _wait_for_flag_reports rid path timeout : reports rid (_wait_for_flag path timeout).
Proof.
  intros w0 w b w' Hw. unfold _wait_for_flag.
  destruct (wait_loop _ _ _ _ _) as [[r w2]|] eqn:E; [|discriminate].
  apply (wait_loop_tells rid _ _ _ _ w0) in E; [|exact Hw].
  destruct r as [b'|]; intros [= <- <-]; exact E.
Qed.

(** *** The itinerary *)

Lemma _move_trolley_to_home_reports rid : reports rid (_move_trolley_to_home rid).
Proof.
  intros w0 w a w' Hw. unfold _move_trolley_to_home.
  set (w1 := update_trolley_status rid "moving_to:home" w).
  assert (H1 : tells rid w0 w1) by (unfold w1; auto with tell).
  destruct (String.eqb _ _); [intros [= <- <-]; auto with tell|].
  assert (Hlift : forall m : M unit, reports rid m ->
            m w1 = Some (a, w') -> tells rid w0 w').
  { intros m Hm. apply Hm. exact H1. }
  apply Hlift.
  apply reports_bind.
  { destruct (_ || _); [|apply reports_ret].
    destruct (str_last _); [|apply reports_ret].
    destruct (startswith _ "RBJ"); [apply reverse_until_node_reports|].
    destruct (startswith _ "pdt"); [apply navigate_to_node_tells | apply reports_ret]. }
  intros path_ok. apply reports_bind.
  { apply (reports_if_world rid
             (fun w1 => path_ok && startswith (get_current_node w1) "RFJ"));
      [apply execute_simple_turn_reports | apply reports_ret]. }
  intros path_ok2. apply reports_bind.
  { destruct path_ok2; [|apply (reports_ret rid false)].
    apply (reports_if_world rid
             (fun w1 => negb (String.eqb (get_current_node w1) "home")));
      [apply navigate_to_node_tells | apply reports_ret]. }
  intros path_ok3.
  apply (reports_if_world rid
           (fun w1 => path_ok3 && String.eqb (get_current_node w1) "home")
           (exec (update_trolley_status rid "arrived_at:home")) (ret tt));
    [apply reports_exec_status; not_completed | apply reports_ret].
Qed.

Lemma visit_products_reports rid l : reports rid (visit_products rid l).
Proof.
  induction l as [|product_id rest IH]; [apply reports_ret|].
  cbn [visit_products].
  apply (reports_in_world rid (fun w0 =>
    exec (update_trolley_status rid ("moving_to_product:" +:+ product_id)) ;;
    let* ok := navigate_to_node product_id rid in
    if negb ok then ret false else
    exec (update_trolley_status rid
            ("waiting_for_item:" +:+ product_id +:+ ":" +:+ get_product_name product_id w0)) ;;
    let* ok := wait_for_confirmation rid in
    if negb ok then
      exec (update_trolley_status rid ("error:item_confirmation_failed:" +:+ product_id)) ;;
      exec (send_command CMD_STOP) ;;
      ret false
    else
      exec (update_trolley_status rid ("item_added:" +:+ product_id)) ;;
      visit_products rid rest)).
  intros w1.
  apply reports_bind; [apply reports_exec_status; not_completed|]. intros _.
  apply reports_bind; [apply navigate_to_node_tells|]. intros ok.
  apply reports_if; [apply reports_ret|].
  apply reports_bind; [apply reports_exec_status; not_completed|]. intros _.
  apply reports_bind; [apply _wait_for_flag_reports|]. intros ok2.
  apply reports_if.
  - apply reports_bind; [apply reports_exec_status; not_completed|]. intros _.
    apply reports_bind; [apply reports_exec_send|]. intros _. apply reports_ret.
  - apply reports_bind; [apply reports_exec_status; not_completed|]. intros _.
    exact IH.
Qed.

Lemma _process_row_reports rid product_list row_number is_last_row :
  reports rid (_process_row rid product_list row_number is_last_row).
Proof.
  unfold _process_row.
  apply reports_bind; [apply reports_exec_status; not_completed|]. intros _.
  apply reports_bind; [apply navigate_to_node_tells|]. intros ok.
  apply reports_if; [apply reports_ret|].
  apply reports_bind; [apply reports_exec_send|]. intros _.
  apply reports_bind; [apply reports_exec_sleep|]. intros _.
  apply reports_bind; [apply reports_exec_send|]. intros _.
  apply reports_bind; [apply reports_exec_sleep|]. intros _.
  apply reports_bind; [apply execute_simple_turn_reports|]. intros ok2.
  apply reports_if; [apply reports_ret|].
  apply reports_bind; [apply visit_products_reports|]. intros ok3.
  apply reports_if; [apply reports_ret|].
  apply reports_bind; [apply navigate_to_node_tells|]. intros ok4.
  apply reports_if; [apply reports_ret|].
  apply reports_if; [|apply reports_ret].
  apply reports_bind; [apply execute_simple_turn_reports|]. intros ok5.
  apply reports_if; apply reports_ret.
Qed.

Lemma process_rows_reports rid p row_nums navigation_ok :
  reports rid (process_rows rid p row_nums navigation_ok).
Proof.
  revert navigation_ok. induction row_nums as [|row_num rest IH]; intros navigation_ok;
    [apply reports_ret|].
  cbn [process_rows]. destruct (rows_get row_num (products_by_row p)); [apply IH|].
  apply reports_bind; [apply _process_row_reports|]. intros ok.
  apply reports_if; [apply reports_ret | apply IH].
Qed.

Lemma process_shopping_list_reports rid items : reports rid (process_shopping_list rid items).
Proof.
  unfold process_shopping_list.
  apply reports_bind; [apply reports_exec_status; not_completed|]. intros _.
  apply (reports_in_world rid (fun w0 =>
    exec (set_cart rid (merge_cart items (get_cart rid w0))) ;;
    match valid_products_in_cart (partition_cart (merge_cart items (get_cart rid w0))) with
    | [] => exec (update_trolley_status rid "completed_empty_cart") ;;
            _move_trolley_to_home rid
    | _ =>
        let* navigation_ok :=
          process_rows rid (partition_cart (merge_cart items (get_cart rid w0)))
            (sorted_by Z.leb
               (fst <$> products_by_row (partition_cart (merge_cart items (get_cart rid w0)))))
            true in
        if navigation_ok then
          exec (update_trolley_status rid "waiting_for_home_confirmation") ;;
          let* confirmed := wait_for_home_confirmation rid in
          if negb confirmed then
            exec (update_trolley_status rid "error:home_confirmation_failed") ;;
            exec (send_command CMD_STOP)
          else
            exec (update_trolley_status rid "returning_home") ;;
            _move_trolley_to_home rid
        else ret tt
    end)).
  intros w1.
  apply reports_bind; [apply reports_exec; auto with tell|]. intros _.
  destruct (valid_products_in_cart _).
  - apply reports_bind; [apply reports_exec_status; not_completed|]. intros _.
    apply _move_trolley_to_home_reports.
  - apply reports_bind; [apply process_rows_reports|]. intros ok.
    apply reports_if; [|apply reports_ret].
    apply reports_bind; [apply reports_exec_status; not_completed|]. intros _.
    apply reports_bind; [apply _wait_for_flag_reports|]. intros confirmed.
    apply reports_if.
    + apply reports_bind; [apply reports_exec_status; not_completed|]. intros _.
      apply reports_exec_send.
    + apply reports_bind; [apply reports_exec_status; not_completed|]. intros _.
      apply _move_trolley_to_home_reports.
Qed.

Lemma process_request_reports rid data : reports rid (process_request rid data).
Proof.
  unfold process_request. destruct data as [action cart|]; [|apply reports_ret].
  assert (Hhome : reports rid (_move_trolley_to_home rid ;; ret (Raised "NameError"))).
  { apply reports_bind; [apply _move_trolley_to_home_reports | intros; apply reports_ret]. }
  assert (Hrest : reports rid
            match cart with
            | Some (CartDict items) => process_shopping_list rid items ;; ret Normal
            | _ => exec (update_trolley_status rid "error:invalid_request_format") ;;
                   ret Normal
            end).
  { destruct cart as [[items|]|];
      (apply reports_bind; [|intros; apply reports_ret]);
      [apply process_shopping_list_reports | |];
      apply reports_exec_status; not_completed. }
  destruct action as [[| | | |s|]|]; try exact Hrest.
  destruct s as [|a s]; [exact Hrest|].
  repeat match goal with
         | |- reports _ (match ?x with _ => _ end) =>
             first [ is_var x; destruct x | exact Hhome | exact Hrest ]
         end; first [exact Hhome | exact Hrest].
Qed.

Lemma replay_other rid new st r :
  Forall (request_event rid) new -> r <> rid -> replay new st !! r = st !! r.
Proof.
  intros HF Hr. induction HF as [|[c|s|l|r' msg] new He HF IH]; cbn; try assumption;
    [reflexivity|].
  destruct He as [-> _]. rewrite lookup_insert_ne by congruence. exact IH.
Qed.

Lemma replay_not_completed rid new st r :
  Forall (request_event rid) new ->
  replay new st !! r = Some "completed" -> st !! r = Some "completed".
Proof.
  intros HF. induction HF as [|[c|s|l|r' msg] new He HF IH]; cbn; try assumption;
    [auto|].
  destruct He as [-> Hm]. destruct (decide (r = rid)) as [->|Hne].
  - rewrite lookup_insert_eq. congruence.
  - rewrite lookup_insert_ne by congruence. exact IH.
Qed.

Lemma process_request_carts rid data w o w' :
  process_request rid data w = Some (o, w') ->
  forall r, r <> rid -> fb_carts w' !! r = fb_carts w !! r.
Proof.
  set (K := fun m : M outcome =>
              forall o w', m w = Some (o, w') ->
                           forall r, r <> rid -> fb_carts w' !! r = fb_carts w !! r).
  assert (Hhome : K (_move_trolley_to_home rid ;; ret (Raised "NameError"))).
  { intros o1 w1. unfold bind.
    destruct (_move_trolley_to_home_runs rid w) as ([] & w2 & -> & [He _]).
    intros [= <- <-] r _. rewrite (ev_carts _ _ He). reflexivity. }
  assert (Hbad : K (exec (update_trolley_status rid "error:invalid_request_format") ;;
                    ret Normal)).
  { intros o1 w1 [= <- <-]. reflexivity. }
  assert (Hlist : forall items, K (process_shopping_list rid items ;; ret Normal)).
  { intros items o1 w1. unfold bind.
    destruct (process_shopping_list_spec rid items w) as (w2 & -> & Hc & _).
    intros [= <- <-] r Hr. rewrite Hc. apply lookup_insert_ne. congruence. }
  revert o w'. change (K (process_request rid data)).
  destruct data as [action cart|]; [|intros o1 w1 [= <- <-]; reflexivity].
  unfold process_request.
  repeat match goal with
         | |- context [match ?x with _ => _ end] => destruct x
         end;
    first [exact Hhome | exact Hbad | apply Hlist].
Qed.

(** X13.  Requests are isolated from one another, and none is ever reported
    [completed].  For every event and every world
    [_handle_new_request_callback] returns; every status it has reported is
    written to the status entry of the event's own request id and is not
    [completed] (the only statement that writes it follows the read of an
    unbound name); the status, the cart and the processing flag of every
    other request are what they were, and an entry that reads [completed]
    afterwards read so before. *)
Theorem requests_are_isolated (event : fb_event) (w : World) :
  exists w',
    _handle_new_request_callback event w = Some (tt, w') /\
    (exists new, trace w' = new ++ trace w /\
                 Forall (request_event (last_segment (path event))) new) /\
    (forall r, r <> last_segment (path event) ->
               fb_status w' !! r = fb_status w !! r /\
               fb_carts w' !! r = fb_carts w !! r /\
               fb_processing w' !! r = fb_processing w !! r) /\
    (forall r, fb_status w' !! r = Some "completed" ->
               fb_status w !! r = Some "completed").
Proof.
  set (rid := last_segment (path event)).
  assert (Hsame : exists w',
            Some (tt, w) = Some (tt, w') /\
            (exists new, trace w' = new ++ trace w /\ Forall (request_event rid) new) /\
            (forall r, r <> rid ->
                       fb_status w' !! r = fb_status w !! r /\
                       fb_carts w' !! r = fb_carts w !! r /\
                       fb_processing w' !! r = fb_processing w !! r) /\
            (forall r, fb_status w' !! r = Some "completed" ->
                       fb_status w !! r = Some "completed")).
  { exists w. split; [reflexivity|]. split; [exists []; split; [reflexivity | constructor]|].
    split; auto. }
  unfold _handle_new_request_callback. fold rid.
  destruct (_ || _); [|exact Hsame].
  destruct (data event) as [event_data|]; [|exact Hsame].
  destruct (_ || _); [exact Hsame|].
  destruct (is_processing rid w); [exact Hsame|]. clear Hsame.
  set (w0 := set_processing_status rid true w).
  destruct (process_request_spec rid event_data w0) as (o & w1 & E & Hp & _).
  rewrite E.
  pose proof (process_request_reports rid event_data w w0 o w1
                ltac:(unfold w0; auto with tell) E) as Ht.
  pose proof (process_request_carts rid event_data w0 o w1 E) as Hc.
  assert (Hfinal : forall w2, tells rid w w2 ->
            fb_carts w2 = fb_carts w1 ->
            fb_processing w2 = delete rid (fb_processing w1) ->
            (exists new, trace w2 = new ++ trace w /\ Forall (request_event rid) new) /\
            (forall r, r <> rid ->
                       fb_status w2 !! r = fb_status w !! r /\
                       fb_carts w2 !! r = fb_carts w !! r /\
                       fb_processing w2 !! r = fb_processing w !! r) /\
            (forall r, fb_status w2 !! r = Some "completed" ->
                       fb_status w !! r = Some "completed")).
  { intros w2 (new & Hn & HF & Hst) Hc2 Hp2. split; [exists new; auto|]. split.
    - intros r Hr. split; [rewrite Hst; apply (replay_other rid); assumption|].
      split; [rewrite Hc2; apply Hc; exact Hr|].
      rewrite Hp2, Hp. cbn. rewrite lookup_delete_ne by congruence.
      apply lookup_insert_ne. congruence.
    - intros r. rewrite Hst. apply (replay_not_completed rid). exact HF. }
  destruct o as [|exc]; eexists; (split; [reflexivity|]); apply Hfinal;
    try reflexivity; auto with tell.
Qed.

(** ** The way home from a product *)

Lemma navigate_to_node_first_report dest rid w :
  current_node w <> dest ->
  exists b w1,
    navigate_to_node dest rid w = Some (b, w1) /\
    evolves (update_trolley_status rid ("moving_to:" +:+ dest) w) w1 /\
    (get_expected_uid dest w = None ->
     b = false /\
     w1 = update_trolley_status rid ("error:no_uid:" +:+ dest)
            (update_trolley_status rid ("moving_to:" +:+ dest) w)).
Proof.
  intros Hne. destruct (navigate_to_node_runs dest rid w) as (b & w1 & E & _).
  exists b, w1. split; [exact E|]. revert E. unfold navigate_to_node.
  destruct (String.eqb_spec (current_node w) dest) as [|_]; [contradiction|].
  set (w0 := update_trolley_status rid ("moving_to:" +:+ dest) w).
  change (get_expected_uid dest w0) with (get_expected_uid dest w).
  destruct (get_expected_uid dest w) as [uid|].
  - intros E. split; [|discriminate].
    destruct (_get_turn_for_transition _ _) as [turn|].
    + destruct (execute_simple_turn turn rid w0) as [[ok w2]|] eqn:E2; [|discriminate].
      apply (execute_simple_turn_evolves w0) in E2; [|apply evolves_refl].
      destruct ok; [|injection E as <- <-; exact E2].
      eapply navigate_from_start_evolves; [|exact E]. auto with evo.
    + eapply navigate_from_start_evolves; [|exact E]. auto with evo.
  - intros [= <- <-]. split; [auto with evo | auto].
Qed.

(** X14.  From a product node the return home heads for the junction named
    after the last character of the node's name.  With the trolley at a node
    whose name starts with [pdt] and ends in [c], [_move_trolley_to_home]
    reports [moving_to:home] and then sets out for [RFJ<c>]: for [pdt5] that
    is [RFJ5], not the front junction [RFJ2] of the row [PRODUCT_ROWS] gives
    the product.  When the registry gives that name no UID the call ends
    there: it reports [error:no_uid:RFJ<c>], sends no command, lets no time
    pass and leaves the position at the product; and this is so whenever the
    registry resolves names of [NODE_MAPPING] only and [RFJ<c>] is not one of
    them, as for [pdt4] to [pdt9]. *)
Theorem return_home_heads_for_name_digit (node rid : string) (c : ascii) (w : World) :
  current_node w = node ->
  startswith node "pdt" = true ->
  str_last node = Some c ->
  exists w',
    _move_trolley_to_home rid w = Some (tt, w') /\
    (exists new,
       trace w' = new ++ EvStatus rid ("moving_to:RFJ" +:+ String c "")
                    :: EvStatus rid "moving_to:home" :: trace w) /\
    (get_expected_uid ("RFJ" +:+ String c "") w = None
     \/ registry_within_mapping w /\ dict_mem ("RFJ" +:+ String c "") NODE_MAPPING = false ->
     trace w' = EvStatus rid ("error:no_uid:RFJ" +:+ String c "")
                  :: EvStatus rid ("moving_to:RFJ" +:+ String c "")
                  :: EvStatus rid "moving_to:home" :: trace w /\
     current_node w' = node /\ clock w' = clock w).
Proof.
  intros Hnode Hpdt Hlast.
  pose proof Hpdt as Hpre. apply startswith_inv in Hpre as [rest Hrest].
  assert (Hrbj : startswith node "RBJ" = false) by (rewrite Hrest; reflexivity).
  assert (Hhome : String.eqb node "home" = false) by (rewrite Hrest; reflexivity).
  assert (Hne : node <> "RFJ" +:+ String c "") by (rewrite Hrest; discriminate).
  unfold _move_trolley_to_home.
  set (w0 := update_trolley_status rid "moving_to:home" w).
  change (get_current_node w0) with (current_node w).
  rewrite Hnode, Hhome, Hpdt, Hrbj, Hlast. cbn [orb].
  match goal with |- exists w', bind _ ?k w0 = _ /\ _ =>
    assert (Htail : forall b, runs (k b)); [|set (tail := k) in *] end.
  { intros path_ok. apply runs_bind.
    { apply (runs_if_world (fun w1 => path_ok && startswith (get_current_node w1) "RFJ"));
        [apply execute_simple_turn_runs | apply runs_ret]. }
    intros path_ok2. apply runs_bind.
    { destruct path_ok2; [|apply (runs_ret false)].
      apply (runs_if_world (fun w1 => negb (String.eqb (get_current_node w1) "home")));
        [apply navigate_to_node_runs | apply runs_ret]. }
    intros path_ok3.
    apply (runs_if_world (fun w1 => path_ok3 && String.eqb (get_current_node w1) "home")
             (exec (update_trolley_status rid "arrived_at:home")) (ret tt));
      [apply runs_exec_status | apply runs_ret]. }
  destruct (navigate_to_node_first_report ("RFJ" +:+ String c "") rid w0)
    as (b & w1 & E & He & Hnone).
  { change (current_node w0) with (current_node w). rewrite Hnode. exact Hne. }
  destruct (Htail b w1) as ([] & w' & E2 & [He2 _]).
  exists w'. split; [unfold bind; rewrite E; exact E2|]. split.
  { destruct (ev_trace _ _ He) as (new1 & H1). destruct (ev_trace _ _ He2) as (new2 & H2).
    exists (new2 ++ new1). rewrite H2, H1, <- app_assoc. reflexivity. }
  intros Hreg.
  assert (Huid : get_expected_uid ("RFJ" +:+ String c "") w = None).
  { destruct Hreg as [H|[Hreg Hmem]]; [exact H|].
    destruct (get_expected_uid _ w) as [uid|] eqn:Huid; [|reflexivity].
    rewrite (Hreg ("RFJ" +:+ String c "")) in Hmem; [discriminate|].
    rewrite Huid. eexists. reflexivity. }
  destruct (Hnone Huid) as [-> ->].
  unfold tail, bind, ret in E2. cbn in E2. injection E2 as <-.
  cbn. auto.
Qed.

Lemma return_home_heads_for_name_digit_witness :
  exists w',
    _move_trolley_to_home "req"
      (world_at "pdt5" (steady (1, 0, 1)) silent demo_uids) = Some (tt, w') /\
    trace w' = [EvStatus "req" "error:no_uid:RFJ5"; EvStatus "req" "moving_to:RFJ5";
                EvStatus "req" "moving_to:home"] /\
    current_node w' = "pdt5".
Proof.
  destruct (return_home_heads_for_name_digit "pdt5" "req" "5"
              (world_at "pdt5" (steady (1, 0, 1)) silent demo_uids)
              eq_refl eq_refl eq_refl)
    as (w' & E & _ & H).
  exists w'. split; [exact E|].
  destruct H as (Ht & Hc & _); [left; reflexivity|].
  split; [exact Ht | exact Hc].
Defined.

(** ** How calls and requests end *)

Lemma hoare_ret {A : Type} (P : World -> Prop) (a : A) (Q : A -> World -> Prop) :
  (forall w, P w -> Q a w) -> hoare P (ret a) Q.
Proof. intros H w a' w' HP [= <- <-]. auto. Qed.

Lemma hoare_bind {A B : Type} (P : World -> Prop) (m : M A) (R : A -> World -> Prop)
    (k : A -> M B) (Q : B -> World -> Prop) :
  hoare P m R -> (forall a, hoare (R a) (k a) Q) -> hoare P (bind m k) Q.
Proof.
  intros Hm Hk w b w' HP. unfold bind.
  destruct (m w) as [[a w1]|] eqn:E; [|discriminate].
  apply (Hk a). eapply Hm; eauto.
Qed.

Lemma hoare_exec (P : World -> Prop) (f : World -> World) (Q : unit -> World -> Prop) :
  (forall w, P w -> Q tt (f w)) -> hoare P (exec f) Q.
Proof. intros H w a w' HP [= <- <-]. auto. Qed.

Lemma hoare_weaken {A : Type} (P P' : World -> Prop) (m : M A) (Q Q' : A -> World -> Prop) :
  hoare P m Q -> (forall w, P' w -> P w) -> (forall a w, Q a w -> Q' a w) ->
  hoare P' m Q'.
Proof. intros H HP HQ w a w' HP' E. eapply HQ, H; eauto. Qed.

Lemma hoare_if {A : Type} (P : World -> Prop) (c : bool) (m1 m2 : M A)
    (Q : A -> World -> Prop) :
  (c = true -> hoare P m1 Q) -> (c = false -> hoare P m2 Q) ->
  hoare P (if c then m1 else m2) Q.
Proof. destruct c; auto. Qed.

Lemma hoare_if_world {A : Type} (P : World -> Prop) (c : World -> bool) (m1 m2 : M A)
    (Q : A -> World -> Prop) :
  hoare (fun w => P w /\ c w = true) m1 Q ->
  hoare (fun w => P w /\ c w = false) m2 Q ->
  hoare P (fun w => if c w then m1 w else m2 w) Q.
Proof.
  intros H1 H2 w a w' HP. destruct (c w) eqn:Hc; [apply H1 | apply H2]; auto.
Qed.

Lemma hoare_in_world {A : Type} (P : World -> Prop) (m : World -> M A)
    (Q : A -> World -> Prop) :
  (forall w1, hoare P (m w1) Q) -> hoare P (fun w => m w w) Q.
Proof. intros H w. apply H. Qed.

Lemma reported_error_status rid msg w :
  startswith msg "error:" = true -> reported_error rid (update_trolley_status rid msg w).
Proof. intros H. exists msg. split; [apply lookup_insert_eq | exact H]. Qed.

Lemma reported_error_same rid w w' :
  fb_status w' = fb_status w -> reported_error rid w -> reported_error rid w'.
Proof. intros H (msg & Hm & Hs). exists msg. rewrite H. auto. Qed.

(** A turn leaves the position alone and fails only with an error report. *)
Lemma execute_simple_turn_outcome cmd rid w b w' :
  execute_simple_turn cmd rid w = Some (b, w') ->
  current_node w' = current_node w /\ (b = false -> reported_error rid w').
Proof.
  unfold execute_simple_turn.
  destruct (turn_loop _ _ _) as [[r w2]|] eqn:E; [|discriminate].
  apply turn_loop_spec in E. destruct E as (n & _ & Hc & _ & _ & Hr).
  destruct r as [b'|]; intros [= <- <-].
  - destruct Hr as (-> & _). split; [exact Hc | discriminate].
  - split; [exact Hc|]. intros _. apply reported_error_status. reflexivity.
Qed.

(** A navigation ends at its destination or fails, where it was, with an
    error report. *)
Lemma navigate_to_node_outcome dest rid w b w' :
  navigate_to_node dest rid w = Some (b, w') ->
  if b then current_node w' = dest
  else current_node w' = current_node w /\ reported_error rid w'.
Proof.
  unfold navigate_to_node.
  destruct (String.eqb_spec (current_node w) dest) as [Heq|_];
    [intros [= <- <-]; exact Heq|].
  set (w0 := update_trolley_status rid ("moving_to:" +:+ dest) w).
  destruct (get_expected_uid dest w0) as [uid|].
  2:{ intros [= <- <-]. split; [reflexivity|]. apply reported_error_status. reflexivity. }
  assert (Hfinish : forall w1, current_node w1 = current_node w ->
            navigate_from_start uid dest rid (send_command CMD_FORWARD w1) = Some (b, w') ->
            if b then current_node w' = dest
            else current_node w' = current_node w /\ reported_error rid w').
  { intros w1 Hc1. unfold navigate_from_start.
    destruct (nav_loop _ _ _ _ _ _ _) as [[r w2]|] eqn:E; [|discriminate].
    apply nav_loop_spec in E. destruct E as (n & _ & Hr).
    destruct r as [b'|]; intros [= <- <-].
    - destruct Hr as (-> & _ & _ & _ & Hd & _). exact Hd.
    - destruct Hr as (_ & Hc & _). split; [cbn; rewrite Hc; exact Hc1|].
      apply reported_error_status. reflexivity. }
  destruct (_get_turn_for_transition _ _) as [turn|]; [|apply Hfinish; reflexivity].
  destruct (execute_simple_turn turn rid w0) as [[ok w1]|] eqn:E; [|discriminate].
  apply execute_simple_turn_outcome in E. destruct E as [Hc Hf].
  destruct ok; [apply Hfinish; exact Hc|].
  intros [= <- <-]. split; [exact Hc | auto].
Qed.

(** So does a reversal that is neither from nor to home. *)
Lemma reverse_until_node_outcome dest rid w b w' :
  current_node w <> "home" -> dest <> "home" ->
  reverse_until_node dest rid w = Some (b, w') ->
  if b then current_node w' = dest
  else current_node w' = current_node w /\ reported_error rid w'.
Proof.
  intros Hh Hd. unfold reverse_until_node.
  destruct (String.eqb_spec (current_node w) "home") as [|_]; [contradiction|].
  destruct (String.eqb_spec dest "home") as [|_]; [contradiction|]. cbn [orb].
  destruct (get_expected_uid dest _) as [uid|].
  2:{ intros [= <- <-]. split; [reflexivity|]. apply reported_error_status. reflexivity. }
  destruct (reverse_loop _ _ _ _ _ _) as [[r w2]|] eqn:E; [|discriminate].
  apply reverse_loop_spec in E. destruct E as (n & _ & Hr).
  destruct r as [b'|]; intros [= <- <-].
  - destruct Hr as (-> & _ & _ & _ & Hc & _). exact Hc.
  - destruct Hr as (_ & Hc & _). split; [exact Hc|].
    apply reported_error_status. reflexivity.
Qed.

Lemma str_last_None s : str_last s = None -> s = "".
Proof.
  induction s as [|a s IH]; [reflexivity|]. cbn.
  destruct s as [|b s]; [discriminate|]. intros H. apply IH in H. discriminate.
Qed.

(** The return home ends at home, saying so, or away from home with an error
    report. *)
Lemma _move_trolley_to_home_outcome rid :
  hoare (fun _ => True) (_move_trolley_to_home rid)
        (fun _ w' => reported_home rid w'
                     \/ current_node w' <> "home" /\ reported_error rid w').
Proof.
  intros w a w' _. unfold _move_trolley_to_home, get_current_node.
  set (w0 := update_trolley_status rid "moving_to:home" w).
  destruct (String.eqb_spec (current_node w0) "home") as [Hhome|Hn0].
  { intros [= <- <-]. left. split; [exact Hhome | apply lookup_insert_eq]. }
  set (n0 := current_node w0) in *.
  set (R := fun (b : bool) (w1 : World) =>
              current_node w1 <> "home" /\ (b = false -> reported_error rid w1)).
  set (R3 := fun (b : bool) (w1 : World) =>
               b = true /\ current_node w1 = "home"
               \/ b = false /\ current_node w1 <> "home" /\ reported_error rid w1).
  assert (Hlift : forall m : M unit,
            hoare (fun w1 => current_node w1 = n0) m
                  (fun _ w' => reported_home rid w'
                               \/ current_node w' <> "home" /\ reported_error rid w') ->
            m w0 = Some (a, w') ->
            reported_home rid w' \/ current_node w' <> "home" /\ reported_error rid w').
  { intros m Hm. apply Hm. reflexivity. }
  apply Hlift. clear Hlift. apply (hoare_bind _ _ R).
  { destruct (startswith n0 "pdt" || startswith n0 "RBJ") eqn:Hor.
    2:{ apply hoare_ret. intros w1 H1. split; [rewrite H1; exact Hn0 | discriminate]. }
    destruct (str_last n0) as [c|] eqn:Hl.
    2:{ apply str_last_None in Hl. rewrite Hl in Hor. discriminate. }
    assert (Hmove : forall (b : bool) w1 w2,
              current_node w1 = n0 ->
              (if b then current_node w2 = "RFJ" +:+ String c ""
               else current_node w2 = current_node w1 /\ reported_error rid w2) ->
              R b w2).
    { intros b w1 w2 H1 H. destruct b.
      - split; [rewrite H; discriminate | discriminate].
      - destruct H as [Hc He]. split; [rewrite Hc, H1; exact Hn0 | auto]. }
    destruct (startswith n0 "RBJ").
    - intros w1 b w2 H1 E. apply (Hmove b w1 w2 H1).
      apply reverse_until_node_outcome in E; [exact E | rewrite H1; exact Hn0 | discriminate].
    - destruct (startswith n0 "pdt").
      + intros w1 b w2 H1 E. apply (Hmove b w1 w2 H1).
        apply navigate_to_node_outcome in E. exact E.
      + apply hoare_ret. intros w1 H1. split; [rewrite H1; exact Hn0 | discriminate]. }
  intros path_ok. apply (hoare_bind _ _ R).
  { apply (hoare_if_world (R path_ok)
             (fun w1 => path_ok && startswith (current_node w1) "RFJ")).
    - intros w1 b w2 [[Hc _] _] E. apply execute_simple_turn_outcome in E.
      destruct E as [Hc2 He]. split; [rewrite Hc2; exact Hc | exact He].
    - apply hoare_ret. intros w1 [H _]. exact H. }
  intros path_ok2. apply (hoare_bind _ _ R3).
  { destruct path_ok2.
    - apply (hoare_if_world (R true)
               (fun w1 => negb (String.eqb (current_node w1) "home"))).
      + intros w1 b w2 [[Hc _] _] E. apply navigate_to_node_outcome in E.
        destruct b; [left; auto|]. destruct E as [Hc2 He].
        right. split; [reflexivity|]. split; [rewrite Hc2; exact Hc | exact He].
      + apply hoare_ret. intros w1 [[Hc _] Heq]. exfalso. apply Hc.
        apply String.eqb_eq. destruct (String.eqb _ _); [reflexivity | discriminate].
    - apply (hoare_ret (R false) false). intros w1 [Hc He]. right. auto. }
  intros path_ok3 w1 u w2 HR3.
  destruct HR3 as [[-> Hc]|[-> [Hc He]]].
  - rewrite Hc. cbn. intros [= <- <-]. left. split; [exact Hc | apply lookup_insert_eq].
  - cbn [andb]. intros [= <- <-]. right. auto.
Qed.

Lemma visit_products_outcome rid l :
  hoare (fun _ => True) (visit_products rid l)
        (fun b w' => b = false -> reported_error rid w').
Proof.
  induction l as [|product_id rest IH]; [apply hoare_ret; discriminate|].
  cbn [visit_products].
  apply (hoare_in_world _ (fun w0 =>
    exec (update_trolley_status rid ("moving_to_product:" +:+ product_id)) ;;
    let* ok := navigate_to_node product_id rid in
    if negb ok then ret false else
    exec (update_trolley_status rid
            ("waiting_for_item:" +:+ product_id +:+ ":" +:+ get_product_name product_id w0)) ;;
    let* ok := wait_for_confirmation rid in
    if negb ok then
      exec (update_trolley_status rid ("error:item_confirmation_failed:" +:+ product_id)) ;;
      exec (send_command CMD_STOP) ;;
      ret false
    else
      exec (update_trolley_status rid ("item_added:" +:+ product_id)) ;;
      visit_products rid rest)).
  intros w1.
  apply (hoare_bind _ _ (fun _ _ => True)); [apply hoare_exec; auto|]. intros _.
  apply (hoare_bind _ _ (fun (b : bool) w' => b = false -> reported_error rid w')).
  { intros w2 b w3 _ E. apply navigate_to_node_outcome in E.
    destruct b; [discriminate | intros _; apply E]. }
  intros ok. destruct ok; cbn [negb].
  2:{ apply hoare_ret. auto. }
  apply (hoare_bind _ _ (fun _ _ => True)); [apply hoare_exec; auto|]. intros _.
  apply (hoare_bind _ _ (fun _ _ => True)); [intros ? ? ? ? ?; exact I|]. intros ok2.
  destruct ok2; cbn [negb].
  - apply (hoare_bind _ _ (fun _ _ => True)); [apply hoare_exec; auto|]. intros _.
    exact IH.
  - apply (hoare_bind _ _ (fun _ w' => reported_error rid w')).
    { apply hoare_exec. intros w2 _. apply reported_error_status. reflexivity. }
    intros _. apply (hoare_bind _ _ (fun _ w' => reported_error rid w')).
    { apply hoare_exec. intros w2 He. eapply reported_error_same; [|exact He]. reflexivity. }
    intros _. apply hoare_ret. auto.
Qed.

Lemma _process_row_outcome rid product_list row_number is_last_row :
  hoare (fun _ => True) (_process_row rid product_list row_number is_last_row)
        (fun b w' => if b then current_node w' = "RBJ" +:+ str_of_int row_number
                     else reported_error rid w').
Proof.
  unfold _process_row.
  apply (hoare_bind _ _ (fun _ _ => True)); [apply hoare_exec; auto|]. intros _.
  apply (hoare_bind _ _ (fun (b : bool) w' => b = false -> reported_error rid w')).
  { intros w2 b w3 _ E. apply navigate_to_node_outcome in E.
    destruct b; [discriminate | intros _; apply E]. }
  intros ok. destruct ok; cbn [negb]; [|apply hoare_ret; auto].
  do 4 (apply (hoare_bind _ _ (fun _ _ => True)); [apply hoare_exec; auto|]; intros _).
  apply (hoare_bind _ _ (fun (b : bool) w' => b = false -> reported_error rid w')).
  { intros w2 b w3 _ E. apply execute_simple_turn_outcome in E. apply E. }
  intros ok2. destruct ok2; cbn [negb]; [|apply hoare_ret; auto].
  apply (hoare_bind _ _ (fun (b : bool) w' => b = false -> reported_error rid w')).
  { eapply hoare_weaken; [apply visit_products_outcome | intros; exact I | intros b w1 H; exact H]. }
  intros ok3. destruct ok3; cbn [negb]; [|apply hoare_ret; auto].
  apply (hoare_bind _ _
           (fun (b : bool) w' => if b then current_node w' = "RBJ" +:+ str_of_int row_number
                                 else reported_error rid w')).
  { intros w2 b w3 _ E. apply navigate_to_node_outcome in E.
    destruct b; [exact E | apply E]. }
  intros ok4. destruct ok4; cbn [negb]; [|apply hoare_ret; auto].
  destruct is_last_row; cbn [negb]; [apply hoare_ret; auto|].
  apply (hoare_bind _ _
           (fun (b : bool) w' => if b then current_node w' = "RBJ" +:+ str_of_int row_number
                                 else reported_error rid w')).
  { intros w2 b w3 Hc E. apply execute_simple_turn_outcome in E. destruct E as [Hc2 He].
    destruct b; [rewrite Hc2; exact Hc | auto]. }
  intros ok5. destruct ok5; cbn [negb]; apply hoare_ret; auto.
Qed.

Lemma process_rows_outcome rid p row_nums navigation_ok :
  hoare (fun w => navigation_ok = false -> reported_error rid w)
        (process_rows rid p row_nums navigation_ok)
        (fun b w' => b = false -> reported_error rid w').
Proof.
  revert navigation_ok. induction row_nums as [|row_num rest IH]; intros navigation_ok;
    [apply hoare_ret; auto|].
  cbn [process_rows]. destruct (rows_get row_num (products_by_row p)); [apply IH|].
  apply (hoare_bind _ _ (fun (b : bool) w' => b = false -> reported_error rid w')).
  { eapply hoare_weaken; [apply _process_row_outcome | intros; exact I |].
    intros b w1 H ->. exact H. }
  intros ok. destruct ok; cbn [negb]; [apply IH | apply hoare_ret; auto].
Qed.

Lemma process_shopping_list_outcome rid items :
  hoare (fun _ => True) (process_shopping_list rid items)
        (fun _ w' => reported_home rid w' \/ reported_error rid w').
Proof.
  assert (Hhome : hoare (fun _ => True) (_move_trolley_to_home rid)
                        (fun _ w' => reported_home rid w' \/ reported_error rid w')).
  { eapply hoare_weaken; [apply _move_trolley_to_home_outcome | intros; exact I |].
    intros u w1 [H|[_ H]]; auto. }
  unfold process_shopping_list.
  apply (hoare_bind _ _ (fun _ _ => True)); [apply hoare_exec; auto|]. intros _.
  apply (hoare_in_world _ (fun w0 =>
    exec (set_cart rid (merge_cart items (get_cart rid w0))) ;;
    match valid_products_in_cart (partition_cart (merge_cart items (get_cart rid w0))) with
    | [] => exec (update_trolley_status rid "completed_empty_cart") ;;
            _move_trolley_to_home rid
    | _ =>
        let* navigation_ok :=
          process_rows rid (partition_cart (merge_cart items (get_cart rid w0)))
            (sorted_by Z.leb
               (fst <$> products_by_row (partition_cart (merge_cart items (get_cart rid w0)))))
            true in
        if navigation_ok then
          exec (update_trolley_status rid "waiting_for_home_confirmation") ;;
          let* confirmed := wait_for_home_confirmation rid in
          if negb confirmed then
            exec (update_trolley_status rid "error:home_confirmation_failed") ;;
            exec (send_command CMD_STOP)
          else
            exec (update_trolley_status rid "returning_home") ;;
            _move_trolley_to_home rid
        else ret tt
    end)).
  intros w1.
  apply (hoare_bind _ _ (fun _ _ => True)); [apply hoare_exec; auto|]. intros _.
  destruct (valid_products_in_cart _).
  - apply (hoare_bind _ _ (fun _ _ => True)); [apply hoare_exec; auto|]. intros _.
    exact Hhome.
  - apply (hoare_bind _ _ (fun (b : bool) w' => b = false -> reported_error rid w')).
    { eapply hoare_weaken;
        [apply process_rows_outcome | intros; discriminate | intros b w2 H; exact H]. }
    intros ok. destruct ok; [|apply hoare_ret; auto].
    apply (hoare_bind _ _ (fun _ _ => True)); [apply hoare_exec; auto|]. intros _.
    apply (hoare_bind _ _ (fun _ _ => True)); [intros ? ? ? ? ?; exact I|].
    intros confirmed. destruct confirmed; cbn [negb].
    + apply (hoare_bind _ _ (fun _ _ => True)); [apply hoare_exec; auto|]. intros _.
      exact Hhome.
    + apply (hoare_bind _ _ (fun _ w' => reported_error rid w')).
      { apply hoare_exec. intros w2 _. apply reported_error_status. reflexivity. }
      intros _. apply hoare_exec. intros w2 He. right.
      eapply reported_error_same; [|exact He]. reflexivity.
Qed.

(** X15.  The return home never ends silently.  From every world
    [_move_trolley_to_home] returns, and then either the trolley is at home
    and the request's status is [arrived_at:home], or the trolley is not at
    home and the request's status is an error report ([error:no_uid],
    [error:turn_timeout], [error:nav_timeout] or [error:reverse_timeout]). *)
Theorem return_home_ends_home_or_in_error (rid : string) (w : World) :
  exists w',
    _move_trolley_to_home rid w = Some (tt, w') /\
    (reported_home rid w'
     \/ current_node w' <> "home" /\ reported_error rid w').
Proof.
  destruct (_move_trolley_to_home_runs rid w) as ([] & w' & E & _).
  exists w'. split; [exact E|].
  exact (_move_trolley_to_home_outcome rid w tt w' I E).
Qed.

(** X16.  A row ends at its back junction or with an error report.  Whatever
    the products, the row and the feeds, [_process_row] returns; when it
    returns True the trolley's position is [RBJ<row>], and when it returns
    False the request's status is an error report: no failure of a
    navigation, a turn or an item confirmation goes unreported. *)
Theorem row_ends_at_back_junction_or_in_error (rid : string)
    (product_list : list string) (row_number : Z) (is_last_row : bool) (w : World) :
  exists b w',
    _process_row rid product_list row_number is_last_row w = Some (b, w') /\
    (if b then current_node w' = "RBJ" +:+ str_of_int row_number
     else reported_error rid w').
Proof.
  destruct (_process_row_runs rid product_list row_number is_last_row w)
    as (b & w' & E & _).
  exists b, w'. split; [exact E|].
  exact (_process_row_outcome rid product_list row_number is_last_row w b w' I E).
Qed.

(** X17.  Every accepted request ends at home or in an error.  For an event
    that passes the guards of [_handle_new_request_callback], when the
    callback has returned either the trolley is at home with the request's
    status [arrived_at:home], or the request's status is an error report.
    The first is possible only for a request whose [cart] is a dict and
    whose action is not [home]: a request of another form, and the home
    request itself, always end in an error report. *)
Theorem accepted_request_ends_home_or_in_error (event : fb_event)
    (event_data : request_data) (w : World) :
  event_type event = "put" \/ event_type event = "patch" ->
  data event = Some event_data ->
  last_segment (path event) <> "" ->
  last_segment (path event) <> "trolleyRequests" ->
  is_processing (last_segment (path event)) w = false ->
  exists w',
    _handle_new_request_callback event w = Some (tt, w') /\
    (reported_home (last_segment (path event)) w'
       /\ (exists action items,
             event_data = ReqDict action (Some (CartDict items))
             /\ action <> Some (PyStr "home"))
     \/ reported_error (last_segment (path event)) w').
Proof.
  intros Htype Hdata Hne1 Hne2 Hproc.
  remember (last_segment (path event)) as rid eqn:Hrid.
  set (w0 := set_processing_status rid true w).
  destruct (process_request_spec rid event_data w0) as (o & w1 & E & _).
  assert (Hcb : _handle_new_request_callback event w =
                match o with
                | Normal => Some (tt, delete_processing_status rid w1)
                | Raised _ =>
                    Some (tt, delete_processing_status rid
                                (send_command CMD_STOP
                                   (update_trolley_status rid
                                      "error:critical_processing_exception" w1)))
                end).
  { unfold _handle_new_request_callback.
    assert (Ht : String.eqb (event_type event) "put"
                 || String.eqb (event_type event) "patch" = true).
    { destruct Htype as [-> | ->]; reflexivity. }
    rewrite Ht, Hdata, <- Hrid.
    apply String.eqb_neq in Hne1, Hne2. rewrite Hne1, Hne2, Hproc. cbn [orb].
    fold w0. rewrite E. destruct o; reflexivity. }
  rewrite Hcb. destruct o as [|exc].
  2:{ eexists. split; [reflexivity|]. right.
      exists "error:critical_processing_exception".
      split; [apply lookup_insert_eq | reflexivity]. }
  eexists. split; [reflexivity|].
  assert (Hkeep : forall w2, reported_home rid w2 \/ reported_error rid w2 ->
            reported_home rid (delete_processing_status rid w2)
            \/ reported_error rid (delete_processing_status rid w2)) by (intros w2 H; exact H).
  revert E. unfold process_request.
  destruct event_data as [action cart|]; [|intros [= ]].
  assert (Hrest : action <> Some (PyStr "home") ->
            match cart with
            | Some (CartDict items) => process_shopping_list rid items ;; ret Normal
            | _ => exec (update_trolley_status rid "error:invalid_request_format") ;;
                   ret Normal
            end w0 = Some (Normal, w1) ->
            reported_home rid (delete_processing_status rid w1)
              /\ (exists action' items,
                    ReqDict action cart = ReqDict action' (Some (CartDict items))
                    /\ action' <> Some (PyStr "home"))
            \/ reported_error rid (delete_processing_status rid w1)).
  { intros Hact. destruct cart as [[items|]|]; unfold bind.
    - destruct (process_shopping_list rid items w0) as [[[] w2]|] eqn:E2; [|discriminate].
      intros [= <-].
      destruct (process_shopping_list_outcome rid items w0 tt w2 I E2) as [H|H].
      + left. split; [exact H|]. exists action, items. auto.
      + right. exact H.
    - intros [= <-]. right. apply reported_error_status. reflexivity.
    - intros [= <-]. right. apply reported_error_status. reflexivity. }
  assert (Hhome : (_move_trolley_to_home rid ;; ret (Raised "NameError")) w0
                    = Some (Normal, w1) -> False).
  { unfold bind. destruct (_move_trolley_to_home rid w0) as [[[] w2]|]; discriminate. }
  destruct action as [[| | | |s|]|]; try (apply Hrest; discriminate).
  destruct (String.eqb_spec s "home") as [->|Hs].
  - intros E. destruct (Hhome E).
  - intros E. apply Hrest; [congruence|]. revert E.
    repeat match goal with
           | |- context [match ?x with _ => _ end] =>
               first [ is_var x; destruct x ]
           end; try (intros E; exact E); try (exfalso; apply Hs; reflexivity).
Qed.

Lemma accepted_request_ends_home_or_in_error_witness :
  exists w',
    _handle_new_request_callback
      (mkEvent "put" "/trolleyRequests/req7"
         (Some (ReqDict None (Some (CartDict {[ "pdt1" := PyInt 2 ]})))))
      (world_at "home" (steady (1, 0, 1)) silent demo_uids) = Some (tt, w') /\
    (reported_home "req7" w' \/ reported_error "req7" w').
Proof.
  destruct (accepted_request_ends_home_or_in_error
              (mkEvent "put" "/trolleyRequests/req7"
                 (Some (ReqDict None (Some (CartDict {[ "pdt1" := PyInt 2 ]})))))
              (ReqDict None (Some (CartDict {[ "pdt1" := PyInt 2 ]})))
              (world_at "home" (steady (1, 0, 1)) silent demo_uids))
    as (w' & E & H);
    [left; reflexivity | reflexivity | discriminate | discriminate | reflexivity |].
  exists w'. split; [exact E|]. destruct H as [[H _]|H]; auto.
Defined.

(** ** The partition of the cart into rows *)

Lemma PRODUCT_ROWS_range pid row :
  dict_get pid PRODUCT_ROWS = Some row -> row = 1 \/ row = 2 \/ row = 3.
Proof.
  unfold PRODUCT_ROWS. cbn.
  repeat match goal with
         | |- context [String.eqb pid ?s] => destruct (String.eqb pid s)
         end; intros [= <-]; auto.
Qed.

Lemma elem_of_insert_sorted {A : Type} (leb : A -> A -> bool) (x y : A) (l : list A) :
  x ∈ insert_sorted leb y l <-> x = y \/ x ∈ l.
Proof.
  induction l as [|z l IH]; cbn.
  - rewrite list_elem_of_singleton, elem_of_nil. tauto.
  - destruct (leb z y); rewrite !elem_of_cons; [rewrite IH|]; tauto.
Qed.

Lemma elem_of_sorted_by {A : Type} (leb : A -> A -> bool) (x : A) (l : list A) :
  x ∈ sorted_by leb l <-> x ∈ l.
Proof.
  unfold sorted_by.
  assert (H : forall acc, x ∈ fold_left (fun acc y => insert_sorted leb y acc) l acc
                          <-> x ∈ l \/ x ∈ acc).
  { induction l as [|y l IH]; intros acc; cbn.
    - rewrite elem_of_nil. tauto.
    - rewrite IH, elem_of_insert_sorted, elem_of_cons. tauto. }
  rewrite H, elem_of_nil. tauto.
Qed.

Lemma elem_of_cart_keys (cart : gmap string Z) pid :
  pid ∈ (fst <$> map_to_list cart) <-> is_Some (cart !! pid).
Proof.
  rewrite list_elem_of_fmap. split.
  - intros ([k v] & -> & H). apply elem_of_map_to_list in H. eauto.
  - intros [v H]. exists (pid, v). split; [reflexivity|].
    apply elem_of_map_to_list. exact H.
Qed.

Lemma partition_step_rows p pid a b c :
  products_by_row p = [(1, a); (2, b); (3, c)] ->
  partition_step p pid =
  match dict_get pid PRODUCT_ROWS with
  | Some row =>
      mkPartition [(1, if row =? 1 then a ++ [pid] else a);
                   (2, if row =? 2 then b ++ [pid] else b);
                   (3, if row =? 3 then c ++ [pid] else c)]
                  (valid_products_in_cart p ++ [pid])
                  (Z.max (highest_row_with_items p) row)
  | None => p
  end.
Proof.
  intros Hrows. unfold partition_step.
  destruct (dict_get pid PRODUCT_ROWS) as [row|] eqn:H; [|reflexivity].
  apply PRODUCT_ROWS_range in H. rewrite Hrows.
  destruct H as [->|[->| ->]]; reflexivity.
Qed.

Lemma omap_rows_cons (x : string) (l : list string) :
  omap (fun pid => dict_get pid PRODUCT_ROWS) (x :: l) =
  match dict_get x PRODUCT_ROWS with
  | Some row => row :: omap (fun pid => dict_get pid PRODUCT_ROWS) l
  | None => omap (fun pid => dict_get pid PRODUCT_ROWS) l
  end.
Proof. reflexivity. Qed.

Lemma partition_fold l : forall p a b c,
  products_by_row p = [(1, a); (2, b); (3, c)] ->
  exists a' b' c',
    products_by_row (fold_left partition_step l p) = [(1, a'); (2, b'); (3, c')] /\
    (forall pid, pid ∈ a' <-> pid ∈ a \/ pid ∈ l /\ dict_get pid PRODUCT_ROWS = Some 1) /\
    (forall pid, pid ∈ b' <-> pid ∈ b \/ pid ∈ l /\ dict_get pid PRODUCT_ROWS = Some 2) /\
    (forall pid, pid ∈ c' <-> pid ∈ c \/ pid ∈ l /\ dict_get pid PRODUCT_ROWS = Some 3) /\
    (forall pid, pid ∈ valid_products_in_cart (fold_left partition_step l p)
                 <-> pid ∈ valid_products_in_cart p
                     \/ pid ∈ l /\ is_Some (dict_get pid PRODUCT_ROWS)) /\
    highest_row_with_items (fold_left partition_step l p)
      = fold_left Z.max (omap (fun pid => dict_get pid PRODUCT_ROWS) l)
                  (highest_row_with_items p).
Proof.
  induction l as [|x l IH]; intros p a b c Hrows.
  - exists a, b, c. cbn. split; [exact Hrows|].
    repeat split; try (intros [H|[H _]]; [exact H | inversion H]); auto.
  - cbn [fold_left]. rewrite (partition_step_rows p x a b c Hrows), omap_rows_cons.
    destruct (dict_get x PRODUCT_ROWS) as [row|] eqn:Hx.
    + match goal with |- context [fold_left partition_step l ?q] =>
        destruct (IH q _ _ _ eq_refl) as (a' & b' & c' & Hr & Ha & Hb & Hc & Hv & Hh) end.
      exists a', b', c'. split; [exact Hr|].
      pose proof (PRODUCT_ROWS_range x row Hx) as Hrange.
      cbn [valid_products_in_cart highest_row_with_items] in *.
      assert (Hsome : forall pid, pid = x -> is_Some (dict_get pid PRODUCT_ROWS))
        by (intros pid ->; rewrite Hx; eauto).
      split; [|split; [|split; [|split]]]; try exact Hh; intros pid;
        rewrite ?Ha, ?Hb, ?Hc, ?Hv, elem_of_cons;
        destruct Hrange as [->|[->| ->]]; cbn [Z.eqb Pos.eqb];
        rewrite ?elem_of_app, ?list_elem_of_singleton;
        intuition (subst; eauto 6; congruence).
    + destruct (IH p a b c Hrows) as (a' & b' & c' & Hr & Ha & Hb & Hc & Hv & Hh).
      exists a', b', c'. split; [exact Hr|].
      assert (Hnone : forall pid, pid = x -> ~ is_Some (dict_get pid PRODUCT_ROWS))
        by (intros pid -> [row H]; congruence).
      split; [|split; [|split; [|split]]]; try exact Hh; intros pid;
        rewrite ?Ha, ?Hb, ?Hc, ?Hv, elem_of_cons;
        intuition (subst; eauto 6; try congruence; exfalso; eapply Hnone; eauto).
Qed.

Lemma rows_get_three row a b c :
  rows_get row [(1, a); (2, b); (3, c)] =
  if 1 =? row then a else if 2 =? row then b else if 3 =? row then c else [].
Proof.
  unfold rows_get. cbn [List.find fst]. destruct (1 =? row); [reflexivity|].
  destruct (2 =? row); [reflexivity|]. destruct (3 =? row); reflexivity.
Qed.

Lemma fold_max_ge xs : forall h x, x = h \/ x ∈ xs -> x <= fold_left Z.max xs h.
Proof.
  induction xs as [|y xs IH]; intros h x; cbn.
  - intros [->|H]; [lia | inversion H].
  - rewrite elem_of_cons. intros [->|[->|H]].
    + etransitivity; [|apply IH; left; reflexivity]. lia.
    + etransitivity; [|apply IH; left; reflexivity]. lia.
    + apply IH. right. exact H.
Qed.

Lemma fold_max_in xs : forall h, fold_left Z.max xs h = h \/ fold_left Z.max xs h ∈ xs.
Proof.
  induction xs as [|y xs IH]; intros h; cbn; [left; reflexivity|].
  rewrite elem_of_cons. destruct (IH (Z.max h y)) as [H|H]; [|auto].
  rewrite H. destruct (Z.max_spec h y) as [[_ ->]|[_ ->]]; auto.
Qed.

Lemma elem_of_omap_rows (l : list string) row :
  row ∈ omap (fun pid => dict_get pid PRODUCT_ROWS) l <->
  exists pid, pid ∈ l /\ dict_get pid PRODUCT_ROWS = Some row.
Proof.
  induction l as [|x l IH].
  - cbn. rewrite elem_of_nil. split; [tauto|]. intros (pid & H & _). inversion H.
  - rewrite omap_rows_cons. destruct (dict_get x PRODUCT_ROWS) as [r|] eqn:Hx.
    + rewrite elem_of_cons, IH. split.
      * intros [->|(pid & H & Hp)]; [exists x | exists pid];
          rewrite elem_of_cons; auto.
      * intros (pid & H & Hp). apply elem_of_cons in H as [->|H]; [left; congruence|].
        right. eauto.
    + rewrite IH. split.
      * intros (pid & H & Hp). exists pid. rewrite elem_of_cons. auto.
      * intros (pid & H & Hp). apply elem_of_cons in H as [->|H]; [congruence|]. eauto.
Qed.

(** X18.  Which products a request visits.  The partition loop of
    [process_shopping_list] puts a product of the final cart into the list
    of a row exactly when [PRODUCT_ROWS] assigns it that row, and into
    [valid_products_in_cart] exactly when [PRODUCT_ROWS] assigns it a row at
    all; products the table does not know are skipped.  No row with products
    lies above [highest_row_with_items], and when there is a product to
    visit the row of that number has products: it is the last row the
    request processes, the one that gets no left turn at its end. *)
Theorem partition_follows_product_rows (cart : gmap string Z) :
  (forall pid row,
     pid ∈ rows_get row (products_by_row (partition_cart cart))
     <-> is_Some (cart !! pid) /\ dict_get pid PRODUCT_ROWS = Some row) /\
  (forall pid,
     pid ∈ valid_products_in_cart (partition_cart cart)
     <-> is_Some (cart !! pid) /\ is_Some (dict_get pid PRODUCT_ROWS)) /\
  (forall row,
     rows_get row (products_by_row (partition_cart cart)) <> [] ->
     row <= highest_row_with_items (partition_cart cart)) /\
  (valid_products_in_cart (partition_cart cart) <> [] ->
   rows_get (highest_row_with_items (partition_cart cart))
            (products_by_row (partition_cart cart)) <> []).
Proof.
  unfold partition_cart.
  set (l := sorted_by String.leb (fst <$> map_to_list cart)).
  assert (Hl : forall pid, pid ∈ l <-> is_Some (cart !! pid)).
  { intros pid. unfold l. rewrite elem_of_sorted_by. apply elem_of_cart_keys. }
  destruct (partition_fold l (mkPartition rows_init [] 0) [] [] [] eq_refl)
    as (a & b & c & Hr & Ha & Hb & Hc & Hv & Hh).
  cbn [valid_products_in_cart highest_row_with_items] in Hv, Hh.
  set (p := fold_left partition_step l (mkPartition rows_init [] 0)) in *.
  assert (Hrows : forall pid row,
            pid ∈ rows_get row (products_by_row p)
            <-> pid ∈ l /\ dict_get pid PRODUCT_ROWS = Some row).
  { intros pid row. rewrite Hr, rows_get_three.
    destruct (Z.eqb_spec 1 row) as [<-|H1];
      [rewrite Ha, elem_of_nil; tauto|].
    destruct (Z.eqb_spec 2 row) as [<-|H2];
      [rewrite Hb, elem_of_nil; tauto|].
    destruct (Z.eqb_spec 3 row) as [<-|H3];
      [rewrite Hc, elem_of_nil; tauto|].
    rewrite elem_of_nil. split; [tauto|]. intros [_ H].
    apply PRODUCT_ROWS_range in H. lia. }
  assert (Hne : forall row, rows_get row (products_by_row p) <> [] ->
            exists pid, pid ∈ l /\ dict_get pid PRODUCT_ROWS = Some row).
  { intros row H. destruct (rows_get row (products_by_row p)) as [|pid tl] eqn:E;
      [contradiction|].
    exists pid. apply Hrows. rewrite E. left. }
  split; [|split; [|split]].
  - intros pid row. rewrite Hrows, Hl. reflexivity.
  - intros pid. rewrite Hv, elem_of_nil, Hl. tauto.
  - intros row H. apply Hne in H. rewrite Hh. apply fold_max_ge. right.
    apply elem_of_omap_rows. exact H.
  - intros H. destruct (valid_products_in_cart p) as [|pid tl] eqn:E; [contradiction|].
    assert (Hpid : pid ∈ pid :: tl) by left.
    apply Hv in Hpid. destruct Hpid as [Hpid|[Hpid [row Hrow]]]; [inversion Hpid|].
    assert (Hge : row <= highest_row_with_items p).
    { rewrite Hh. apply fold_max_ge. right. apply elem_of_omap_rows. eauto. }
    pose proof (PRODUCT_ROWS_range pid row Hrow) as Hrange.
    destruct (fold_max_in (omap (fun pid => dict_get pid PRODUCT_ROWS) l) 0) as [H0|H0];
      rewrite <- Hh in H0; [lia|].
    apply elem_of_omap_rows in H0. destruct H0 as (pid' & Hin & Hrow').
    intros Hempty.
    assert (Hmem : pid' ∈ rows_get (highest_row_with_items p) (products_by_row p))
      by (apply Hrows; auto).
    rewrite Hempty in Hmem. inversion Hmem.
Qed.

(** ** Carts without shelved products, and the order within a row *)

Lemma partition_cart_valid (cart : gmap string Z) pid :
  pid ∈ valid_products_in_cart (partition_cart cart)
  <-> is_Some (cart !! pid) /\ is_Some (dict_get pid PRODUCT_ROWS).
Proof.
  unfold partition_cart.
  destruct (partition_fold (sorted_by String.leb (fst <$> map_to_list cart))
              (mkPartition rows_init [] 0) [] [] [] eq_refl)
    as (a & b & c & _ & _ & _ & _ & Hv & _).
  rewrite Hv. cbn [valid_products_in_cart].
  rewrite elem_of_nil, elem_of_sorted_by, elem_of_cart_keys. tauto.
Qed.

(** X19.  A cart without shelved products sends the trolley straight home.
    When no product of the merged cart has a row in [PRODUCT_ROWS] (the cart
    is empty, or holds unknown products only), [process_shopping_list]
    reports [processing_list], persists the merged cart, reports
    [completed_empty_cart] and then does what [_move_trolley_to_home] does,
    and nothing else: no row is processed and no confirmation awaited.  With
    the trolley at home this ends, without a command, in
    [arrived_at:home]. *)
Theorem unshelved_cart_goes_straight_home (rid : string)
    (items : gmap string pyval) (w : World) :
  (forall pid, is_Some (merge_cart items (get_cart rid w) !! pid) ->
               dict_get pid PRODUCT_ROWS = None) ->
  process_shopping_list rid items w
    = _move_trolley_to_home rid
        (update_trolley_status rid "completed_empty_cart"
           (set_cart rid (merge_cart items (get_cart rid w))
              (update_trolley_status rid "processing_list" w)))
  /\ (current_node w = "home" ->
      exists w', process_shopping_list rid items w = Some (tt, w') /\
                 trace w' = EvStatus rid "arrived_at:home"
                              :: EvStatus rid "moving_to:home"
                              :: EvStatus rid "completed_empty_cart"
                              :: EvStatus rid "processing_list" :: trace w /\
                 current_node w' = "home").
Proof.
  intros Hnone.
  assert (Hvalid : valid_products_in_cart
                     (partition_cart (merge_cart items (get_cart rid w))) = []).
  { destruct (valid_products_in_cart _) as [|pid tl] eqn:E; [reflexivity|].
    assert (Hpid : pid ∈ valid_products_in_cart
                     (partition_cart (merge_cart items (get_cart rid w))))
      by (rewrite E; left).
    apply partition_cart_valid in Hpid. destruct Hpid as [Hc [row Hrow]].
    rewrite (Hnone pid Hc) in Hrow. discriminate. }
  assert (Heq : process_shopping_list rid items w
                = _move_trolley_to_home rid
                    (update_trolley_status rid "completed_empty_cart"
                       (set_cart rid (merge_cart items (get_cart rid w))
                          (update_trolley_status rid "processing_list" w)))).
  { unfold process_shopping_list, bind at 1, exec at 1.
    change (get_cart rid (update_trolley_status rid "processing_list" w))
      with (get_cart rid w).
    rewrite Hvalid. reflexivity. }
  split; [exact Heq|].
  intros Hhome. rewrite Heq. unfold _move_trolley_to_home. cbn. rewrite Hhome. cbn.
  eexists. split; [reflexivity|]. split; [reflexivity | exact Hhome].
Qed.

Lemma unshelved_cart_goes_straight_home_witness :
  exists w',
    process_shopping_list "req" {[ "sku42" := PyInt 1 ]}
      (world_at "home" (steady (1, 0, 1)) silent demo_uids) = Some (tt, w') /\
    current_node w' = "home".
Proof.
  destruct (unshelved_cart_goes_straight_home "req" {[ "sku42" := PyInt 1 ]}
              (world_at "home" (steady (1, 0, 1)) silent demo_uids)) as [_ H].
  { intros pid [q Hq].
    destruct (decide (pid = "sku42")) as [->|Hne]; [reflexivity|].
    rewrite merge_cart_other in Hq by (apply lookup_singleton_ne; congruence).
    assert (Hg : get_cart "req" (world_at "home" (steady (1, 0, 1)) silent demo_uids) = ∅)
      by reflexivity.
    rewrite Hg, positive_entries_lookup, lookup_empty in Hq. discriminate. }
  destruct (H eq_refl) as (w' & E & _ & Hc). exists w'. split; [exact E | exact Hc].
Defined.

Lemma insert_sorted_perm {A : Type} (leb : A -> A -> bool) x l :
  insert_sorted leb x l ≡ₚ x :: l.
Proof.
  induction l as [|y l IH]; cbn; [reflexivity|].
  destruct (leb y x); [|reflexivity]. rewrite IH. apply perm_swap.
Qed.

Lemma sorted_by_perm {A : Type} (leb : A -> A -> bool) l : sorted_by leb l ≡ₚ l.
Proof.
  unfold sorted_by.
  assert (H : forall acc, fold_left (fun acc x => insert_sorted leb x acc) l acc ≡ₚ acc ++ l).
  { induction l as [|x l IH]; intros acc; cbn; [rewrite app_nil_r; reflexivity|].
    rewrite IH, insert_sorted_perm. apply Permutation_middle. }
  apply (H []).
Qed.

Lemma ascending_insert {A : Type} (leb : A -> A -> bool) x l :
  (forall a b, leb a b = false -> leb b a = true) ->
  ascending leb l = true -> ascending leb (insert_sorted leb x l) = true.
Proof.
  intros Htot. induction l as [|y l IH]; [reflexivity|].
  intros Hl. cbn [insert_sorted]. destruct (leb y x) eqn:Hyx.
  - assert (Htl : ascending leb l = true).
    { destruct l as [|z l]; [reflexivity|]. cbn in Hl.
      apply andb_true_iff in Hl. apply Hl. }
    specialize (IH Htl). destruct l as [|z l]; cbn [insert_sorted] in *.
    + cbn. rewrite Hyx. reflexivity.
    + cbn [ascending] in Hl. apply andb_true_iff in Hl as [Hyz _].
      destruct (leb z x); cbn [ascending]; [rewrite Hyz | rewrite Hyx]; exact IH.
  - cbn [ascending]. rewrite (Htot _ _ Hyx). exact Hl.
Qed.

Lemma node_key_leb_total a b : node_key_leb a b = false -> node_key_leb b a = true.
Proof.
  unfold node_key_leb.
  destruct (dict_get a NODE_MAPPING) as [x|], (dict_get b NODE_MAPPING) as [y|];
    try discriminate; try reflexivity.
  intros H. apply Z.leb_gt in H. apply Z.leb_le. lia.
Qed.

(** X20.  The products of a row are visited in the order of their nodes.
    The list [_process_row] walks is a rearrangement of the row's products in
    which every product's [NODE_MAPPING] index is at most its successor's, a
    product without an index counting as infinitely far. *)
Theorem row_is_visited_in_node_order (product_list : list string) :
  sorted_by node_key_leb product_list ≡ₚ product_list /\
  ascending node_key_leb (sorted_by node_key_leb product_list) = true.
Proof.
  split; [apply sorted_by_perm|]. unfold sorted_by.
  assert (H : forall acc, ascending node_key_leb acc = true ->
            ascending node_key_leb
              (fold_left (fun acc x => insert_sorted node_key_leb x acc) product_list acc)
            = true).
  { induction product_list as [|x l IH]; intros acc Hacc; [exact Hacc|].
    cbn [fold_left]. apply IH, ascending_insert; [apply node_key_leb_total | exact Hacc]. }
  apply H. reflexivity.
Qed.

(** ** The way home from a front junction *)

Lemma turn_from_RFJ_to_home s :
  startswith s "RFJ" = true -> _get_turn_for_transition s "home" = Some CMD_RIGHT.
Proof.
  intros H. pose proof H as H'. apply startswith_inv in H' as [rest ->].
  unfold _get_turn_for_transition. rewrite H. reflexivity.
Qed.

(** X21.  On the way home the trolley pivots right twice at the front
    junction.  With the trolley at a node named [RFJ...], the UID of home
    registered and a first sensor reading that ends a turn,
    [_move_trolley_to_home] executes a right turn of its own and then calls
    [navigate_to_node] for home, which starts with the right turn the
    transition table gives for a front junction and home: before any forward
    command the commands sent are right, stop, right, stop. *)
Theorem return_home_turns_right_twice (rid : string) (w : World) (uid : string) :
  startswith (current_node w) "RFJ" = true ->
  get_expected_uid "home" w = Some uid ->
  turn_detect (ir_feed w (ir_reads w)) = true ->
  exists w' later,
    _move_trolley_to_home rid w = Some (tt, w') /\
    sent (trace w') = later ++ [CMD_STOP; CMD_RIGHT; CMD_STOP; CMD_RIGHT] ++ sent (trace w).
Proof.
  intros Hrfj Huid Hfirst.
  pose proof Hrfj as Hpre. apply startswith_inv in Hpre as [rest Hrest].
  assert (Hhome : String.eqb (current_node w) "home" = false) by (rewrite Hrest; reflexivity).
  assert (Hpdt : startswith (current_node w) "pdt" = false) by (rewrite Hrest; reflexivity).
  assert (Hrbj : startswith (current_node w) "RBJ" = false) by (rewrite Hrest; reflexivity).
  destruct (_move_trolley_to_home_runs rid w) as ([] & w' & E & _).
  cut (exists later,
         sent (trace w')
         = later ++ [CMD_STOP; CMD_RIGHT; CMD_STOP; CMD_RIGHT] ++ sent (trace w)).
  { intros [later H]. exists w', later. split; assumption. }
  revert E. unfold _move_trolley_to_home.
  set (w0 := update_trolley_status rid "moving_to:home" w).
  change (get_current_node w0) with (current_node w).
  rewrite Hhome, Hpdt, Hrbj. cbn [orb]. unfold bind at 1, ret at 1. unfold bind at 1.
  cbn [andb]. change (get_current_node w0) with (current_node w). rewrite Hrfj.
  destruct (execute_simple_turn_spec CMD_RIGHT rid w0)
    as (b1 & w1 & n & E1 & Hn & _ & Hc1 & _ & Hall & Hlast & _).
  assert (Hb : b1 = true).
  { destruct b1; [reflexivity|]. rewrite <- Hfirst.
    destruct (decide (n = 1%nat)) as [Hn1|Hn1].
    - rewrite <- Hlast, Hn1. f_equal. cbn. f_equal. lia.
    - symmetry. apply Hall. cbn. lia. }
  rewrite Hb in E1.
  destruct (turn_commands CMD_RIGHT rid w0) as (b & w1' & E1' & Hs1).
  rewrite E1 in E1'. injection E1' as <- <-. rewrite E1.
  assert (He1 : evolves w w1).
  { eapply execute_simple_turn_evolves; [|exact E1]. unfold w0. auto with evo. }
  unfold bind at 1. unfold get_current_node at 1.
  rewrite Hc1. change (current_node w0) with (current_node w). rewrite Hhome. cbn [negb].
  unfold navigate_to_node.
  rewrite Hc1. change (current_node w0) with (current_node w). rewrite Hhome.
  set (w2 := update_trolley_status rid ("moving_to:" +:+ "home") w1).
  change (get_expected_uid "home" w2) with (get_expected_uid "home" w1).
  rewrite (get_expected_uid_evolves _ _ _ He1), Huid.
  change (current_node w2) with (current_node w1).
  rewrite Hc1. change (current_node w0) with (current_node w).
  rewrite (turn_from_RFJ_to_home _ Hrfj).
  destruct (turn_commands CMD_RIGHT rid w2) as (b2 & w3 & E3 & Hs3).
  rewrite E3.
  assert (Hsent3 : sent (trace w3)
                   = [CMD_STOP; CMD_RIGHT; CMD_STOP; CMD_RIGHT] ++ sent (trace w)).
  { rewrite Hs3. unfold w2. cbn -[sent]. rewrite sent_status, Hs1.
    unfold w0. cbn -[sent]. rewrite sent_status. reflexivity. }
  assert (Htail : forall w4, evolves w3 w4 ->
            exists later,
              sent (trace w4)
              = later ++ [CMD_STOP; CMD_RIGHT; CMD_STOP; CMD_RIGHT] ++ sent (trace w)).
  { intros w4 He. destruct (ev_trace _ _ He) as (new & Hnew).
    exists (sent new). rewrite Hnew, sent_app, Hsent3. reflexivity. }
  destruct b2.
  - destruct (navigate_from_start uid "home" rid (send_command CMD_FORWARD w3))
      as [[b4 w4]|] eqn:E4; [|discriminate].
    apply (navigate_from_start_evolves _ _ _ w3) in E4; [|auto with evo].
    destruct (b4 && String.eqb (get_current_node w4) "home");
      intros [= <-]; apply Htail; auto with evo.
  - cbn [andb]. intros [= <-]. apply Htail. apply evolves_refl.
Qed.

Lemma return_home_turns_right_twice_witness :
  exists w' later,
    _move_trolley_to_home "req"
      (world_at "RFJ1" (steady (1, 0, 1)) silent demo_uids) = Some (tt, w') /\
    sent (trace w') = later ++ [CMD_STOP; CMD_RIGHT; CMD_STOP; CMD_RIGHT].
Proof.
  destruct (return_home_turns_right_twice "req"
              (world_at "RFJ1" (steady (1, 0, 1)) silent demo_uids) "0a00"
              eq_refl eq_refl eq_refl) as (w' & later & E & H).
  exists w', later. split; [exact E|]. rewrite H. reflexivity.
Defined.

(** ** Shutdown *)

(** X22.  Shutting down stops the motors once and silences the port.
    [stop] on a controller that is not running does nothing.  On a running
    controller it clears the flag and closes the hardware: when the serial
    port is open [close] writes one stop command before closing it, and
    otherwise writes nothing; afterwards there is neither port nor GPIO
    handle, every [send_command] is dropped, and a second [stop], a further
    [cleanup] or a second [close] writes nothing more. *)
Theorem shutdown_stops_once (c : controller) (hw : hardware) (cmd : command) :
  hw_interface c = Some hw ->
  (_running c = false -> TrolleyController_stop c = c)
  /\ (_running c = true ->
      TrolleyController_stop c
        = mkController (Some (HardwareInterface_close hw)) false)
  /\ wire (HardwareInterface_close hw)
       = (if decide (esp32 hw = Some true) then CMD_STOP :: wire hw else wire hw)
  /\ esp32 (HardwareInterface_close hw) = None
  /\ h_gpio (HardwareInterface_close hw) = None
  /\ HardwareInterface_send_command cmd (HardwareInterface_close hw)
       = HardwareInterface_close hw
  /\ HardwareInterface_close (HardwareInterface_close hw) = HardwareInterface_close hw
  /\ TrolleyController_stop (TrolleyController_stop c) = TrolleyController_stop c
  /\ TrolleyController_cleanup (TrolleyController_stop c)
       = (if _running c then TrolleyController_stop c else TrolleyController_cleanup c).
Proof.
  intros Hhw.
  assert (Hclose2 : HardwareInterface_close (HardwareInterface_close hw)
                    = HardwareInterface_close hw) by reflexivity.
  split; [|split; [|split; [|split; [|split; [|split; [|split; [|split]]]]]]].
  - intros Hr. unfold TrolleyController_stop. rewrite Hr. reflexivity.
  - intros Hr. unfold TrolleyController_stop, TrolleyController_cleanup.
    rewrite Hr. cbn. rewrite Hhw. reflexivity.
  - unfold HardwareInterface_close, HardwareInterface_send_command.
    destruct (esp32 hw) as [[|]|]; reflexivity.
  - reflexivity.
  - reflexivity.
  - reflexivity.
  - exact Hclose2.
  - unfold TrolleyController_stop at 2 3.
    destruct (_running c) eqn:Hr; cbn [negb]; [|unfold TrolleyController_stop; rewrite Hr; reflexivity].
    unfold TrolleyController_cleanup. cbn. rewrite Hhw. reflexivity.
  - unfold TrolleyController_stop.
    destruct (_running c) eqn:Hr; cbn [negb]; [|reflexivity].
    unfold TrolleyController_cleanup. cbn. rewrite Hhw. cbn. rewrite Hclose2. reflexivity.
Qed.

Lemma shutdown_stops_once_witness :
  TrolleyController_stop
    (mkController (Some (mkHardware (Some 0) (Some true) [CMD_FORWARD] 0)) true)
  = mkController (Some (mkHardware None None [CMD_STOP; CMD_FORWARD] 100)) false.
Proof.
  destruct (shutdown_stops_once
              (mkController (Some (mkHardware (Some 0) (Some true) [CMD_FORWARD] 0)) true)
              (mkHardware (Some 0) (Some true) [CMD_FORWARD] 0) CMD_LEFT eq_refl)
    as (_ & H & _).
  rewrite (H eq_refl). reflexivity.
Defined.
